(** * Reefcraft core: the [Sampler] of [src/core/src/reefcraft.cpp]

    A shallow embedding of [reefcraft::Sampler] (constructor, [Seed],
    [SimValue]) and of the nanobind adapter's static instance.

    Arithmetic.  Every [float] of the source is an IEEE-754 binary32 value and
    every operation on it is rounded to nearest, ties to even, one operation
    at a time.  The operations are those of the standard library's
    [SpecFloat] at precision 24 and maximal exponent 128; nothing of the
    arithmetic is idealised.

    Library code.  [std::mt19937], [std::uniform_real_distribution<float>] and
    [std::sin] belong to the C++ standard library, not to the repository: they
    are parameters of the embedding, constrained only by what their
    specification promises (the draw of a distribution with parameters [a]
    and [b] lies between [a] and [b]; the sine of a finite number is within
    [-1, 1], keeps a zero, and is NaN on a non-finite argument). *)

From Stdlib Require Import ZArith Lia Bool List.
From Stdlib Require Import Floats.SpecFloat.
Import ListNotations.
Local Open Scope Z_scope.

(** * The model *)

(** ** Binary32 numbers *)

Module B32.

(** Binary32 is [SpecFloat] at precision 24 and maximal exponent 128. *)

(** A C++ [float]. *)
Definition float : Type := spec_float.

(** The values a [float] variable can hold: the mantissa is canonical and the
    exponent is in range. *)
Definition valid (x : float) : bool := valid_binary 24 128 x.

Definition is_finite (x : float) : bool :=
  match x with
  | S754_zero _ | S754_finite _ _ _ => true
  | S754_infinity _ | S754_nan => false
  end.

Definition fadd : float -> float -> float := SFadd 24 128.
Definition fsub : float -> float -> float := SFsub 24 128.
Definition fmul : float -> float -> float := SFmul 24 128.
Definition fdiv : float -> float -> float := SFdiv 24 128.
Definition fabs : float -> float := SFabs.

(** [x <= y], [x < y] and [x >= y] as C++ evaluates them: false as soon as one
    side is NaN. *)
Definition fle (x y : float) : bool := SFleb x y.
Definition flt (x y : float) : bool := SFltb x y.
Definition fge (x y : float) : bool := SFleb y x.

(** [static_cast<float>] of a [double]. *)
Definition float_of_double (d : spec_float) : float :=
  match d with
  | S754_finite s m e => binary_round 24 128 s m e
  | _ => d
  end.

(** Literals of the source. *)
Definition f0_0 : float := S754_zero false.                      (* 0.0f *)
Definition f0_5 : float := S754_finite false 8388608 (-24).      (* 0.5f *)
Definition f1_5 : float := S754_finite false 12582912 (-23).     (* 1.5f *)
Definition f0_1 : float := S754_finite false 13421773 (-27).     (* 0.1f *)
Definition f1_0 : float := S754_finite false 8388608 (-23).      (* 1.0f *)
Definition f2_0 : float := S754_finite false 8388608 (-22).      (* 2.0f *)

(** [M_PI] of <cmath>, the binary64 number 0x400921FB54442D18. *)
Definition M_PI : spec_float := S754_finite false 7074237752028440 (-51).

(** [2.0f * static_cast<float>(M_PI)]. *)
Definition two_pi : float := fmul f2_0 (float_of_double M_PI).

(** [2 ^ k] as a [float], for [-126 <= k <= 127]. *)
Definition fpow2 (k : Z) : float := S754_finite false 8388608 (k - 23).

(** [- x]. *)
Definition fopp : float -> float := SFopp.

(** The [float] that follows [two_pi]: [two_pi + 2 ^ -21]. *)
Definition two_pi_up : float := S754_finite false 13176796 (-21).

(** *** The value of a [float] as an integer, and rounding on integers

    What follows is not code of the sampler: it is the vocabulary in which the
    results of [fadd], [fsub], [fmul], [fdiv] and of the comparisons are
    stated, so that arithmetic on [float]s becomes arithmetic on [Z]. *)

(** The position of a discarded remainder against one half: 0 exact, 1 below,
    2 at, 3 above. *)
Definition loc_code (l : location) : Z :=
  match l with
  | loc_Exact => 0
  | loc_Inexact Lt => 1
  | loc_Inexact Eq => 2
  | loc_Inexact Gt => 3
  end.

(** What [SpecFloat]'s shift by [j] bits leaves of [M]: the quotient, the
    round bit and the sticky bit. *)
Definition shr_state (M j : Z) : shr_record :=
  Build_shr_record (M / 2 ^ j) (Z.testbit M (j - 1)) (negb (M mod 2 ^ (j - 1) =? 0)).

(** [M / 2 ^ k] rounded to the nearest integer, ties to even. *)
Definition rne (M k : Z) : Z :=
  let q := M / 2 ^ k in
  match 2 * (M mod 2 ^ k) ?= 2 ^ k with
  | Lt => q
  | Gt => q + 1
  | Eq => if Z.even q then q else q + 1
  end.

(** The exponent of the last place of a binary32 number of [z] significant
    bits counted from the binary point: 24 bits of precision, subnormals from
    [2 ^ -149]. *)
Definition fexp32 (z : Z) : Z := Z.max (z - 24) (-149).

(** The number of bits of [M * 2 ^ e] that do not fit. *)
Definition round_shift (M e : Z) : Z := Z.max 0 (fexp32 (Zdigits2 M + e) - e).

(** The [float] of sign [s] and magnitude [N * 2 ^ e], once [N] is rounded:
    an infinity when the exponent passes 104. *)
Definition pack (s : bool) (N e : Z) : spec_float :=
  let k := round_shift N e in
  match N / 2 ^ k with
  | Z0 => S754_zero s
  | Zpos m => if e + k <=? 104 then S754_finite s m (e + k) else S754_infinity s
  | Zneg _ => S754_nan
  end.

(** The value of a finite [float], counted in units of [2 ^ -149] (the
    smallest positive binary32 number): an integer. *)
Definition Fnum (x : spec_float) : Z :=
  match x with
  | S754_finite s m e => cond_Zopp s (Zpos m * 2 ^ (e + 149))
  | _ => 0
  end.

(** Rounding of a positive integer, counted in units of [2 ^ -149], to 24
    significant bits. *)
Definition ulp_shift (n : Z) : Z := Z.max 0 (Zdigits2 n - 24).

Definition rnd_pos (n : Z) : Z := rne n (ulp_shift n) * 2 ^ ulp_shift n.

(** Rounding of any integer of units: symmetric about 0. *)
Definition rnd (n : Z) : Z :=
  match n with
  | Z0 => 0
  | Zpos _ => rnd_pos n
  | Zneg p => - rnd_pos (Zpos p)
  end.

(** [f] units is a binary32 number: rounding leaves it. *)
Definition repr (f : Z) : Prop := rnd f = f.

(** [2 ^ k], in units of [2 ^ -149]. *)
Definition units (k : Z) : Z := 2 ^ (k + 149).

(** [x] is a [float] between [lo] and [hi]. *)
Definition between (lo hi x : float) : Prop :=
  valid x = true /\ fle lo x = true /\ fle x hi = true.

(** A dyadic number [m * 2 ^ e], scaled to an integer. *)
Definition sc (m e : Z) : Z := m * 2 ^ (e + 400).

End B32.

Import B32.

(** ** The sampler *)

Section SamplerModel.

(** The state of a [std::mt19937]. *)
Variable Rng : Type.

(** [std::mt19937(seed)] and [m_Rng.seed(seed)]: the engine state is a
    function of the seed alone. *)
Variable rng_seed : Z -> Rng.

(** [std::uniform_real_distribution<float>(a, b)(rng)]: the number drawn and
    the engine afterwards.  The distribution object keeps no state of its own
    between draws. *)
Variable uniform_real : float -> float -> Rng -> float * Rng.

(** [std::sin] on [float]. *)
Variable sinf : float -> float.

Record Sampler : Type := mkSampler {
  m_CycleStart : float;   (* start time of the current cycle *)
  m_Period : float;       (* duration of the current cycle *)
  m_Amplitude : float;    (* amplitude of the current cycle *)
  m_Rng : Rng             (* random-number engine *)
}.

(** The two distribution members, as the constructor initialises them. *)
Definition m_PeriodDist : Rng -> float * Rng := uniform_real f0_5 f1_5.
Definition m_AmpDist : Rng -> float * Rng := uniform_real f0_1 f1_0.

(** Assignments to single members. *)
Definition set_Rng (g : Rng) (s : Sampler) : Sampler :=
  mkSampler (m_CycleStart s) (m_Period s) (m_Amplitude s) g.

Definition set_CycleStart (c : float) (s : Sampler) : Sampler :=
  mkSampler c (m_Period s) (m_Amplitude s) (m_Rng s).

(** [m_Period = m_PeriodDist(m_Rng);] *)
Definition draw_Period (s : Sampler) : Sampler :=
  let (p, g) := m_PeriodDist (m_Rng s) in
  mkSampler (m_CycleStart s) p (m_Amplitude s) g.

(** [m_Amplitude = m_AmpDist(m_Rng);] *)
Definition draw_Amplitude (s : Sampler) : Sampler :=
  let (a, g) := m_AmpDist (m_Rng s) in
  mkSampler (m_CycleStart s) (m_Period s) a g.

(** [Sampler::Sampler(uint32_t inSeed)].  The member initialisers set
    [m_CycleStart] and [m_Rng]; [m_Period] and [m_Amplitude] hold no value
    until the body assigns them (the placeholder below is never read). *)
Definition Sampler_init (inSeed : Z) : Sampler :=
  let s := mkSampler f0_0 f0_0 f0_0 (rng_seed inSeed) in
  let s := draw_Period s in
  draw_Amplitude s.

(** The default argument of the constructor, [12345u]. *)
Definition default_seed : Z := 12345.

(** [Sampler(inSeed)] with the argument optional, as the header declares. *)
Definition Sampler_new (inSeed : option Z) : Sampler :=
  Sampler_init (match inSeed with Some s => s | None => default_seed end).

(** [static reefcraft::Sampler theSampler{12345u}] of the Python module. *)
Definition theSampler : Sampler := Sampler_init 12345.

(** [Sampler::Seed]. *)
Definition Seed (inSeed : Z) (s : Sampler) : Sampler :=
  let s := set_Rng (rng_seed inSeed) s in      (* m_Rng.seed(inSeed); *)
  let s := set_CycleStart f0_0 s in            (* m_CycleStart = 0.0f; *)
  let s := draw_Period s in
  draw_Amplitude s.

(** The loop condition [inTime >= m_CycleStart + m_Period]. *)
Definition cycle_elapsed (inTime : float) (s : Sampler) : bool :=
  fge inTime (fadd (m_CycleStart s) (m_Period s)).

(** The loop body. *)
Definition next_cycle (s : Sampler) : Sampler :=
  let s := set_CycleStart (fadd (m_CycleStart s) (m_Period s)) s in
  let s := draw_Period s in
  draw_Amplitude s.

(** The [while] loop, run for at most [fuel] iterations: [None] when the
    condition still holds after them. *)
Fixpoint advance (fuel : nat) (inTime : float) (s : Sampler) : option Sampler :=
  if cycle_elapsed inTime s then
    match fuel with
    | O => None
    | S n => advance n inTime (next_cycle s)
    end
  else Some s.

(** [theta], for the state the loop left. *)
Definition phase (inTime : float) (s : Sampler) : float :=
  fdiv (fmul two_pi (fsub inTime (m_CycleStart s))) (m_Period s).

(** [m_Amplitude * std::sin(theta)]. *)
Definition value_at (inTime : float) (s : Sampler) : float :=
  fmul (m_Amplitude s) (sinf (phase inTime s)).

(** [Sampler::SimValue]: the value returned and the state afterwards. *)
Definition SimValue (fuel : nat) (inTime : float) (s : Sampler)
  : option (float * Sampler) :=
  match advance fuel inTime s with
  | None => None
  | Some s' => Some (value_at inTime s', s')
  end.

(** The call never returns: the loop condition holds however often the body
    has run. *)
Definition diverges (inTime : float) (s : Sampler) : Prop :=
  forall fuel, advance fuel inTime s = None.

(** The values returned by a sequence of [SimValue] calls on one sampler. *)
Fixpoint run (fuel : nat) (times : list float) (s : Sampler)
  : option (list float) :=
  match times with
  | [] => Some []
  | t :: ts =>
      match SimValue fuel t s with
      | None => None
      | Some (v, s') =>
          match run fuel ts s' with
          | None => None
          | Some vs => Some (v :: vs)
          end
      end
  end.

(** The states a program can bring a sampler into: construction, then any
    sequence of [Seed] and of [SimValue] calls that return. *)
Inductive reachable : Sampler -> Prop :=
| reach_init (inSeed : Z) : reachable (Sampler_init inSeed)
| reach_Seed (inSeed : Z) (s : Sampler) :
    reachable s -> reachable (Seed inSeed s)
| reach_SimValue (fuel : nat) (inTime v : float) (s s' : Sampler) :
    reachable s -> valid inTime = true ->
    SimValue fuel inTime s = Some (v, s') -> reachable s'.

(** ** What is assumed of the library *)

(** A draw of [uniform_real_distribution<float>(a, b)] is a [float] between
    [a] and [b]. *)
Definition draws_in_range : Prop :=
  forall (a b : float) (g : Rng),
    valid a = true -> valid b = true ->
    is_finite a = true -> is_finite b = true -> fle a b = true ->
    between a b (fst (uniform_real a b g)).

(** [std::sin] keeps a zero with its sign, maps a finite number into
    [-1, 1], and is NaN on an infinity or a NaN. *)
Definition sine_spec : Prop :=
  (forall s : bool, sinf (S754_zero s) = S754_zero s) /\
  (forall x : float, valid x = true -> is_finite x = true ->
     valid (sinf x) = true /\ is_finite (sinf x) = true /\
     fle (fabs (sinf x)) f1_0 = true) /\
  (forall x : float, is_finite x = false -> sinf x = S754_nan).

(** ** The invariant of the cycle fields *)

Definition start_ok (c : float) : Prop := between f0_0 (fpow2 25) c.
Definition period_ok (p : float) : Prop := between f0_5 f1_5 p.
Definition amplitude_ok (a : float) : Prop := between f0_1 f1_0 a.

Definition cycle_ok (s : Sampler) : Prop :=
  start_ok (m_CycleStart s) /\ period_ok (m_Period s) /\
  amplitude_ok (m_Amplitude s).

(** The program [Seed(inSeed); a = SimValue(inTime); Seed(inSeed);
    b = SimValue(inTime)] on one sampler: the pair [(a, b)]. *)
Definition seed_twice (fuel : nat) (inSeed : Z) (inTime : float) (s : Sampler)
  : option (float * float) :=
  match SimValue fuel inTime (Seed inSeed s) with
  | None => None
  | Some (a, s1) =>
      match SimValue fuel inTime (Seed inSeed s1) with
      | None => None
      | Some (b, _) => Some (a, b)
      end
  end.

(** The number of iterations that is enough at a time below [2 ^ 23]: one for
    each quarter between the cycle start and the time. *)
Definition fuel_for (inTime : float) (s : Sampler) : nat :=
  Z.to_nat ((Fnum inTime - Fnum (m_CycleStart s)) / units (-2) + 1).

End SamplerModel.

Arguments mkSampler {Rng} _ _ _ _.
Arguments m_CycleStart {Rng} _.
Arguments m_Period {Rng} _.
Arguments m_Amplitude {Rng} _.
Arguments m_Rng {Rng} _.
Arguments Sampler_init {Rng} rng_seed uniform_real inSeed.
Arguments Seed {Rng} rng_seed uniform_real inSeed s.
Arguments next_cycle {Rng} uniform_real s.
Arguments advance {Rng} uniform_real fuel inTime s.
Arguments cycle_elapsed {Rng} inTime s.
Arguments reach_SimValue {Rng} rng_seed uniform_real sinf.
Arguments phase {Rng} inTime s.
Arguments value_at {Rng} sinf inTime s.
Arguments SimValue {Rng} uniform_real sinf fuel inTime s.
Arguments run {Rng} uniform_real sinf fuel times s.
Arguments diverges {Rng} uniform_real inTime s.
Arguments reachable {Rng} rng_seed uniform_real sinf s.
Arguments reach_init {Rng} rng_seed uniform_real sinf inSeed.
Arguments draws_in_range {Rng} uniform_real.
Arguments fuel_for {Rng} inTime s.
Arguments set_Rng {Rng} g s.
Arguments set_CycleStart {Rng} c s.
Arguments cycle_ok {Rng} s.

(** ** A scripted engine, for worked examples

    An engine that plays a fixed script of candidate numbers, a distribution
    that takes the next candidate when it lies within its bounds (its lower
    bound otherwise), and a stand-in for the sine (the identity on [-1, 1], 0
    on other finite numbers, NaN elsewhere).  They meet what is assumed of
    the library, so every theorem on the sampler applies to them; the worked
    examples are evaluated on them. *)

Module Scripted.

(** The script played, and how many numbers were drawn from it. *)
Definition Rng : Type := (Z * nat)%type.

Definition rng_seed (inSeed : Z) : Rng := (inSeed, 0%nat).

Definition table : list float :=
  [ S754_finite false 10407419 (-24);   (* 0.62033051 *)
    S754_finite false 13421773 (-24);   (* 0.80000001 *)
    S754_finite false 10848242 (-23);   (* 1.29321122 *)
    S754_finite false 10066330 (-25);   (* 0.30000001 *)
    S754_finite false 12582912 (-24);   (* 0.75 *)
    S754_finite false 9227469 (-24);    (* 0.55000001 *)
    S754_finite false 10485760 (-23);   (* 1.25 *)
    S754_finite false 8388608 (-25) ].  (* 0.25 *)

(** Script 1 is steady at 1.0; every other script repeats the table. *)
Definition script (id : Z) (n : nat) : float :=
  if id =? 1 then f1_0 else nth (n mod 8) table f1_0.

Definition uniform_real (a b : float) (g : Rng) : float * Rng :=
  let c := script (fst g) (snd g) in
  (if valid c && fle a c && fle c b then c else a, (fst g, S (snd g))).

Definition sinf (x : float) : float :=
  match x with
  | S754_zero _ => x
  | S754_finite _ _ _ => if fle (fabs x) f1_0 then x else S754_zero false
  | _ => S754_nan
  end.

(** [Sampler theSampler;] *)
Definition fresh : Sampler Rng := Sampler_init rng_seed uniform_real 12345.

End Scripted.

(** ** Times and states of the worked examples *)

(** Times of the examples. *)
Definition t_0_25 : float := S754_finite false 8388608 (-25).        (* 0.25f *)
Definition t_0_75 : float := S754_finite false 12582912 (-24).       (* 0.75f *)
Definition t_minus_1 : float := S754_finite true 8388608 (-23).      (* -1.0f *)
Definition t_1e8 : float := S754_finite false 12500000 3.            (* 1e8f *)
Definition t_minus_1e38 : float := S754_finite true 9860761 103.     (* -1e38f *)
Definition t_lowest : float := S754_finite true 16777215 104.        (* -FLT_MAX *)

(** 33554430.0f, the largest [float] below [2 ^ 25]. *)
Definition t_33554430 : float := S754_finite false 16777215 1.

(** [static_cast<float>(k)] for an integer [k]. *)
Definition Zfloat (k : Z) : float := binary_normalize 24 128 k 0 false.

(** The sampler of the steady script after [k] cycles of period 1.0, [n]
    numbers drawn. *)
Definition steady (k : Z) (n : nat) : Sampler Scripted.Rng :=
  mkSampler (Zfloat k) f1_0 f1_0 (1, n).

(** ** The callers: the Python module and the test program *)

(** C++ operators and library functions on [float]s that the test program
    uses. *)
Definition feq (x y : float) : bool := SFeqb x y.                     (* x == y *)
Definition fne (x y : float) : bool := negb (SFeqb x y).              (* x != y *)
Definition fgt (x y : float) : bool := SFltb y x.                     (* x > y *)
Definition fmax (a b : float) : float := if flt a b then b else a.    (* std::max(a, b) *)
Definition fmin (a b : float) : float := if flt b a then b else a.    (* std::min(a, b) *)

(** Literals of the test program. *)
Definition f0_01 : float := S754_finite false 10737418 (-30).         (* 0.01f *)
Definition kTolerance : float := S754_finite false 13421773 (-28).    (* 0.05f *)
Definition f4_999 : float := S754_finite false 10483663 (-21).        (* 4.999f *)
Definition f5_001 : float := S754_finite false 10487857 (-21).        (* 5.001f *)
Definition infinity : float := S754_infinity false.
  (* std::numeric_limits<float>::infinity() *)

(** [i * 0.01f] for an [int i]: the integer is converted to [float], then
    multiplied. *)
Definition sample_time (i : Z) : float := fmul (Zfloat i) f0_01.

(** A call of one of the two functions that [NB_MODULE(reefcraft, inExt)]
    exposes, with the argument as the C++ lambda receives it. *)
Inductive py_call : Type :=
| py_seed (inSeed : Z)          (* reefcraft.seed(seed) *)
| py_sim_value (t : float).     (* reefcraft.sim_value(t) *)

(** A finite time from [- 2 ^ 120] to below [2 ^ 23]: a call at such a time
    is bound to return a finite value. *)
Definition time_ok (t : float) : Prop :=
  valid t = true /\ is_finite t = true /\
  fle (fopp (fpow2 120)) t = true /\ flt t (fpow2 23) = true.

(** A finite time that is at least [- 2 ^ 120]. *)
Definition time_lower_ok (t : float) : Prop :=
  valid t = true /\ is_finite t = true /\ fle (fopp (fpow2 120)) t = true.

(** A finite value within [-1, 1]. *)
Definition value_ok (v : float) : Prop :=
  valid v = true /\ is_finite v = true /\ fle (fabs v) f1_0 = true.

(** The running maximum and minimum of test 1: the initial infinity, or a
    value within [-1, 1]. *)
Definition max_ok (m : float) : Prop := m = fopp infinity \/ value_ok m.
Definition min_ok (m : float) : Prop := m = infinity \/ value_ok m.

Section Callers.

Variable Rng : Type.
Variable rng_seed : Z -> Rng.
Variable uniform_real : float -> float -> Rng -> float * Rng.
Variable sinf : float -> float.

(** *** [src/bindings/reefcraft_py.cpp] *)

(** One call on the module's static sampler: what Python gets back ([None]
    from [seed], the value from [sim_value]) and the sampler afterwards. *)
Definition py_apply (fuel : nat) (c : py_call) (s : Sampler Rng)
  : option (option float * Sampler Rng) :=
  match c with
  | py_seed inSeed => Some (None, Seed rng_seed uniform_real inSeed s)
  | py_sim_value t =>
      match SimValue uniform_real sinf fuel t s with
      | None => None
      | Some (v, s') => Some (Some v, s')
      end
  end.

(** A sequence of calls on the module. *)
Fixpoint py_session (fuel : nat) (calls : list py_call) (s : Sampler Rng)
  : option (list (option float) * Sampler Rng) :=
  match calls with
  | [] => Some ([], s)
  | c :: rest =>
      match py_apply fuel c s with
      | None => None
      | Some (r, s') =>
          match py_session fuel rest s' with
          | None => None
          | Some (rs, s'') => Some (r :: rs, s'')
          end
      end
  end.

(** A [sim_value] call at a time from [- 2 ^ 120] to below [2 ^ 23]; any
    [seed] call. *)
Definition py_call_ok (c : py_call) : Prop :=
  match c with
  | py_seed _ => True
  | py_sim_value t => time_ok t
  end.

(** [None], or a finite value within [-1, 1]. *)
Definition py_result_ok (r : option float) : Prop :=
  match r with
  | None => True
  | Some v => value_ok v
  end.

(** The module as imported: its static sampler is [theSampler{12345u}]. *)
Definition py_import (fuel : nat) (calls : list py_call)
  : option (list (option float) * Sampler Rng) :=
  py_session fuel calls (theSampler Rng rng_seed uniform_real).

(** *** [src/tests/cxx/test_core.cpp]

    [main] keeps one flag, [success], and one sampler; each test below is a
    block of [main], taking and returning the two.  Printing is left out. *)

(** The loop of test 1, [n] iterations from index [i] on: [false] when it
    stopped at a value that is not finite, with the running maximum and
    minimum. *)
Fixpoint test_1_loop (fuel n : nat) (i : Z) (s : Sampler Rng) (maxValue minValue : float)
  : option (bool * float * float * Sampler Rng) :=
  match n with
  | O => Some (true, maxValue, minValue, s)
  | S n' =>
      let inTime := sample_time i in
      match SimValue uniform_real sinf fuel inTime s with
      | None => None
      | Some (value, s') =>
          if is_finite value
          then test_1_loop fuel n' (i + 1) s' (fmax maxValue value) (fmin minValue value)
          else Some (false, maxValue, minValue, s')
      end
  end.

(** Test 1: finite output and amplitude bounds over [0, 10] seconds. *)
Definition test_1 (fuel : nat) (success : bool) (s : Sampler Rng)
  : option (bool * Sampler Rng) :=
  match test_1_loop fuel (Z.to_nat 1001) 0 s (fopp infinity) infinity with
  | None => None
  | Some (finite, maxValue, minValue, s') =>
      let success := if finite then success else false in
      let success :=
        if fgt maxValue (fadd f1_0 kTolerance)
           || flt minValue (fsub (fopp f1_0) kTolerance)
        then false else success in
      Some (success, s')
  end.

(** Test 2: reseeding produces repeatable values. *)
Definition test_2 (fuel : nat) (success : bool) (s : Sampler Rng)
  : option (bool * Sampler Rng) :=
  let s := Seed rng_seed uniform_real 123 s in
  match SimValue uniform_real sinf fuel f0_5 s with
  | None => None
  | Some (valueA, s) =>
      let s := Seed rng_seed uniform_real 123 s in
      match SimValue uniform_real sinf fuel f0_5 s with
      | None => None
      | Some (valueB, s) => Some (if fne valueA valueB then false else success, s)
      end
  end.

(** Test 3: changing the seed alters the output. *)
Definition test_3 (fuel : nat) (success : bool) (s : Sampler Rng)
  : option (bool * Sampler Rng) :=
  let s := Seed rng_seed uniform_real 123 s in
  match SimValue uniform_real sinf fuel f1_0 s with
  | None => None
  | Some (valueC, s) =>
      let s := Seed rng_seed uniform_real 456 s in
      match SimValue uniform_real sinf fuel f1_0 s with
      | None => None
      | Some (valueD, s) => Some (if feq valueC valueD then false else success, s)
      end
  end.

(** Test 4: continuity across time. *)
Definition test_4 (fuel : nat) (success : bool) (s : Sampler Rng)
  : option (bool * Sampler Rng) :=
  let s := Seed rng_seed uniform_real 999 s in
  match SimValue uniform_real sinf fuel f4_999 s with
  | None => None
  | Some (valueBefore, s) =>
      match SimValue uniform_real sinf fuel f5_001 s with
      | None => None
      | Some (valueAfter, s) =>
          Some (if fgt (fabs (fsub valueBefore valueAfter)) f1_0
                then false else success, s)
      end
  end.

(** The loop of test 5, [n] iterations from index [i] on: [false] when it
    stopped at a value that is not finite. *)
Fixpoint test_5_loop (fuel n : nat) (i : Z) (s : Sampler Rng)
  : option (bool * Sampler Rng) :=
  match n with
  | O => Some (true, s)
  | S n' =>
      match SimValue uniform_real sinf fuel (sample_time i) s with
      | None => None
      | Some (value, s') =>
          if is_finite value then test_5_loop fuel n' (i + 1) s' else Some (false, s')
      end
  end.

(** Test 5: long duration stability. *)
Definition test_5 (fuel : nat) (success : bool) (s : Sampler Rng)
  : option (bool * Sampler Rng) :=
  let s := Seed rng_seed uniform_real 2025 s in
  match test_5_loop fuel (Z.to_nat 10000) 0 s with
  | None => None
  | Some (finite, s') => Some (if finite then success else false, s')
  end.

(** [main]: the exit code. *)
Definition test_main (fuel : nat) : option Z :=
  let success := true in
  let theSampler := Sampler_new Rng rng_seed uniform_real None in
  match test_1 fuel success theSampler with
  | None => None
  | Some (success, theSampler) =>
  match test_2 fuel success theSampler with
  | None => None
  | Some (success, theSampler) =>
  match test_3 fuel success theSampler with
  | None => None
  | Some (success, theSampler) =>
  match test_4 fuel success theSampler with
  | None => None
  | Some (success, theSampler) =>
  match test_5 fuel success theSampler with
  | None => None
  | Some (success, _) => Some (if success then 0 else 1)
  end end end end end.

End Callers.

Arguments py_apply {Rng} rng_seed uniform_real sinf fuel c s.
Arguments py_session {Rng} rng_seed uniform_real sinf fuel calls s.
Arguments py_import {Rng} rng_seed uniform_real sinf fuel calls.
Arguments test_1_loop {Rng} uniform_real sinf fuel n i s maxValue minValue.
Arguments test_1 {Rng} uniform_real sinf fuel success s.
Arguments test_2 {Rng} rng_seed uniform_real sinf fuel success s.
Arguments test_3 {Rng} rng_seed uniform_real sinf fuel success s.
Arguments test_4 {Rng} rng_seed uniform_real sinf fuel success s.
Arguments test_5_loop {Rng} uniform_real sinf fuel n i s.
Arguments test_5 {Rng} rng_seed uniform_real sinf fuel success s.
Arguments test_main {Rng} rng_seed uniform_real sinf fuel.

(** * Facts on binary32 arithmetic *)

Module Rounding.

(** ** Facts on rounding *)

Lemma digits2_pos_log2 (p : positive) :
  Zpos (digits2_pos p) = Z.log2 (Zpos p) + 1.
Proof.
  induction p as [p IH | p IH |]; cbn [digits2_pos].
  - rewrite Pos2Z.inj_succ, IH. change (Z.pos p~1) with (2 * Z.pos p + 1).
    rewrite Z.log2_succ_double by lia. lia.
  - rewrite Pos2Z.inj_succ, IH. change (Z.pos p~0) with (2 * Z.pos p).
    rewrite Z.log2_double by lia. lia.
  - reflexivity.
Qed.

Lemma Zdigits2_log2 (n : Z) : 0 < n -> Zdigits2 n = Z.log2 n + 1.
Proof. destruct n; try lia. intros _. apply digits2_pos_log2. Qed.

Lemma Zdigits2_bounds (n : Z) :
  0 < n -> 2 ^ (Zdigits2 n - 1) <= n < 2 ^ Zdigits2 n.
Proof.
  intros H. rewrite Zdigits2_log2 by assumption.
  replace (Z.log2 n + 1 - 1) with (Z.log2 n) by lia.
  replace (Z.log2 n + 1) with (Z.succ (Z.log2 n)) by lia.
  apply Z.log2_spec; assumption.
Qed.

Lemma Zdigits2_unique (n d : Z) :
  2 ^ (d - 1) <= n < 2 ^ d -> 0 < n -> Zdigits2 n = d.
Proof.
  intros H Hn. rewrite Zdigits2_log2 by assumption.
  assert (0 <= d - 1).
  { destruct (Z_lt_le_dec (d - 1) 0) as [Hd|Hd]; [|assumption].
    assert (d <= 0) by lia.
    destruct (Z.eq_dec d 0) as [->|].
    - simpl in H. lia.
    - rewrite (Z.pow_neg_r 2 d) in H by lia. lia. }
  rewrite (Z.log2_unique n (d - 1)); try lia.
  replace (Z.succ (d - 1)) with d by lia. lia.
Qed.

Lemma testbit_div_mod (a n : Z) :
  0 <= n -> Z.testbit a n = negb ((a / 2 ^ n) mod 2 =? 0).
Proof.
  intros Hn. pose proof (Z.testbit_spec' a n Hn) as H.
  destruct (Z.testbit a n); simpl in H; rewrite <- H; reflexivity.
Qed.

Lemma shr_record_of_loc_state (m : Z) (l : location) :
  shr_record_of_loc m l = shr_state (4 * m + loc_code l) 2.
Proof.
  unfold shr_state. rewrite testbit_div_mod by lia.
  change (2 - 1) with 1. change (2 ^ 2) with 4. change (2 ^ 1) with 2.
  assert (Hc : 0 <= loc_code l < 4) by (destruct l as [|[]]; simpl; lia).
  replace ((4 * m + loc_code l) / 4) with m by (Z.div_mod_to_equations; lia).
  destruct l as [|[]]; cbn [loc_code shr_record_of_loc]; f_equal;
    match goal with
    | |- _ = negb (?x =? 0) =>
        let H := fresh in
        destruct (Z.eqb_spec x 0) as [H|H]; cbn; try reflexivity;
        exfalso; revert H; Z.div_mod_to_equations; lia
    end.
Qed.

Lemma shr_1_div2 (m : Z) (r s : bool) :
  0 <= m ->
  shr_1 (Build_shr_record m r s) =
  Build_shr_record (m / 2) (negb (m mod 2 =? 0)) (r || s).
Proof.
  intros Hm. destruct m as [|[p|p|]|]; try lia; cbn [shr_1].
  - reflexivity.
  - replace (Z.pos p~1 / 2) with (Z.pos p) by (Z.div_mod_to_equations; lia).
    replace (Z.pos p~1 mod 2) with 1 by (Z.div_mod_to_equations; lia). reflexivity.
  - replace (Z.pos p~0 / 2) with (Z.pos p) by (Z.div_mod_to_equations; lia).
    replace (Z.pos p~0 mod 2) with 0 by (Z.div_mod_to_equations; lia). reflexivity.
  - reflexivity.
Qed.

Lemma pow2_split (j : Z) : 1 <= j -> 2 ^ j = 2 ^ (j - 1) * 2.
Proof.
  intros Hj. replace j with (Z.succ (j - 1)) at 1 by lia.
  rewrite Z.pow_succ_r by lia. ring.
Qed.

Lemma shr_1_state (M j : Z) :
  0 <= M -> 1 <= j -> shr_1 (shr_state M j) = shr_state M (j + 1).
Proof.
  intros HM Hj. unfold shr_state.
  rewrite shr_1_div2 by (apply Z.div_pos; [lia | apply Z.pow_pos_nonneg; lia]).
  replace (j + 1 - 1) with j by lia.
  rewrite (testbit_div_mod M j) by lia.
  rewrite (testbit_div_mod M (j - 1)) by lia.
  f_equal.
  - rewrite Z.pow_add_r by lia. rewrite Z.div_div by (try apply Z.pow_pos_nonneg; lia).
    reflexivity.
  - rewrite (pow2_split j Hj).
    assert (Hp : 0 < 2 ^ (j - 1)) by (apply Z.pow_pos_nonneg; lia).
    rewrite Z.rem_mul_r by lia.
    pose proof (Z.mod_pos_bound M (2 ^ (j - 1)) Hp).
    pose proof (Z.mod_pos_bound (M / 2 ^ (j - 1)) 2 ltac:(lia)).
    destruct (Z.eqb_spec ((M / 2 ^ (j - 1)) mod 2) 0) as [E|E];
      destruct (Z.eqb_spec (M mod 2 ^ (j - 1)) 0) as [E'|E']; cbn;
      match goal with |- _ = negb (?x =? 0) => destruct (Z.eqb_spec x 0) end;
      try reflexivity; exfalso; nia.
Qed.

Lemma iter_shr_1_state (p : positive) (M j : Z) :
  0 <= M -> 1 <= j ->
  iter_pos shr_1 p (shr_state M j) = shr_state M (j + Zpos p).
Proof.
  intros HM. revert j.
  induction p as [p IH | p IH |]; intros j Hj; cbn [iter_pos].
  - rewrite shr_1_state, IH, IH by lia. f_equal. lia.
  - rewrite IH, IH by lia. f_equal. lia.
  - apply shr_1_state; assumption.
Qed.

(** [shr] applied to a record coding [M] with two extra bits. *)
Lemma shr_state_spec (M e n : Z) :
  0 <= M ->
  shr (shr_state M 2) e n = (shr_state M (2 + Z.max 0 n), e + Z.max 0 n).
Proof.
  intros HM. destruct n as [|p|p]; cbn [shr].
  - change (Z.max 0 0) with 0. rewrite !Z.add_0_r. reflexivity.
  - rewrite iter_shr_1_state by lia. replace (Z.max 0 (Z.pos p)) with (Z.pos p) by lia.
    reflexivity.
  - replace (Z.max 0 (Z.neg p)) with 0 by lia. rewrite !Z.add_0_r. reflexivity.
Qed.

Lemma round_state (M j : Z) :
  0 <= M -> 1 <= j ->
  round_nearest_even (shr_m (shr_state M j)) (loc_of_shr_record (shr_state M j)) =
  rne M j.
Proof.
  intros HM Hj. unfold shr_state, rne. cbn [shr_m loc_of_shr_record].
  rewrite (testbit_div_mod M (j - 1)) by lia.
  assert (Hp : 0 < 2 ^ (j - 1)) by (apply Z.pow_pos_nonneg; lia).
  rewrite (pow2_split j Hj). rewrite Z.rem_mul_r by lia.
  pose proof (Z.mod_pos_bound M (2 ^ (j - 1)) Hp).
  pose proof (Z.mod_pos_bound (M / 2 ^ (j - 1)) 2 ltac:(lia)).
  destruct (Z.eqb_spec ((M / 2 ^ (j - 1)) mod 2) 0) as [E|E];
    destruct (Z.eqb_spec (M mod 2 ^ (j - 1)) 0) as [E'|E']; cbn [negb round_nearest_even];
    match goal with |- _ = match ?a ?= ?b with _ => _ end =>
      destruct (Z.compare_spec a b) end; try reflexivity; exfalso; nia.
Qed.

Lemma pow2_pos (k : Z) : 0 <= k -> 0 < 2 ^ k.
Proof. intros. apply Z.pow_pos_nonneg; lia. Qed.

Lemma rne_cases (M k : Z) :
  0 <= k ->
  (rne M k = M / 2 ^ k /\ 2 * (M mod 2 ^ k) <= 2 ^ k) \/
  (rne M k = M / 2 ^ k + 1 /\ 2 ^ k <= 2 * (M mod 2 ^ k)).
Proof.
  intros Hk. unfold rne.
  destruct (Z.compare_spec (2 * (M mod 2 ^ k)) (2 ^ k)) as [E|E|E].
  - destruct (Z.even (M / 2 ^ k)); [left | right]; split; lia.
  - left; split; lia.
  - right; split; lia.
Qed.

Lemma rne_nonneg (M k : Z) : 0 <= M -> 0 <= k -> 0 <= rne M k.
Proof.
  intros HM Hk. pose proof (pow2_pos k Hk).
  assert (0 <= M / 2 ^ k) by (apply Z.div_pos; lia).
  destruct (rne_cases M k Hk) as [[-> _]|[-> _]]; lia.
Qed.

(** The rounded mantissa is within half a unit of the exact quotient. *)
Lemma rne_half (M k : Z) :
  0 <= k ->
  2 * M - 2 ^ k <= 2 * (rne M k * 2 ^ k) <= 2 * M + 2 ^ k.
Proof.
  intros Hk. pose proof (pow2_pos k Hk) as Hp.
  pose proof (Z.div_mod M (2 ^ k) ltac:(lia)) as HD.
  pose proof (Z.mod_pos_bound M (2 ^ k) Hp).
  destruct (rne_cases M k Hk) as [[-> ?]|[-> ?]]; nia.
Qed.

Lemma rne_exact (M k : Z) :
  0 <= k -> M mod 2 ^ k = 0 -> rne M k = M / 2 ^ k.
Proof.
  intros Hk E. unfold rne. rewrite E. pose proof (pow2_pos k Hk).
  destruct (Z.compare_spec (2 * 0) (2 ^ k)); try lia.
Qed.

Lemma rne_0 (M : Z) : rne M 0 = M.
Proof. rewrite rne_exact by (try apply Z.mod_1_r; lia). try apply Z.div_1_r. Qed.

Lemma rne_scale (M a k : Z) :
  0 <= a -> 0 <= k -> rne (M * 2 ^ a) (k + a) = rne M k.
Proof.
  intros Ha Hk. unfold rne.
  pose proof (pow2_pos a Ha). pose proof (pow2_pos k Hk).
  rewrite Z.pow_add_r by lia.
  rewrite Z.div_mul_cancel_r by lia.
  rewrite Z.mul_mod_distr_r by lia.
  replace (2 * (M mod 2 ^ k * 2 ^ a) ?= 2 ^ k * 2 ^ a)
    with (2 * (M mod 2 ^ k) ?= 2 ^ k).
  - reflexivity.
  - destruct (Z.compare_spec (2 * (M mod 2 ^ k)) (2 ^ k));
      symmetry; [apply Z.compare_eq_iff | apply Z.compare_lt_iff | apply Z.compare_gt_iff]; nia.
Qed.

(** Rounding of a mantissa that carries a location in two extra bits. *)
Lemma rne_coded_cases (M c k : Z) :
  0 <= k -> 0 <= c < 4 ->
  rne (4 * M + c) (k + 2) = M / 2 ^ k \/ rne (4 * M + c) (k + 2) = M / 2 ^ k + 1.
Proof.
  intros Hk Hc. pose proof (pow2_pos k Hk).
  assert (E : (4 * M + c) / 2 ^ (k + 2) = M / 2 ^ k).
  { rewrite Z.pow_add_r by lia. change (2 ^ 2) with 4.
    rewrite (Z.mul_comm (2 ^ k) 4), <- Z.div_div by lia.
    f_equal. Z.div_mod_to_equations; lia. }
  destruct (rne_cases (4 * M + c) (k + 2) ltac:(lia)) as [[-> _]|[-> _]]; rewrite E; auto.
Qed.

Lemma rne_coded_exact (M k : Z) :
  0 <= k -> rne (4 * M + 0) (k + 2) = rne M k.
Proof.
  intros Hk. rewrite Z.add_0_r, (Z.mul_comm 4 M). change 4 with (2 ^ 2).
  apply rne_scale; lia.
Qed.

Lemma fexp_32 (z : Z) : fexp 24 128 z = fexp32 z.
Proof. reflexivity. Qed.

Lemma shr_fexp_spec (M e : Z) (l : location) :
  0 <= M ->
  shr_fexp 24 128 M e l =
  (shr_state (4 * M + loc_code l) (2 + round_shift M e), e + round_shift M e).
Proof.
  intros HM. unfold shr_fexp. rewrite shr_record_of_loc_state, fexp_32.
  apply shr_state_spec. destruct l as [|[]]; cbn [loc_code]; lia.
Qed.

Lemma binary_round_aux_spec (s : bool) (M e : Z) (l : location) :
  0 <= M ->
  binary_round_aux 24 128 s M e l =
  pack s (rne (4 * M + loc_code l) (round_shift M e + 2)) (e + round_shift M e).
Proof.
  intros HM. unfold binary_round_aux.
  rewrite shr_fexp_spec by assumption.
  assert (Hk : 0 <= round_shift M e) by (unfold round_shift; lia).
  assert (Hc : 0 <= loc_code l < 4) by (destruct l as [|[]]; simpl; lia).
  rewrite round_state by lia.
  replace (2 + round_shift M e) with (round_shift M e + 2) by lia.
  set (N := rne (4 * M + loc_code l) (round_shift M e + 2)).
  assert (HN : 0 <= N) by (apply rne_nonneg; lia).
  rewrite shr_fexp_spec by assumption.
  unfold pack. cbn [shr_m shr_state loc_code].
  set (k2 := round_shift N (e + round_shift M e)).
  assert (Hk2 : 0 <= k2) by (unfold k2, round_shift; lia).
  replace ((4 * N + 0) / 2 ^ (2 + k2)) with (N / 2 ^ k2).
  - reflexivity.
  - pose proof (pow2_pos k2 Hk2). rewrite Z.pow_add_r by lia. change (2 ^ 2) with 4.
    rewrite <- Z.div_div by lia. f_equal. Z.div_mod_to_equations; lia.
Qed.

Lemma valid_finite_iff (s : bool) (m : positive) (e : Z) :
  valid (S754_finite s m e) = true <->
  fexp32 (Zdigits2 (Zpos m) + e) = e /\ e <= 104.
Proof.
  unfold valid, valid_binary, bounded, canonical_mantissa.
  rewrite fexp_32, andb_true_iff, Z.eqb_eq, Z.leb_le. reflexivity.
Qed.

(** A canonical mantissa: 24 digits, or fewer at the least exponent. *)
Lemma fexp32_canonical (d e : Z) :
  fexp32 (d + e) = e <-> -149 <= e /\ d <= 24 /\ (-149 < e -> d = 24).
Proof. unfold fexp32. lia. Qed.

Lemma div_pow2_lt (M k d : Z) :
  0 <= k -> 0 <= d -> 0 <= M < 2 ^ (k + d) -> M / 2 ^ k < 2 ^ d.
Proof.
  intros Hk Hd HM. apply Z.div_lt_upper_bound; [apply pow2_pos; lia|].
  rewrite <- Z.pow_add_r by lia. lia.
Qed.

Lemma div_pow2_ge (M k d : Z) :
  0 <= k -> 0 <= d -> 2 ^ (k + d) <= M -> 2 ^ d <= M / 2 ^ k.
Proof.
  intros Hk Hd HM. apply Z.div_le_lower_bound; [apply pow2_pos; lia|].
  rewrite <- Z.pow_add_r by lia. lia.
Qed.

Lemma pow2_le (a b : Z) : 0 <= a <= b -> 2 ^ a <= 2 ^ b.
Proof. intros. apply Z.pow_le_mono_r; lia. Qed.

Lemma pow2_lt (a b : Z) : 0 <= a < b -> 2 ^ a < 2 ^ b.
Proof. intros. apply Z.pow_lt_mono_r; lia. Qed.

(** The first rounding stage leaves a mantissa of at most 24 digits (or
    [2 ^ 24] after a carry) at a canonical exponent. *)
Lemma round_stage (M e c : Z) :
  0 <= M -> (M = 0 -> e <= -149) ->
  0 <= c < 4 -> e <= fexp32 (Zdigits2 M + e) ->
  let k := round_shift M e in
  let N := rne (4 * M + c) (k + 2) in
  e + k = fexp32 (Zdigits2 M + e) /\
  0 <= k /\
  M / 2 ^ k <= N <= M / 2 ^ k + 1 /\
  N <= 2 ^ 24 /\
  (-149 < e + k -> 2 ^ 23 <= N).
Proof.
  intros HM HM0 Hc He k N.
  assert (Hk : e + k = fexp32 (Zdigits2 M + e)) by (unfold k, round_shift; lia).
  assert (Hk0 : 0 <= k) by (unfold k, round_shift; lia).
  assert (HN : N = M / 2 ^ k \/ N = M / 2 ^ k + 1) by (apply rne_coded_cases; lia).
  destruct (Z.eq_dec M 0) as [E0|N0].
  { subst M. specialize (HM0 eq_refl). change (Zdigits2 0) with 0 in Hk.
    rewrite Z.div_0_l in * by (pose proof (pow2_pos k Hk0); lia).
    pose proof Hk as Hk'. unfold fexp32 in Hk'. repeat split; try assumption; lia. }
  assert (HM' : 0 < M) by lia.
  pose proof (Zdigits2_bounds M HM') as [Hlo Hhi].
  assert (Hd : 0 < Zdigits2 M) by (rewrite Zdigits2_log2 by lia; pose proof (Z.log2_nonneg M); lia).
  assert (Hq : M / 2 ^ k < 2 ^ 24).
  { apply div_pow2_lt; try lia. split; [lia|].
    eapply Z.lt_le_trans; [exact Hhi|]. apply pow2_le. unfold fexp32 in Hk. lia. }
  assert (Hq0 : 0 <= M / 2 ^ k) by (apply Z.div_pos; [lia | apply pow2_pos; lia]).
  repeat split; try lia.
  intros Hn. assert (2 ^ 23 <= M / 2 ^ k); [|lia].
  apply div_pow2_ge; try lia.
  eapply Z.le_trans; [|exact Hlo]. apply pow2_le. unfold fexp32 in Hk. lia.
Qed.

(** What [pack] builds from a mantissa at a canonical exponent. *)
Lemma pack_spec (s : bool) (N E : Z) :
  0 <= N <= 2 ^ 24 -> -149 <= E -> (-149 < E -> 2 ^ 23 <= N) ->
  (N * 2 ^ (E + 149) < 2 ^ 277 ->
     valid (pack s N E) = true /\ is_finite (pack s N E) = true /\
     Fnum (pack s N E) = cond_Zopp s (N * 2 ^ (E + 149))) /\
  (2 ^ 277 <= N * 2 ^ (E + 149) -> pack s N E = S754_infinity s).
Proof.
  intros HN HE Hcan.
  destruct (Z.eq_dec N 0) as [->|N0].
  { unfold pack. rewrite Z.div_0_l by (pose proof (pow2_pos (round_shift 0 E)); unfold round_shift in *; lia).
    split; [intros _; repeat split; cbn; destruct s; reflexivity | cbn; lia]. }
  assert (Hov : E <= 104 <-> N * 2 ^ (E + 149) < 2 ^ 277 \/ N = 2 ^ 24 /\ E = 104).
  { pose proof (pow2_pos (E + 149) ltac:(lia)).
    split.
    - intros H104. destruct (Z.eq_dec N (2 ^ 24)) as [->|]; [destruct (Z.eq_dec E 104); [right; lia|left]|left].
      + rewrite <- Z.pow_add_r by lia. apply pow2_lt. lia.
      + apply Z.lt_le_trans with (2 ^ 24 * 2 ^ (E + 149)); [nia|].
        rewrite <- Z.pow_add_r by lia. apply pow2_le. lia.
    - intros [Hlt|[_ ->]]; [|lia].
      destruct (Z_le_gt_dec E 104); [assumption|exfalso].
      assert (2 ^ 23 <= N) by (apply Hcan; lia).
      assert (2 ^ 277 <= 2 ^ 23 * 2 ^ (E + 149)); [|nia].
      rewrite <- Z.pow_add_r by lia. apply pow2_le. lia. }
  destruct (Z.eq_dec N (2 ^ 24)) as [EN|NN].
  - (* a carry: renormalise to 2^23 *)
    assert (Hs : round_shift N E = 1).
    { subst N. unfold round_shift. change (Zdigits2 (2 ^ 24)) with 25. unfold fexp32. lia. }
    unfold pack. rewrite Hs. subst N. change (2 ^ 24 / 2 ^ 1) with (Z.pos 8388608).
    assert (Ev : 2 ^ 24 * 2 ^ (E + 149) = 8388608 * 2 ^ (E + 1 + 149)).
    { replace (E + 1 + 149) with (Z.succ (E + 149)) by lia. rewrite Z.pow_succ_r by lia.
      change (2 ^ 24) with 16777216. ring. }
    split.
    + intros Hlt. assert (E + 1 <= 104).
      { destruct (Z_le_gt_dec (E + 1) 104); [assumption|exfalso].
        assert (2 ^ 277 <= 2 ^ 24 * 2 ^ (E + 149)); [|lia].
        rewrite <- Z.pow_add_r by lia. apply pow2_le. lia. }
      replace (E + 1 <=? 104) with true by (symmetry; apply Z.leb_le; lia).
      repeat split.
      * apply valid_finite_iff. split; [|lia].
        change (Zdigits2 8388608) with 24. unfold fexp32. lia.
      * cbn [Fnum]. rewrite Ev. reflexivity.
    + intros Hge. replace (E + 1 <=? 104) with false; [reflexivity|].
      symmetry. apply Z.leb_gt.
      destruct (Z_le_gt_dec (E + 1) 104); [exfalso|lia].
      assert (2 ^ 24 * 2 ^ (E + 149) < 2 ^ 277); [|lia].
      rewrite <- Z.pow_add_r by lia. apply pow2_lt. lia.
  - assert (HdN : Zdigits2 N <= 24).
    { pose proof (Zdigits2_bounds N ltac:(lia)) as [Hlo _].
      destruct (Z_le_gt_dec (Zdigits2 N) 24); [assumption|exfalso].
      assert (2 ^ 24 <= 2 ^ (Zdigits2 N - 1)) by (apply pow2_le; lia). lia. }
    assert (HdN' : -149 < E -> Zdigits2 N = 24).
    { intros HE'. apply Zdigits2_unique; [|lia]. change (24 - 1) with 23. split; [auto|lia]. }
    assert (Hs : round_shift N E = 0) by (unfold round_shift, fexp32; lia).
    unfold pack. rewrite Hs, Z.add_0_r. change (2 ^ 0) with 1. rewrite Z.div_1_r.
    destruct N as [|m|m]; try lia.
    split.
    + intros Hlt. replace (E <=? 104) with true by (symmetry; apply Z.leb_le; apply Hov; auto).
      repeat split.
      apply valid_finite_iff. split; [|apply Hov; auto].
      apply fexp32_canonical. lia.
    + intros Hge. replace (E <=? 104) with false; [reflexivity|].
      symmetry. apply Z.leb_gt. destruct (Z_le_gt_dec E 104) as [H|H]; [|lia].
      apply Hov in H. lia.
Qed.

Lemma round_aux_value (s : bool) (M e : Z) (l : location) :
  0 <= M -> (M = 0 -> e <= -149) -> e <= fexp32 (Zdigits2 M + e) ->
  let k := round_shift M e in
  let N := rne (4 * M + loc_code l) (k + 2) in
  (N * 2 ^ (e + k + 149) < 2 ^ 277 ->
     valid (binary_round_aux 24 128 s M e l) = true /\
     is_finite (binary_round_aux 24 128 s M e l) = true /\
     Fnum (binary_round_aux 24 128 s M e l) = cond_Zopp s (N * 2 ^ (e + k + 149))) /\
  (2 ^ 277 <= N * 2 ^ (e + k + 149) ->
     binary_round_aux 24 128 s M e l = S754_infinity s).
Proof.
  intros HM HM0 He k N.
  assert (Hc : 0 <= loc_code l < 4) by (destruct l as [|[]]; cbn [loc_code]; lia).
  destruct (round_stage M e (loc_code l) HM HM0 Hc He) as (Hk & Hk0 & HN & HN24 & Hcan).
  fold k in Hk, Hk0, HN, Hcan. fold N in HN, Hcan. change (N <= 2 ^ 24) in HN24.
  rewrite binary_round_aux_spec by lia. fold k. fold N.
  assert (0 <= M / 2 ^ k) by (apply Z.div_pos; [lia | apply pow2_pos; lia]).
  apply pack_spec; try lia. unfold fexp32 in Hk. lia.
Qed.

Lemma iter_xO_pow2 (m d : positive) :
  Zpos (Pos.iter xO m d) = Zpos m * 2 ^ Zpos d.
Proof.
  induction d as [|d IH] using Pos.peano_ind.
  - cbn. lia.
  - rewrite Pos.iter_succ, Pos2Z.inj_xO, IH, Pos2Z.inj_succ, Z.pow_succ_r by lia. ring.
Qed.

Lemma shl_align_spec (m : positive) (e e' : Z) :
  Zpos (fst (shl_align m e e')) = Zpos m * 2 ^ Z.max 0 (e - e') /\
  snd (shl_align m e e') = Z.min e e'.
Proof.
  unfold shl_align. destruct (e' - e) as [|d|d] eqn:E; cbn [fst snd].
  - replace (Z.max 0 (e - e')) with 0 by lia. change (2 ^ 0) with 1. lia.
  - replace (Z.max 0 (e - e')) with 0 by lia. change (2 ^ 0) with 1. lia.
  - rewrite iter_xO_pow2. replace (Z.max 0 (e - e')) with (Z.pos d) by lia. lia.
Qed.

Lemma Zdigits2_mul_pow2 (M a : Z) :
  0 < M -> 0 <= a -> Zdigits2 (M * 2 ^ a) = Zdigits2 M + a.
Proof.
  intros HM Ha. pose proof (pow2_pos a Ha).
  rewrite !Zdigits2_log2 by nia.
  rewrite Z.log2_mul_pow2 by lia. lia.
Qed.

Lemma binary_round_value (s : bool) (m : positive) (e : Z) :
  -149 <= e ->
  let n := Zpos m * 2 ^ (e + 149) in
  (rnd_pos n < 2 ^ 277 ->
     valid (binary_round 24 128 s m e) = true /\
     is_finite (binary_round 24 128 s m e) = true /\
     Fnum (binary_round 24 128 s m e) = cond_Zopp s (rnd_pos n)) /\
  (2 ^ 277 <= rnd_pos n -> binary_round 24 128 s m e = S754_infinity s).
Proof.
  intros He n. unfold binary_round. rewrite fexp_32.
  change (Z.pos (digits2_pos m)) with (Zdigits2 (Zpos m)).
  set (F := fexp32 (Zdigits2 (Z.pos m) + e)).
  destruct (shl_align_spec m e F) as [Hm He'].
  destruct (shl_align m e F) as [mz ez]. cbn [fst snd] in Hm, He'.
  assert (Ha : 0 <= Z.max 0 (e - F)) by lia.
  assert (Hd : Zdigits2 (Z.pos mz) + ez = Zdigits2 (Z.pos m) + e).
  { rewrite Hm, Zdigits2_mul_pow2 by lia. lia. }
  assert (HF : -149 <= F) by (unfold F, fexp32; lia).
  assert (Hks : round_shift (Z.pos mz) ez = F - ez).
  { unfold round_shift. rewrite Hd. fold F. lia. }
  assert (Hn : n = Z.pos mz * 2 ^ (ez + 149)).
  { unfold n. rewrite Hm, <- Z.mul_assoc, <- Z.pow_add_r by lia. do 2 f_equal. lia. }
  assert (Hu : ulp_shift n = F + 149).
  { unfold ulp_shift, n. rewrite Zdigits2_mul_pow2 by lia. unfold F, fexp32. lia. }
  assert (Hr : rnd_pos n =
               rne (4 * Z.pos mz + loc_code loc_Exact) (round_shift (Z.pos mz) ez + 2)
               * 2 ^ (ez + round_shift (Z.pos mz) ez + 149)).
  { unfold rnd_pos. rewrite Hu. cbn [loc_code]. rewrite rne_coded_exact by lia.
    rewrite Hks. replace (ez + (F - ez) + 149) with (F + 149) by lia. f_equal.
    rewrite Hn. replace (F + 149) with (F - ez + (ez + 149)) by lia.
    apply rne_scale; lia. }
  rewrite Hr. apply round_aux_value; [lia|lia|]. rewrite Hd. fold F. lia.
Qed.

Lemma rnd_pos_nonneg (n : Z) : 0 <= n -> 0 <= rnd_pos n.
Proof.
  intros Hn. unfold rnd_pos.
  assert (0 <= ulp_shift n) by (unfold ulp_shift; lia).
  pose proof (rne_nonneg n (ulp_shift n) Hn ltac:(lia)).
  pose proof (pow2_pos (ulp_shift n) ltac:(lia)). nia.
Qed.

Lemma rnd_of_pos (n : Z) : 0 < n -> rnd n = rnd_pos n.
Proof. destruct n; try lia. reflexivity. Qed.

Lemma rnd_of_neg (n : Z) : n < 0 -> rnd n = - rnd_pos (- n).
Proof. destruct n; try lia. reflexivity. Qed.

Lemma binary_normalize_value (M e : Z) :
  -149 <= e ->
  let n := M * 2 ^ (e + 149) in
  (Z.abs (rnd n) < 2 ^ 277 ->
     valid (binary_normalize 24 128 M e false) = true /\
     is_finite (binary_normalize 24 128 M e false) = true /\
     Fnum (binary_normalize 24 128 M e false) = rnd n) /\
  (2 ^ 277 <= Z.abs (rnd n) ->
     binary_normalize 24 128 M e false = S754_infinity (M <? 0)).
Proof.
  intros He n. pose proof (pow2_pos (e + 149) ltac:(lia)) as Hp.
  destruct M as [|m|m]; cbn [binary_normalize].
  - unfold n. cbn. split; [intros _; repeat split | lia].
  - assert (Hn : 0 < n) by (unfold n; lia).
    rewrite (rnd_of_pos n Hn). pose proof (rnd_pos_nonneg n ltac:(lia)).
    rewrite Z.abs_eq by lia.
    destruct (binary_round_value false m e He) as [H1 H2]. fold n in H1, H2.
    split; [intros Hlt; destruct (H1 Hlt) as (? & ? & ->); auto | exact H2].
  - assert (Hn : n < 0) by (unfold n; lia).
    assert (En : - n = Z.pos m * 2 ^ (e + 149)) by (unfold n; lia).
    rewrite (rnd_of_neg n Hn), En.
    pose proof (rnd_pos_nonneg (Z.pos m * 2 ^ (e + 149)) ltac:(lia)).
    rewrite Z.abs_neq by lia. rewrite Z.opp_involutive.
    destruct (binary_round_value true m e He) as [H1 H2].
    split; [intros Hlt; destruct (H1 Hlt) as (? & ? & ->); auto | exact H2].
Qed.

(** A value a [float] holds is its own rounding. *)
Lemma rnd_pos_canonical (m : positive) (e : Z) :
  valid (S754_finite false m e) = true ->
  rnd_pos (Zpos m * 2 ^ (e + 149)) = Zpos m * 2 ^ (e + 149).
Proof.
  intros Hv. apply valid_finite_iff in Hv. destruct Hv as [Hc _].
  assert (He : -149 <= e) by (unfold fexp32 in Hc; lia).
  unfold rnd_pos.
  assert (Hu : ulp_shift (Z.pos m * 2 ^ (e + 149)) = e + 149).
  { unfold ulp_shift. rewrite Zdigits2_mul_pow2 by lia. unfold fexp32 in Hc. lia. }
  rewrite Hu. replace (e + 149) with (0 + (e + 149)) at 2 by lia.
  rewrite rne_scale, rne_0 by lia. reflexivity.
Qed.

Lemma rnd_Fnum (x : spec_float) : valid x = true -> rnd (Fnum x) = Fnum x.
Proof.
  destruct x as [s|s| |s m e]; try reflexivity.
  intros Hv. assert (Hv' : valid (S754_finite false m e) = true) by exact Hv.
  pose proof (rnd_pos_canonical m e Hv') as Hr.
  apply valid_finite_iff in Hv. destruct Hv as [Hc _].
  assert (He : -149 <= e) by (unfold fexp32 in Hc; lia).
  pose proof (pow2_pos (e + 149) ltac:(lia)).
  cbn [Fnum]. destruct s; cbn [cond_Zopp].
  - rewrite rnd_of_neg by lia. rewrite Z.opp_involutive, Hr. reflexivity.
  - rewrite rnd_of_pos by lia. exact Hr.
Qed.

Lemma valid_exponent (s : bool) (m : positive) (e : Z) :
  valid (S754_finite s m e) = true -> -149 <= e <= 104.
Proof. intros H. apply valid_finite_iff in H. unfold fexp32 in H. lia. Qed.

Lemma aligned_Fnum (s : bool) (m : positive) (e ez : Z) :
  -149 <= ez <= e ->
  cond_Zopp s (Zpos (fst (shl_align m e ez))) * 2 ^ (ez + 149) =
  Fnum (S754_finite s m e).
Proof.
  intros H. destruct (shl_align_spec m e ez) as [-> _].
  replace (Z.max 0 (e - ez)) with (e - ez) by lia. cbn [Fnum].
  replace (e + 149) with (e - ez + (ez + 149)) by lia.
  rewrite (Z.pow_add_r 2 (e - ez) (ez + 149)) by lia. destruct s; cbn [cond_Zopp]; ring.
Qed.

Lemma fadd_value (x y : spec_float) :
  valid x = true -> valid y = true -> is_finite x = true -> is_finite y = true ->
  Z.abs (rnd (Fnum x + Fnum y)) < 2 ^ 277 ->
  valid (fadd x y) = true /\ is_finite (fadd x y) = true /\
  Fnum (fadd x y) = rnd (Fnum x + Fnum y).
Proof.
  intros Vx Vy Fx Fy.
  destruct x as [sx|sx| |sx mx ex]; try discriminate;
    destruct y as [sy|sy| |sy my ey]; try discriminate.
  - intros _. destruct sx, sy; repeat split.
  - intros _. cbn [fadd SFadd]. rewrite Z.add_0_l, rnd_Fnum by assumption. auto.
  - intros _. cbn [fadd SFadd]. change (Fnum (S754_zero sy)) with 0.
    rewrite Z.add_0_r, rnd_Fnum by assumption. auto.
  - pose proof (valid_exponent _ _ _ Vx). pose proof (valid_exponent _ _ _ Vy).
    unfold fadd, SFadd. set (ez := Z.min ex ey).
    set (M := cond_Zopp sx (Z.pos (fst (shl_align mx ex ez)))
              + cond_Zopp sy (Z.pos (fst (shl_align my ey ez)))).
    assert (E : M * 2 ^ (ez + 149) =
                Fnum (S754_finite sx mx ex) + Fnum (S754_finite sy my ey)).
    { unfold M. rewrite Z.mul_add_distr_r, !aligned_Fnum by (unfold ez; lia). reflexivity. }
    rewrite <- E. intros Hlt.
    apply (binary_normalize_value M ez); [unfold ez; lia | exact Hlt].
Qed.

Lemma fsub_value (x y : spec_float) :
  valid x = true -> valid y = true -> is_finite x = true -> is_finite y = true ->
  Z.abs (rnd (Fnum x - Fnum y)) < 2 ^ 277 ->
  valid (fsub x y) = true /\ is_finite (fsub x y) = true /\
  Fnum (fsub x y) = rnd (Fnum x - Fnum y).
Proof.
  intros Vx Vy Fx Fy.
  destruct x as [sx|sx| |sx mx ex]; try discriminate;
    destruct y as [sy|sy| |sy my ey]; try discriminate.
  - intros _. destruct sx, sy; repeat split.
  - intros _. cbn [fsub SFsub].
    assert (Vy' : valid (S754_finite (negb sy) my ey) = true) by exact Vy.
    assert (En : Fnum (S754_zero sx) - Fnum (S754_finite sy my ey)
                 = Fnum (S754_finite (negb sy) my ey))
      by (cbn [Fnum]; destruct sy; cbn [negb cond_Zopp]; lia).
    rewrite En, rnd_Fnum by assumption. auto.
  - intros _. cbn [fsub SFsub]. change (Fnum (S754_zero sy)) with 0.
    rewrite Z.sub_0_r, rnd_Fnum by assumption. auto.
  - pose proof (valid_exponent _ _ _ Vx). pose proof (valid_exponent _ _ _ Vy).
    unfold fsub, SFsub. set (ez := Z.min ex ey).
    set (M := cond_Zopp sx (Z.pos (fst (shl_align mx ex ez)))
              - cond_Zopp sy (Z.pos (fst (shl_align my ey ez)))).
    assert (E : M * 2 ^ (ez + 149) =
                Fnum (S754_finite sx mx ex) - Fnum (S754_finite sy my ey)).
    { unfold M. rewrite Z.mul_sub_distr_r, !aligned_Fnum by (unfold ez; lia). reflexivity. }
    rewrite <- E. intros Hlt.
    apply (binary_normalize_value M ez); [unfold ez; lia | exact Hlt].
Qed.

Lemma canonical_exp_lt (m1 m2 : positive) (e1 e2 : Z) :
  valid (S754_finite false m1 e1) = true ->
  valid (S754_finite false m2 e2) = true ->
  e1 < e2 ->
  Zpos m1 * 2 ^ (e1 + 149) < Zpos m2 * 2 ^ (e2 + 149).
Proof.
  intros V1 V2 Hlt.
  apply valid_finite_iff in V1. apply valid_finite_iff in V2.
  destruct V1 as [C1 _]. destruct V2 as [C2 _].
  apply fexp32_canonical in C1. apply fexp32_canonical in C2.
  pose proof (Zdigits2_bounds (Zpos m1) ltac:(lia)) as [_ H1].
  pose proof (Zdigits2_bounds (Zpos m2) ltac:(lia)) as [H2 _].
  assert (D2 : Zdigits2 (Z.pos m2) = 24) by lia. rewrite D2 in H2.
  assert (H1' : Z.pos m1 < 2 ^ 24).
  { eapply Z.lt_le_trans; [exact H1|]. apply pow2_le.
    pose proof (Zdigits2_log2 (Zpos m1) ltac:(lia)). pose proof (Z.log2_nonneg (Zpos m1)). lia. }
  replace (e2 + 149) with (e2 - e1 - 1 + 1 + (e1 + 149)) by lia.
  rewrite (Z.pow_add_r 2 (e2 - e1 - 1 + 1) (e1 + 149)), (Z.pow_add_r 2 (e2 - e1 - 1) 1) by lia.
  pose proof (pow2_pos (e1 + 149) ltac:(lia)).
  pose proof (pow2_pos (e2 - e1 - 1) ltac:(lia)).
  change (24 - 1) with 23 in H2. change (2 ^ 1) with 2.
  change (2 ^ 23) with 8388608 in H2. change (2 ^ 24) with 16777216 in H1'.
  rewrite Z.mul_assoc. apply Z.mul_lt_mono_pos_r; [assumption | nia].
Qed.

Lemma compare_scaled (a b c : Z) : 0 < c -> (a * c ?= b * c) = (a ?= b).
Proof.
  intros Hc. destruct (Z.compare_spec a b);
    [apply Z.compare_eq_iff | apply Z.compare_lt_iff | apply Z.compare_gt_iff]; nia.
Qed.

Lemma compare_pos_finite (m1 m2 : positive) (e1 e2 : Z) :
  valid (S754_finite false m1 e1) = true ->
  valid (S754_finite false m2 e2) = true ->
  match e1 ?= e2 with
  | Lt => Lt
  | Gt => Gt
  | Eq => Pos.compare_cont Eq m1 m2
  end = (Zpos m1 * 2 ^ (e1 + 149) ?= Zpos m2 * 2 ^ (e2 + 149)).
Proof.
  intros V1 V2. destruct (Z.compare_spec e1 e2) as [E|E|E].
  - subst e2. pose proof (valid_exponent _ _ _ V1).
    rewrite compare_scaled by (apply pow2_pos; lia). reflexivity.
  - symmetry. apply Z.compare_lt_iff. apply canonical_exp_lt; assumption.
  - symmetry. apply Z.compare_gt_iff. apply canonical_exp_lt; assumption.
Qed.

Lemma SFcompare_Fnum (x y : spec_float) :
  valid x = true -> valid y = true -> is_finite x = true -> is_finite y = true ->
  SFcompare x y = Some (Fnum x ?= Fnum y).
Proof.
  intros Vx Vy Fx Fy.
  destruct x as [sx|sx| |sx mx ex]; try discriminate;
    destruct y as [sy|sy| |sy my ey]; try discriminate.
  - reflexivity.
  - pose proof (valid_exponent _ _ _ Vy). pose proof (pow2_pos (ey + 149) ltac:(lia)).
    cbn [SFcompare Fnum]. f_equal. destruct sy; cbn [cond_Zopp]; symmetry;
      [apply Z.compare_gt_iff | apply Z.compare_lt_iff]; lia.
  - pose proof (valid_exponent _ _ _ Vx). pose proof (pow2_pos (ex + 149) ltac:(lia)).
    cbn [SFcompare Fnum]. f_equal. destruct sx; cbn [cond_Zopp]; symmetry;
      [apply Z.compare_lt_iff | apply Z.compare_gt_iff]; lia.
  - pose proof (valid_exponent _ _ _ Vx). pose proof (pow2_pos (ex + 149) ltac:(lia)).
    pose proof (valid_exponent _ _ _ Vy). pose proof (pow2_pos (ey + 149) ltac:(lia)).
    assert (Vx' : valid (S754_finite false mx ex) = true) by exact Vx.
    assert (Vy' : valid (S754_finite false my ey) = true) by exact Vy.
    cbn [SFcompare Fnum]. f_equal. destruct sx, sy; cbn [cond_Zopp].
    + rewrite Z.compare_opp.
      rewrite <- (compare_pos_finite my mx ey ex) by assumption.
      rewrite (Z.compare_antisym ey ex).
      destruct (ey ?= ex); cbn [CompOpp]; try reflexivity.
      rewrite Pos.compare_cont_antisym. reflexivity.
    + symmetry. apply Z.compare_lt_iff. lia.
    + symmetry. apply Z.compare_gt_iff. lia.
    + apply compare_pos_finite; assumption.
Qed.

Lemma fle_Fnum (x y : spec_float) :
  valid x = true -> valid y = true -> is_finite x = true -> is_finite y = true ->
  fle x y = (Fnum x <=? Fnum y).
Proof.
  intros. unfold fle, SFleb. rewrite SFcompare_Fnum by assumption.
  unfold Z.leb. destruct (Fnum x ?= Fnum y); reflexivity.
Qed.

Lemma flt_Fnum (x y : spec_float) :
  valid x = true -> valid y = true -> is_finite x = true -> is_finite y = true ->
  flt x y = (Fnum x <? Fnum y).
Proof.
  intros. unfold flt, SFltb. rewrite SFcompare_Fnum by assumption.
  unfold Z.ltb. destruct (Fnum x ?= Fnum y); reflexivity.
Qed.

(** ** Rounding against numbers that need no rounding *)

Lemma ulp_shift_nonneg (n : Z) : 0 <= ulp_shift n.
Proof. unfold ulp_shift. lia. Qed.

Lemma Zdigits2_le (a b : Z) : 0 < a <= b -> Zdigits2 a <= Zdigits2 b.
Proof.
  intros H. rewrite !Zdigits2_log2 by lia.
  pose proof (Z.log2_le_mono a b ltac:(lia)). lia.
Qed.

Lemma ulp_shift_le (a b : Z) : 0 < a <= b -> ulp_shift a <= ulp_shift b.
Proof. intros H. pose proof (Zdigits2_le a b H). unfold ulp_shift. lia. Qed.

Lemma pow2_divide (a b : Z) : 0 <= a <= b -> exists c, 2 ^ b = c * 2 ^ a /\ 0 < c.
Proof.
  intros H. exists (2 ^ (b - a)). split; [|apply pow2_pos; lia].
  rewrite <- Z.pow_add_r by lia. f_equal. lia.
Qed.

Lemma rnd_pos_le_repr (n f : Z) :
  0 < n <= f -> rnd_pos f = f -> rnd_pos n <= f.
Proof.
  intros Hn Hf. unfold rnd_pos in *.
  pose proof (ulp_shift_le n f Hn) as Hk.
  pose proof (ulp_shift_nonneg n) as Hk0.
  set (k := ulp_shift n) in *. set (kf := ulp_shift f) in *.
  destruct (pow2_divide k kf ltac:(lia)) as (c & Hc & Hc0).
  pose proof (pow2_pos k Hk0) as Hp.
  set (f' := rne f kf * c).
  assert (Ef : f = f' * 2 ^ k) by (unfold f'; rewrite <- Hf at 1; rewrite Hc; ring).
  pose proof (Z.div_mod n (2 ^ k) ltac:(lia)) as HD.
  pose proof (Z.mod_pos_bound n (2 ^ k) Hp) as HB.
  rewrite Ef.
  destruct (rne_cases n k Hk0) as [[-> _]|[-> Hr]].
  - apply Z.mul_le_mono_nonneg_r; [lia|].
    apply Z.div_le_upper_bound; lia.
  - apply Z.mul_le_mono_nonneg_r; [lia|].
    assert (n / 2 ^ k < f'); [|lia].
    apply Z.mul_lt_mono_pos_l with (2 ^ k); lia.
Qed.

Lemma rnd_pos_ge_repr (n f : Z) :
  0 < f <= n -> rnd_pos f = f -> f <= rnd_pos n.
Proof.
  intros Hn Hf.
  pose proof (ulp_shift_le f n Hn) as Hk.
  pose proof (ulp_shift_nonneg f) as Hk0.
  unfold rnd_pos in *.
  set (k := ulp_shift n) in *. set (kf := ulp_shift f) in *.
  pose proof (pow2_pos k ltac:(lia)) as Hp.
  pose proof (Z.div_mod n (2 ^ k) ltac:(lia)) as HD.
  pose proof (Z.mod_pos_bound n (2 ^ k) Hp) as HB.
  assert (HN : n / 2 ^ k <= rne n k)
    by (destruct (rne_cases n k ltac:(lia)) as [[-> _]|[-> _]]; lia).
  destruct (Z.eq_dec k kf) as [E|E].
  - (* same exponent: f is a multiple of the unit *)
    rewrite <- E in Hf.
    assert (rne f k <= n / 2 ^ k); [|nia].
    apply Z.div_le_lower_bound; lia.
  - (* n has more digits than f *)
    assert (Hdn : k = Zdigits2 n - 24) by (unfold k, kf, ulp_shift in *; lia).
    assert (Hdf : Zdigits2 f < Zdigits2 n) by (unfold k, kf, ulp_shift in *; lia).
    pose proof (Zdigits2_bounds n ltac:(lia)) as [Hlo _].
    pose proof (Zdigits2_bounds f ltac:(lia)) as [_ Hhi].
    assert (Hd1 : 1 <= Zdigits2 f)
      by (rewrite Zdigits2_log2 by lia; pose proof (Z.log2_nonneg f); lia).
    assert (H1 : 2 ^ Zdigits2 f <= 2 ^ (k + 23)) by (apply pow2_le; lia).
    assert (H2 : 2 ^ 23 <= n / 2 ^ k).
    { apply div_pow2_ge; try lia. replace (k + 23) with (Zdigits2 n - 1) by lia. exact Hlo. }
    rewrite Z.pow_add_r in H1 by lia. nia.
Qed.

(** The rounding error is at most half a unit in the last place. *)
Lemma rnd_pos_half (n : Z) :
  2 * n - 2 ^ ulp_shift n <= 2 * rnd_pos n <= 2 * n + 2 ^ ulp_shift n.
Proof. unfold rnd_pos. apply rne_half. apply ulp_shift_nonneg. Qed.

Lemma rnd_0 : rnd 0 = 0.
Proof. reflexivity. Qed.

Lemma rnd_pos_positive (n : Z) : 0 < n -> 0 < rnd_pos n.
Proof.
  intros Hn. pose proof (rnd_pos_half n) as [H _].
  pose proof (rnd_pos_nonneg n ltac:(lia)).
  destruct (Z.eq_dec (rnd_pos n) 0) as [E|]; [|lia].
  rewrite E in H.
  (* then 2 n <= 2^k, but n has k + 24 digits when k > 0 *)
  unfold ulp_shift in H.
  pose proof (Zdigits2_bounds n Hn) as [Hlo _].
  destruct (Z_le_gt_dec (Zdigits2 n - 24) 0) as [Hd|Hd].
  - replace (Z.max 0 (Zdigits2 n - 24)) with 0 in H by lia. change (2 ^ 0) with 1 in H.
    unfold rnd_pos, ulp_shift in E. replace (Z.max 0 (Zdigits2 n - 24)) with 0 in E by lia.
    rewrite rne_0 in E. change (2 ^ 0) with 1 in E. lia.
  - replace (Z.max 0 (Zdigits2 n - 24)) with (Zdigits2 n - 24) in H by lia.
    assert (2 ^ (Zdigits2 n - 24) < 2 ^ (Zdigits2 n - 1)) by (apply pow2_lt; lia). lia.
Qed.

Lemma rnd_sign (n : Z) : (0 < n -> 0 < rnd n) /\ (n < 0 -> rnd n < 0).
Proof.
  split; intros H.
  - rewrite rnd_of_pos by lia. apply rnd_pos_positive; lia.
  - rewrite rnd_of_neg by lia. pose proof (rnd_pos_positive (- n) ltac:(lia)). lia.
Qed.

Lemma repr_pos (f : Z) : repr f -> 0 < f -> rnd_pos f = f.
Proof. unfold repr. intros H Hf. rewrite rnd_of_pos in H by lia. exact H. Qed.

Lemma repr_neg (f : Z) : repr f -> f < 0 -> rnd_pos (- f) = - f.
Proof. unfold repr. intros H Hf. rewrite rnd_of_neg in H by lia. lia. Qed.

Lemma rnd_le_repr (n f : Z) : repr f -> n <= f -> rnd n <= f.
Proof.
  intros Hf Hn. destruct (rnd_sign n) as [Sp Sn].
  destruct (Z.lt_trichotomy n 0) as [N|[N|N]].
  - destruct (Z_lt_le_dec f 0) as [F|F].
    + rewrite rnd_of_neg by lia.
      pose proof (rnd_pos_ge_repr (- n) (- f) ltac:(lia) (repr_neg f Hf F)). lia.
    + specialize (Sn N). lia.
  - subst n. rewrite rnd_0. lia.
  - rewrite rnd_of_pos by lia. apply rnd_pos_le_repr; [lia|]. apply repr_pos; [assumption|lia].
Qed.

Lemma rnd_ge_repr (n f : Z) : repr f -> f <= n -> f <= rnd n.
Proof.
  intros Hf Hn. destruct (rnd_sign n) as [Sp Sn].
  destruct (Z.lt_trichotomy n 0) as [N|[N|N]].
  - rewrite rnd_of_neg by lia.
    pose proof (rnd_pos_le_repr (- n) (- f) ltac:(lia) (repr_neg f Hf ltac:(lia))). lia.
  - subst n. rewrite rnd_0. lia.
  - destruct (Z_lt_le_dec 0 f) as [F|F].
    + rewrite rnd_of_pos by lia. apply rnd_pos_ge_repr; [lia|]. apply repr_pos; assumption.
    + specialize (Sp N). lia.
Qed.

Lemma repr_Fnum (x : spec_float) : valid x = true -> repr (Fnum x).
Proof. apply rnd_Fnum. Qed.

(** ** Comparisons *)

Lemma SFcompare_antisym (x y : float) :
  SFcompare y x = match SFcompare x y with Some c => Some (CompOpp c) | None => None end.
Proof.
  destruct x as [sx|sx| |sx mx ex], y as [sy|sy| |sy my ey];
    try reflexivity; try (destruct sx; reflexivity); try (destruct sy; reflexivity);
    try (destruct sx, sy; reflexivity).
  cbn [SFcompare]. rewrite (Z.compare_antisym ex ey).
  change (PosDef.Pos.compare_cont Eq my mx) with (Pos.compare my mx).
  change (PosDef.Pos.compare_cont Eq mx my) with (Pos.compare mx my).
  rewrite (Pos.compare_antisym mx my).
  destruct sx, sy; try reflexivity; destruct (ex ?= ey); cbn [CompOpp];
    rewrite ?CompOpp_involutive; reflexivity.
Qed.

Lemma flt_not_fge (x y : float) : flt x y = true -> fge x y = false.
Proof.
  unfold flt, fge, SFltb, SFleb. rewrite (SFcompare_antisym x y).
  destruct (SFcompare x y) as [[]|]; cbn; congruence.
Qed.

(** A number between two finite numbers is finite. *)
Lemma between_finite (lo hi x : float) :
  is_finite lo = true -> is_finite hi = true ->
  fle lo x = true -> fle x hi = true -> is_finite x = true.
Proof.
  destruct x as [s|s| |s m e]; try reflexivity;
    destruct lo as [sl|sl| |sl ml el]; try discriminate;
    destruct hi as [sh|sh| |sh mh eh]; try discriminate;
    destruct s; cbn; congruence.
Qed.

Lemma Fnum_fpow2 (k : Z) : -126 <= k -> Fnum (fpow2 k) = units k.
Proof.
  intros Hk. unfold fpow2, units. cbn [Fnum cond_Zopp].
  change 8388608 with (2 ^ 23). rewrite <- Z.pow_add_r by lia. f_equal. lia.
Qed.

Lemma valid_fpow2 (k : Z) : -126 <= k <= 127 -> valid (fpow2 k) = true.
Proof.
  intros Hk. apply valid_finite_iff. change (Zdigits2 8388608) with 24.
  unfold fexp32. lia.
Qed.

Lemma repr_units (k : Z) : -126 <= k <= 127 -> repr (units k).
Proof. intros Hk. rewrite <- Fnum_fpow2 by lia. apply repr_Fnum, valid_fpow2, Hk. Qed.

Lemma units_pos (k : Z) : -149 <= k -> 0 < units k.
Proof. intros. apply pow2_pos. lia. Qed.

Lemma units_le (a b : Z) : -149 <= a <= b -> units a <= units b.
Proof. intros. apply pow2_le. lia. Qed.

Lemma fge_Fnum (x y : float) :
  valid x = true -> valid y = true -> is_finite x = true -> is_finite y = true ->
  fge x y = (Fnum y <=? Fnum x).
Proof. intros. unfold fge. apply (fle_Fnum y x); assumption. Qed.

(** ** The numbers [SimValue] adds *)

Lemma between_Fnum (lo hi x : float) :
  valid lo = true -> valid hi = true ->
  is_finite lo = true -> is_finite hi = true ->
  between lo hi x ->
  is_finite x = true /\ Fnum lo <= Fnum x <= Fnum hi.
Proof.
  intros Vl Vh Fl Fh (Vx & Hl & Hh).
  assert (Fx : is_finite x = true) by (apply (between_finite lo hi x); assumption).
  rewrite fle_Fnum in Hl, Hh by assumption.
  apply Z.leb_le in Hl. apply Z.leb_le in Hh. auto.
Qed.

(** Past [2 ^ 25] an addend of at most 1.5 is absorbed by the rounding. *)
Lemma rnd_absorbed (n : Z) :
  units 25 <= n <= units 25 + 3 * units (-1) -> rnd n = units 25.
Proof.
  unfold units. intros H.
  rewrite rnd_of_pos by lia. unfold rnd_pos.
  assert (Hd : Zdigits2 n = 175) by (apply Zdigits2_unique; lia).
  assert (Hu : ulp_shift n = 151) by (unfold ulp_shift; lia).
  rewrite Hu. unfold rne.
  assert (Hq : n / 2 ^ 151 = 2 ^ 23) by (Z.div_mod_to_equations; lia).
  assert (Hr : 2 * (n mod 2 ^ 151) < 2 ^ 151) by (Z.div_mod_to_equations; lia).
  rewrite Hq. apply Z.compare_lt_iff in Hr. rewrite Hr. lia.
Qed.

(** Adding a period to a cycle start of at most [2 ^ 25]. *)
Lemma start_plus_period (c p : float) :
  between f0_0 (fpow2 25) c -> between f0_5 f1_5 p ->
  between f0_0 (fpow2 25) (fadd c p) /\
  is_finite (fadd c p) = true /\
  Fnum (fadd c p) = rnd (Fnum c + Fnum p) /\
  Fnum c <= Fnum (fadd c p).
Proof.
  intros Hc Hp.
  pose proof Hc as (Vc & _). pose proof Hp as (Vp & _).
  apply between_Fnum in Hc; try reflexivity. destruct Hc as [Fc Hc].
  apply between_Fnum in Hp; try reflexivity. destruct Hp as [Fp Hp].
  change (Fnum f0_0) with 0 in Hc. rewrite (Fnum_fpow2 25) in Hc by lia.
  change (Fnum f0_5) with (units (-1)) in Hp.
  change (Fnum f1_5) with (3 * units (-1)) in Hp.
  assert (Hlo : Fnum c <= rnd (Fnum c + Fnum p)).
  { apply rnd_ge_repr; [apply repr_Fnum; assumption|]. unfold units in Hp. lia. }
  assert (Hhi : rnd (Fnum c + Fnum p) <= units 25).
  { destruct (Z_le_gt_dec (Fnum c + Fnum p) (units 25)) as [H|H].
    - apply rnd_le_repr; [apply repr_units; lia | exact H].
    - rewrite rnd_absorbed by lia. lia. }
  destruct (fadd_value c p Vc Vp Fc Fp) as (V & F & E).
  { unfold units in *. lia. }
  repeat split; try assumption; try lia.
  - rewrite fle_Fnum by (try assumption; reflexivity). apply Z.leb_le.
    change (Fnum f0_0) with 0. lia.
  - rewrite fle_Fnum by (try assumption; reflexivity). apply Z.leb_le.
    rewrite (Fnum_fpow2 25) by lia. lia.
Qed.

(** Two finite [float]s with the same non-zero value are the same. *)
Lemma Fnum_inj (x y : float) :
  valid x = true -> valid y = true -> is_finite x = true -> is_finite y = true ->
  Fnum x = Fnum y -> Fnum x <> 0 -> x = y.
Proof.
  intros Vx Vy Fx Fy E N.
  destruct x as [sx|sx| |sx mx ex]; try discriminate; [cbn in N; lia|].
  destruct y as [sy|sy| |sy my ey]; try discriminate; [cbn [Fnum] in *; congruence|].
  pose proof (valid_exponent _ _ _ Vx). pose proof (valid_exponent _ _ _ Vy).
  pose proof (pow2_pos (ex + 149) ltac:(lia)). pose proof (pow2_pos (ey + 149) ltac:(lia)).
  assert (Vx' : valid (S754_finite false mx ex) = true) by exact Vx.
  assert (Vy' : valid (S754_finite false my ey) = true) by exact Vy.
  cbn [Fnum] in E.
  assert (Es : sx = sy) by (destruct sx, sy; cbn [cond_Zopp] in E; try reflexivity; lia).
  subst sy.
  assert (Em : Z.pos mx * 2 ^ (ex + 149) = Z.pos my * 2 ^ (ey + 149))
    by (destruct sx; cbn [cond_Zopp] in E; lia).
  assert (Ee : ex = ey).
  { destruct (Z.lt_trichotomy ex ey) as [L|[L|L]]; [|assumption|].
    - pose proof (canonical_exp_lt mx my ex ey Vx' Vy' L). lia.
    - pose proof (canonical_exp_lt my mx ey ex Vy' Vx' L). lia. }
  subst ey. f_equal. apply Z.mul_cancel_r in Em; [|lia]. congruence.
Qed.

Lemma fsub_diag (x : float) : is_finite x = true -> fsub x x = S754_zero false.
Proof.
  destruct x as [s|s| |s m e]; try discriminate; intros _.
  - destruct s; reflexivity.
  - unfold fsub, SFsub. rewrite Z.sub_diag. reflexivity.
Qed.

(** A [float] that compares at least 0.5 or 0.1 has a positive sign. *)
Lemma between_positive (lo hi x : float) :
  is_finite hi = true -> 0 < Fnum lo -> valid lo = true -> is_finite lo = true ->
  between lo hi x ->
  exists m e, x = S754_finite false m e.
Proof.
  intros Fh Hlo Vl Fl Hb. pose proof Hb as (Vx & Hl & Hh).
  assert (Fx : is_finite x = true) by (apply (between_finite lo hi x); assumption).
  rewrite fle_Fnum in Hl by assumption. apply Z.leb_le in Hl.
  destruct x as [s|s| |s m e]; try discriminate; [cbn in Hl; lia|].
  pose proof (valid_exponent _ _ _ Vx). pose proof (pow2_pos (e + 149) ltac:(lia)).
  destruct s; [cbn [Fnum cond_Zopp] in Hl; lia|]. eauto.
Qed.

(** Below [2 ^ 23] an addend of at least 0.5 moves the sum by at least 0.25. *)
Lemma rnd_progress (c q : Z) :
  0 <= c -> units (-1) <= q -> c + q < units 23 ->
  c + units (-2) <= rnd (c + q).
Proof.
  unfold units. intros Hc Hq Hn.
  rewrite rnd_of_pos by lia.
  pose proof (rnd_pos_half (c + q)) as [H _].
  assert (Hd : Zdigits2 (c + q) <= 172).
  { pose proof (Zdigits2_bounds (c + q) ltac:(lia)) as [Hlo _].
    destruct (Z_le_gt_dec (Zdigits2 (c + q)) 172); [assumption|exfalso].
    assert (2 ^ 172 <= 2 ^ (Zdigits2 (c + q) - 1)) by (apply pow2_le; lia). lia. }
  assert (Hu : 2 ^ ulp_shift (c + q) <= 2 ^ 148)
    by (apply pow2_le; unfold ulp_shift; lia).
  lia.
Qed.

(** At or above [2 ^ 23] the rounded sum is at least [2 ^ 23]. *)
Lemma rnd_ge_2_23 (n : Z) : units 23 <= n -> units 23 <= rnd n.
Proof. apply rnd_ge_repr, repr_units. lia. Qed.

(** ** Rounded products and quotients against a [float] *)

Lemma stage_le (M c k f' : Z) :
  0 <= M -> 0 <= k -> 0 <= c < 4 ->
  M < f' * 2 ^ k \/ (M = f' * 2 ^ k /\ c = 0) ->
  rne (4 * M + c) (k + 2) <= f'.
Proof.
  intros HM Hk Hc [H|[H ->]]; pose proof (pow2_pos k Hk) as Hp.
  - assert (M / 2 ^ k < f') by (apply Z.div_lt_upper_bound; lia).
    destruct (rne_coded_cases M c k Hk Hc) as [-> | ->]; lia.
  - rewrite rne_coded_exact by lia. subst M.
    rewrite rne_exact by (try apply Z.mod_mul; lia).
    rewrite Z.div_mul by lia. lia.
Qed.

Lemma mantissa_bound (s : bool) (m : positive) (e : Z) :
  valid (S754_finite s m e) = true -> Zpos m < 2 ^ 24.
Proof.
  intros V. apply valid_finite_iff in V. destruct V as [C _].
  apply fexp32_canonical in C.
  pose proof (Zdigits2_bounds (Zpos m) ltac:(lia)) as [_ H].
  eapply Z.lt_le_trans; [exact H|]. apply pow2_le.
  pose proof (Zdigits2_log2 (Zpos m) ltac:(lia)). pose proof (Z.log2_nonneg (Zpos m)). lia.
Qed.

Lemma Fnum_bound (s : bool) (m : positive) (e : Z) :
  valid (S754_finite s m e) = true -> Zpos m * 2 ^ (e + 149) < 2 ^ 277.
Proof.
  intros V. pose proof (mantissa_bound s m e V). pose proof (valid_exponent s m e V).
  assert (2 ^ (e + 149) <= 2 ^ 253) by (apply pow2_le; lia).
  pose proof (pow2_pos (e + 149) ltac:(lia)).
  change (2 ^ 277) with (2 ^ 24 * 2 ^ 253). nia.
Qed.

Lemma sc_digits (m e : Z) : 0 < m -> -400 <= e -> Zdigits2 (sc m e) = Zdigits2 m + e + 400.
Proof. intros. unfold sc. rewrite Zdigits2_mul_pow2 by lia. lia. Qed.

Lemma sc_pos (m e : Z) : 0 < m -> -400 <= e -> 0 < sc m e.
Proof. intros. unfold sc. pose proof (pow2_pos (e + 400) ltac:(lia)). nia. Qed.

Lemma round_aux_le (s : bool) (M e : Z) (l : location) (mf : positive) (ef : Z) :
  0 <= M -> (M = 0 -> e <= -149) -> -400 <= e ->
  e <= fexp32 (Zdigits2 M + e) ->
  valid (S754_finite false mf ef) = true ->
  sc M e < sc (Zpos mf) ef \/ (sc M e = sc (Zpos mf) ef /\ l = loc_Exact) ->
  valid (binary_round_aux 24 128 s M e l) = true /\
  is_finite (binary_round_aux 24 128 s M e l) = true /\
  exists a, 0 <= a <= Fnum (S754_finite false mf ef) /\
            Fnum (binary_round_aux 24 128 s M e l) = cond_Zopp s a.
Proof.
  intros HM HM0 He Hr VF Hle.
  assert (Hc : 0 <= loc_code l < 4) by (destruct l as [|[]]; cbn [loc_code]; lia).
  destruct (round_stage M e (loc_code l) HM HM0 Hc Hr) as (Hk & Hk0 & HN & _ & _).
  destruct (round_aux_value s M e l HM HM0 Hr) as [Hval _].
  remember (round_shift M e) as k eqn:Ek.
  remember (rne (4 * M + loc_code l) (k + 2)) as N eqn:EN.
  pose proof (valid_exponent _ _ _ VF) as Hef.
  pose proof VF as VF'. apply valid_finite_iff in VF'. destruct VF' as [Cf _].
  (* the unit of the result divides the bound *)
  assert (HE : e + k <= ef).
  { destruct (Z.eq_dec M 0) as [->|N0].
    - change (Zdigits2 0) with 0 in Hk. specialize (HM0 eq_refl). unfold fexp32 in Hk. lia.
    - assert (Hsc : sc M e <= sc (Zpos mf) ef) by lia.
      pose proof (Zdigits2_le (sc M e) (sc (Zpos mf) ef)
                    (conj (sc_pos M e ltac:(lia) He) Hsc)) as Hd.
      rewrite !sc_digits in Hd by lia.
      rewrite Hk, <- Cf. unfold fexp32. lia. }
  remember (Zpos mf * 2 ^ (ef - (e + k))) as f' eqn:Ef'.
  assert (Hf' : sc (Zpos mf) ef = f' * 2 ^ k * 2 ^ (e + 400)).
  { unfold sc. rewrite Ef'. replace (ef + 400) with (ef - (e + k) + k + (e + 400)) by lia.
    rewrite (Z.pow_add_r 2 (ef - (e + k) + k)), (Z.pow_add_r 2 (ef - (e + k))) by lia. ring. }
  assert (Hp : 0 < 2 ^ (e + 400)) by (apply pow2_pos; lia).
  assert (HNf : N <= f').
  { rewrite EN. apply stage_le; try lia. unfold sc in Hle at 1 3. rewrite Hf' in Hle.
    destruct Hle as [H|[H ->]]; [left|right; split; [|reflexivity]]; nia. }
  assert (HN0 : 0 <= N) by (rewrite EN; apply rne_nonneg; lia).
  assert (Hk149 : -149 <= e + k) by (rewrite Hk; unfold fexp32; lia).
  assert (Hval_le : N * 2 ^ (e + k + 149) <= Z.pos mf * 2 ^ (ef + 149)).
  { replace (ef + 149) with (ef - (e + k) + (e + k + 149)) by lia.
    rewrite (Z.pow_add_r 2 (ef - (e + k)) (e + k + 149)), Z.mul_assoc by lia. rewrite <- Ef'.
    apply Z.mul_le_mono_nonneg_r; [|assumption].
    pose proof (pow2_pos (e + k + 149) ltac:(lia)). lia. }
  pose proof (Fnum_bound _ _ _ VF) as Hb.
  destruct (Hval ltac:(lia)) as (V & F & E).
  repeat split; try assumption.
  exists (N * 2 ^ (e + k + 149)). cbn [Fnum cond_Zopp]. split; [|exact E].
  pose proof (pow2_pos (e + k + 149) ltac:(lia)). split; [nia | lia].
Qed.

Lemma Zdigits2_pos (n : Z) : 0 < n -> 1 <= Zdigits2 n.
Proof. intros. rewrite Zdigits2_log2 by lia. pose proof (Z.log2_nonneg n). lia. Qed.

Lemma Zdigits2_mul_ge (a b : Z) :
  0 < a -> 0 < b -> Zdigits2 a + Zdigits2 b - 1 <= Zdigits2 (a * b).
Proof.
  intros Ha Hb.
  pose proof (Zdigits2_bounds a Ha) as [La _]. pose proof (Zdigits2_bounds b Hb) as [Lb _].
  pose proof (Zdigits2_pos a Ha). pose proof (Zdigits2_pos b Hb).
  assert (Hab : 2 ^ (Zdigits2 a - 1 + (Zdigits2 b - 1)) <= a * b).
  { rewrite Z.pow_add_r by lia.
    pose proof (pow2_pos (Zdigits2 a - 1) ltac:(lia)).
    pose proof (pow2_pos (Zdigits2 b - 1) ltac:(lia)). nia. }
  pose proof (pow2_pos (Zdigits2 a - 1 + (Zdigits2 b - 1)) ltac:(lia)) as Hp.
  pose proof (Zdigits2_le _ _ (conj Hp Hab)) as Hd.
  rewrite (Zdigits2_unique (2 ^ (Zdigits2 a - 1 + (Zdigits2 b - 1)))
             (Zdigits2 a + Zdigits2 b - 1)) in Hd; [lia| |lia].
  split.
  - apply pow2_le. lia.
  - apply pow2_lt. lia.
Qed.

Lemma Fnum_finite_abs (s : bool) (m : positive) (e : Z) :
  -149 <= e -> Z.abs (Fnum (S754_finite s m e)) = Zpos m * 2 ^ (e + 149).
Proof.
  intros He. pose proof (pow2_pos (e + 149) ltac:(lia)).
  cbn [Fnum]. destruct s; cbn [cond_Zopp]; lia.
Qed.

(** The rounded product of two [float]s is bounded by every [float] that
    bounds the exact product. *)
Lemma fmul_abs_le (x y F : float) :
  valid x = true -> valid y = true -> is_finite x = true -> is_finite y = true ->
  valid F = true -> is_finite F = true ->
  Z.abs (Fnum x) * Z.abs (Fnum y) <= Fnum F * 2 ^ 149 ->
  valid (fmul x y) = true /\ is_finite (fmul x y) = true /\
  exists a, 0 <= a <= Fnum F /\ Fnum (fmul x y) = Z.sgn (Fnum x * Fnum y) * a.
Proof.
  intros Vx Vy Fx Fy VF FF H.
  assert (HF0 : 0 <= Fnum F) by (pose proof (Z.abs_nonneg (Fnum x)); pose proof (Z.abs_nonneg (Fnum y)); nia).
  destruct x as [sx|sx| |sx mx ex]; try discriminate;
    destruct y as [sy|sy| |sy my ey]; try discriminate;
    try (repeat split; exists 0; split; [lia | cbn; lia]).
  pose proof (valid_exponent _ _ _ Vx) as Hex. pose proof (valid_exponent _ _ _ Vy) as Hey.
  rewrite !Fnum_finite_abs in H by lia.
  pose proof (pow2_pos (ex + 149) ltac:(lia)) as Px.
  pose proof (pow2_pos (ey + 149) ltac:(lia)) as Py.
  destruct F as [sf|sf| |sf mf ef]; try discriminate; [cbn [Fnum] in H; nia|].
  pose proof (valid_exponent _ _ _ VF) as Hef.
  pose proof (pow2_pos (ef + 149) ltac:(lia)) as Pf.
  destruct sf; [cbn [Fnum cond_Zopp] in H; nia|].
  cbn [Fnum cond_Zopp] in H.
  unfold fmul, SFmul.
  change (Z.pos (mx * my)) with (Z.pos mx * Z.pos my).
  (* the product is in the position the rounding expects *)
  assert (Hr : ex + ey <= fexp32 (Zdigits2 (Z.pos mx * Z.pos my) + (ex + ey))).
  { pose proof (Zdigits2_mul_ge (Zpos mx) (Zpos my) ltac:(lia) ltac:(lia)) as Hd.
    pose proof (Zdigits2_pos (Zpos mx) ltac:(lia)). pose proof (Zdigits2_pos (Zpos my) ltac:(lia)).
    apply valid_finite_iff in Vx. apply valid_finite_iff in Vy.
    destruct Vx as [Cx _]. destruct Vy as [Cy _].
    apply fexp32_canonical in Cx. apply fexp32_canonical in Cy.
    unfold fexp32. lia. }
  assert (Hsc : sc (Z.pos mx * Z.pos my) (ex + ey) <= sc (Z.pos mf) ef).
  { unfold sc.
    replace (ex + ey + 400) with ((ex + 149) + (ey + 149) + 102) by lia.
    replace (ef + 400) with ((ef + 149) + 149 + 102) by lia.
    rewrite (Z.pow_add_r 2 (ex + 149 + (ey + 149)) 102),
            (Z.pow_add_r 2 (ex + 149) (ey + 149)),
            (Z.pow_add_r 2 (ef + 149 + 149) 102),
            (Z.pow_add_r 2 (ef + 149) 149) by lia.
    pose proof (pow2_pos 102 ltac:(lia)). nia. }
  destruct (round_aux_le (xorb sx sy) (Z.pos mx * Z.pos my) (ex + ey) loc_Exact mf ef)
    as (V & Fi & a & Ha & Ea); try assumption; try lia.
  { destruct (Z.eq_dec (sc (Z.pos mx * Z.pos my) (ex + ey)) (sc (Z.pos mf) ef));
      [right; split; [assumption|reflexivity] | left; lia]. }
  repeat split; try assumption. exists a. split; [exact Ha|].
  rewrite Ea. cbn [Fnum].
  destruct sx, sy; cbn [xorb cond_Zopp];
    match goal with |- _ = Z.sgn ?p * a =>
      first [ replace (Z.sgn p) with 1 by (symmetry; apply Z.sgn_pos; nia)
            | replace (Z.sgn p) with (-1) by (symmetry; apply Z.sgn_neg; nia) ]
    end; lia.
Qed.

Lemma div_core_spec (m1 m2 : positive) (e1 e2 : Z) :
  let e' := Z.min (fexp32 (Zdigits2 (Zpos m1) + e1 - (Zdigits2 (Zpos m2) + e2))) (e1 - e2) in
  let m' := Zpos m1 * 2 ^ (e1 - e2 - e') in
  SFdiv_core_binary 24 128 (Zpos m1) e1 (Zpos m2) e2 =
  (m' / Zpos m2, e', new_location (Zpos m2) (m' mod Zpos m2)).
Proof.
  intros e' m'. unfold SFdiv_core_binary. rewrite fexp_32. fold e'.
  assert (Hs : 0 <= e1 - e2 - e') by (unfold e'; lia).
  assert (Em : match e1 - e2 - e' with
               | Z.pos _ => Z.shiftl (Z.pos m1) (e1 - e2 - e')
               | 0 => Z.pos m1
               | Z.neg _ => 0
               end = m').
  { unfold m'. destruct (e1 - e2 - e') as [|p|p] eqn:E; try lia.
    rewrite Z.shiftl_mul_pow2 by lia. reflexivity. }
  rewrite Em. unfold Z.div, Z.modulo.
  destruct (Z.div_eucl m' (Z.pos m2)) as [q r]. reflexivity.
Qed.

Lemma new_location_exact (nb k : Z) : new_location nb k = loc_Exact <-> k = 0.
Proof.
  unfold new_location, new_location_even, new_location_odd.
  destruct (Z.even nb), (Z.eqb_spec k 0); split; intros; try reflexivity;
    try assumption; try discriminate; try lia.
Qed.

Lemma normal_digits (s : bool) (m : positive) (e : Z) :
  valid (S754_finite s m e) = true ->
  2 ^ 24 <= Zpos m * 2 ^ (e + 149) ->
  Zdigits2 (Zpos m) = 24.
Proof.
  intros V H. pose proof (mantissa_bound _ _ _ V) as Hm.
  apply valid_finite_iff in V. destruct V as [C _]. apply fexp32_canonical in C.
  destruct (Z.eq_dec e (-149)) as [->|]; [|lia].
  change (2 ^ (-149 + 149)) with 1 in H. lia.
Qed.

Lemma sgn_cond_Zopp (sx sy : bool) (a b c : Z) :
  0 < b -> 0 < c ->
  cond_Zopp (xorb sx sy) a = Z.sgn (cond_Zopp sx b * cond_Zopp sy c) * a.
Proof.
  intros Hb Hc. destruct sx, sy; cbn [xorb cond_Zopp];
    match goal with |- _ = Z.sgn ?p * a =>
      first [ replace (Z.sgn p) with 1 by (symmetry; apply Z.sgn_pos; nia)
            | replace (Z.sgn p) with (-1) by (symmetry; apply Z.sgn_neg; nia) ]
    end; lia.
Qed.

(** The rounded quotient of a [float] by a normal [float] is bounded by every
    [float] that bounds the exact quotient. *)
Lemma fdiv_abs_le (x y F : float) :
  valid x = true -> valid y = true -> is_finite x = true -> is_finite y = true ->
  2 ^ 24 <= Z.abs (Fnum y) ->
  valid F = true -> is_finite F = true ->
  Z.abs (Fnum x) * 2 ^ 149 <= Z.abs (Fnum y) * Fnum F ->
  valid (fdiv x y) = true /\ is_finite (fdiv x y) = true /\
  exists a, 0 <= a <= Fnum F /\ Fnum (fdiv x y) = Z.sgn (Fnum x * Fnum y) * a.
Proof.
  intros Vx Vy Fx Fy Hy VF FF H.
  destruct y as [sy|sy| |sy my ey]; try discriminate; [cbn in Hy; lia|].
  pose proof (valid_exponent _ _ _ Vy) as Hey.
  rewrite Fnum_finite_abs in H, Hy by lia.
  pose proof (normal_digits _ _ _ Vy Hy) as Dy.
  pose proof (mantissa_bound _ _ _ Vy) as My.
  pose proof (pow2_pos (ey + 149) ltac:(lia)) as Py.
  assert (HF0 : 0 <= Fnum F) by (pose proof (Z.abs_nonneg (Fnum x)); nia).
  destruct x as [sx|sx| |sx mx ex]; try discriminate.
  { repeat split. exists 0. split; [lia | cbn; lia]. }
  pose proof (valid_exponent _ _ _ Vx) as Hex.
  rewrite Fnum_finite_abs in H by lia.
  pose proof (pow2_pos (ex + 149) ltac:(lia)) as Px.
  destruct F as [sf|sf| |sf mf ef]; try discriminate; [cbn [Fnum] in H; nia|].
  pose proof (valid_exponent _ _ _ VF) as Hef.
  pose proof (pow2_pos (ef + 149) ltac:(lia)) as Pf.
  destruct sf; [cbn [Fnum cond_Zopp] in H; nia|].
  cbn [Fnum cond_Zopp] in H.
  unfold fdiv, SFdiv. rewrite div_core_spec. rewrite Dy.
  pose proof (Zdigits2_pos (Zpos mx) ltac:(lia)) as D1.
  pose proof (Zdigits2_bounds (Zpos mx) ltac:(lia)) as [Lx _].
  remember (Zdigits2 (Z.pos mx)) as d1 eqn:Ed1.
  remember (Z.min (fexp32 (d1 + ex - (24 + ey))) (ex - ey)) as e' eqn:Ee'.
  remember (ex - ey - e') as sh eqn:Esh.
  assert (Hsh : 0 <= sh) by lia.
  pose proof (pow2_pos sh Hsh) as Psh.
  remember (Z.pos mx * 2 ^ sh) as m' eqn:Em'.
  assert (Hm' : 0 < m') by nia.
  pose proof (Z.div_mod m' (Zpos my) ltac:(lia)) as HD.
  pose proof (Z.mod_pos_bound m' (Zpos my) ltac:(lia)) as HB.
  assert (Hq0 : 0 <= m' / Zpos my) by (apply Z.div_pos; lia).
  assert (He'lo : -253 <= e') by (unfold fexp32 in Ee'; lia).
  (* the quotient is where the rounding expects it *)
  assert (Hpos : (m' / Zpos my = 0 -> e' <= -149) /\
                 e' <= fexp32 (Zdigits2 (m' / Zpos my) + e')).
  { destruct (Z_le_gt_dec e' (-149)) as [A|B].
    - split; [lia | unfold fexp32; lia].
    - assert (Hs48 : 48 - d1 <= sh) by (unfold fexp32 in Ee'; lia).
      assert (Hlow : 2 ^ (d1 + sh - 25) <= m' / Zpos my).
      { apply Z.div_le_lower_bound; [lia|].
        apply Z.le_trans with (2 ^ 24 * 2 ^ (d1 + sh - 25)).
        - pose proof (pow2_pos (d1 + sh - 25) ltac:(lia)). nia.
        - rewrite <- Z.pow_add_r by lia. rewrite Em'.
          replace (24 + (d1 + sh - 25)) with (d1 - 1 + sh) by lia.
          rewrite Z.pow_add_r by lia. nia. }
      pose proof (pow2_pos (d1 + sh - 25) ltac:(lia)) as Pl.
      pose proof (Zdigits2_le _ _ (conj Pl Hlow)) as Hd.
      rewrite (Zdigits2_unique (2 ^ (d1 + sh - 25)) (d1 + sh - 24)) in Hd;
        [| split; [apply pow2_le; lia | apply pow2_lt; lia] | lia].
      split; [lia | unfold fexp32 in *; lia]. }
  destruct Hpos as [Hz Hr].
  (* the quotient's truncation against the bound *)
  assert (HA : Zpos my * sc (m' / Zpos my) e' <= sc m' e'
               /\ sc m' e' <= Zpos my * sc (Zpos mf) ef).
  { unfold sc. pose proof (pow2_pos (e' + 400) ltac:(lia)) as Pe.
    split; [nia|].
    apply Z.mul_le_mono_pos_r with (2 ^ (ey + 149)); [lia|].
    rewrite Em'.
    replace (Z.pos mx * 2 ^ sh * 2 ^ (e' + 400) * 2 ^ (ey + 149))
      with (Z.pos mx * 2 ^ (ex + 149) * 2 ^ 149 * 2 ^ 251).
    2:{ rewrite <- !Z.mul_assoc. f_equal. rewrite <- !Z.pow_add_r by lia. f_equal. lia. }
    replace (Z.pos my * (Z.pos mf * 2 ^ (ef + 400)) * 2 ^ (ey + 149))
      with (Z.pos my * 2 ^ (ey + 149) * (Z.pos mf * 2 ^ (ef + 149)) * 2 ^ 251).
    2:{ replace (ef + 400) with (ef + 149 + 251) by lia.
        rewrite (Z.pow_add_r 2 (ef + 149) 251) by lia. ring. }
    apply Z.mul_le_mono_nonneg_r; [apply Z.lt_le_incl, pow2_pos; lia | exact H]. }
  destruct HA as [HA1 HA2].
  destruct (round_aux_le (xorb sx sy) (m' / Zpos my) e'
              (new_location (Zpos my) (m' mod Zpos my)) mf ef)
    as (V & Fi & a & Ha & Ea); try assumption; try lia.
  { destruct (Z.eq_dec (sc (m' / Zpos my) e') (sc (Z.pos mf) ef)) as [E|E].
    - right. split; [assumption|]. apply new_location_exact.
      assert (E2 : Zpos my * sc (m' / Zpos my) e' = sc m' e') by lia.
      unfold sc in E2. pose proof (pow2_pos (e' + 400) ltac:(lia)) as Pe.
      rewrite Z.mul_assoc in E2. apply Z.mul_cancel_r in E2; lia.
    - left. assert (Zpos my * sc (m' / Zpos my) e' <= Zpos my * sc (Z.pos mf) ef) by lia.
      assert (sc (m' / Zpos my) e' <= sc (Z.pos mf) ef) by nia. lia. }
  repeat split; try assumption. exists a. split; [exact Ha|].
  rewrite Ea. cbn [Fnum]. apply sgn_cond_Zopp; lia.
Qed.

Lemma fabs_facts (x : float) :
  valid (fabs x) = valid x /\ is_finite (fabs x) = is_finite x /\
  Fnum (fabs x) = Z.abs (Fnum x).
Proof.
  destruct x as [s|s| |s m e]; repeat split.
  cbn [fabs SFabs Fnum]. destruct s; cbn [cond_Zopp]; lia.
Qed.

Lemma repr_opp (f : Z) : repr f -> repr (- f).
Proof.
  unfold repr. intros H. destruct (Z.lt_trichotomy f 0) as [N|[->|P]].
  - rewrite rnd_of_neg in H by lia. rewrite rnd_of_pos by lia. lia.
  - reflexivity.
  - rewrite rnd_of_pos in H by lia. rewrite rnd_of_neg, Z.opp_involutive by lia. lia.
Qed.

Lemma rnd_abs_le_repr (n f : Z) : repr f -> Z.abs n <= f -> Z.abs (rnd n) <= f.
Proof.
  intros Hf Hn.
  pose proof (rnd_le_repr n f Hf ltac:(lia)).
  pose proof (rnd_ge_repr n (- f) (repr_opp f Hf) ltac:(lia)). lia.
Qed.

(** ** The phase and the value *)

Lemma valid_two_pi : valid two_pi = true /\ is_finite two_pi = true /\
  Fnum two_pi = 13176795 * 2 ^ 128.
Proof. repeat split. Qed.

(** The phase computed from a time of magnitude at most [2 ^ 120] is a
    finite [float] with the sign of [t - c]. *)
Lemma phase_finite (t c p : float) :
  valid t = true -> is_finite t = true -> Z.abs (Fnum t) <= units 120 ->
  between f0_0 (fpow2 25) c -> between f0_5 f1_5 p ->
  valid (fdiv (fmul two_pi (fsub t c)) p) = true /\
  is_finite (fdiv (fmul two_pi (fsub t c)) p) = true /\
  (Fnum c <= Fnum t -> 0 <= Fnum (fdiv (fmul two_pi (fsub t c)) p)) /\
  (Fnum t <= Fnum c -> Fnum (fdiv (fmul two_pi (fsub t c)) p) <= 0).
Proof.
  intros Vt Ft Ht Hc Hp.
  pose proof Hc as (Vc & _). pose proof Hp as (Vp & _).
  apply between_Fnum in Hc; try reflexivity. destruct Hc as [Fc Hc].
  apply between_Fnum in Hp; try reflexivity. destruct Hp as [Fp Hp].
  change (Fnum f0_0) with 0 in Hc. rewrite (Fnum_fpow2 25) in Hc by lia.
  change (Fnum f0_5) with (units (-1)) in Hp.
  change (Fnum f1_5) with (3 * units (-1)) in Hp.
  (* the difference *)
  assert (Hd : Z.abs (rnd (Fnum t - Fnum c)) <= units 121).
  { apply rnd_abs_le_repr; [apply repr_units; lia|]. unfold units in *. lia. }
  destruct (fsub_value t c Vt Vc Ft Fc) as (Vd & Fd & Ed).
  { unfold units in Hd. lia. }
  set (d := fsub t c) in *.
  assert (Sd : (Fnum c <= Fnum t -> 0 <= Fnum d) /\ (Fnum t <= Fnum c -> Fnum d <= 0)).
  { rewrite Ed. split; intros H.
    - apply (rnd_ge_repr _ 0); [reflexivity | lia].
    - apply (rnd_le_repr _ 0); [reflexivity | lia]. }
  rewrite <- Ed in Hd.
  (* the product with two pi *)
  destruct valid_two_pi as (V2 & F2 & E2).
  destruct (fmul_abs_le two_pi d (fpow2 124) V2 Vd F2 Fd) as (Vy & Fy & ay & Hay & Ey);
    try reflexivity.
  { rewrite E2, (Fnum_fpow2 124) by lia. unfold units in *.
    rewrite Z.abs_eq by lia.
    apply Z.le_trans with (13176795 * 2 ^ 128 * 2 ^ (121 + 149)); [|lia].
    apply Z.mul_le_mono_nonneg_l; lia. }
  set (y := fmul two_pi d) in *.
  rewrite (Fnum_fpow2 124) in Hay by lia.
  assert (Sy : (0 <= Fnum d -> 0 <= Fnum y) /\ (Fnum d <= 0 -> Fnum y <= 0)).
  { rewrite Ey, E2. split; intros H.
    - pose proof (Z.sgn_nonneg (13176795 * 2 ^ 128 * Fnum d)) as [S _].
      specialize (S ltac:(lia)). nia.
    - pose proof (Z.sgn_nonpos (13176795 * 2 ^ 128 * Fnum d)) as [S _].
      specialize (S ltac:(lia)). nia. }
  assert (Hy : Z.abs (Fnum y) <= units 124).
  { rewrite Ey, Z.abs_mul. pose proof (Z.sgn_abs (Fnum two_pi * Fnum d)).
    assert (Z.abs (Z.sgn (Fnum two_pi * Fnum d)) <= 1)
      by (destruct (Fnum two_pi * Fnum d); cbn; lia).
    rewrite (Z.abs_eq ay) by lia. nia. }
  (* the quotient by the period *)
  destruct (fdiv_abs_le y p (fpow2 125) Vy Vp Fy Fp) as (Vq & Fq & aq & Haq & Eq);
    try reflexivity.
  { unfold units in Hp. lia. }
  { rewrite (Fnum_fpow2 125) by lia. unfold units in *.
    rewrite (Z.abs_eq (Fnum p)) by lia.
    apply Z.le_trans with (2 ^ (124 + 149) * 2 ^ 149); [|nia].
    apply Z.mul_le_mono_nonneg_r; lia. }
  repeat split; try assumption.
  - intros H. rewrite Eq. destruct Sd as [S1 _]. destruct Sy as [S2 _].
    specialize (S2 (S1 H)).
    pose proof (Z.sgn_nonneg (Fnum y * Fnum p)) as [S _].
    unfold units in Hp. specialize (S ltac:(nia)). nia.
  - intros H. rewrite Eq. destruct Sd as [_ S1]. destruct Sy as [_ S2].
    specialize (S2 (S1 H)).
    pose proof (Z.sgn_nonpos (Fnum y * Fnum p)) as [S _].
    unfold units in Hp. specialize (S ltac:(nia)). nia.
Qed.

(** The product of an amplitude and a number of magnitude at most one is a
    finite [float] that the amplitude bounds. *)
Lemma amplitude_times_sine (a x : float) :
  between f0_1 f1_0 a ->
  valid x = true -> is_finite x = true -> fle (fabs x) f1_0 = true ->
  valid (fmul a x) = true /\ is_finite (fmul a x) = true /\
  fle (fabs (fmul a x)) a = true.
Proof.
  intros Ha Vx Fx Hx.
  pose proof Ha as (Va & _).
  apply between_Fnum in Ha; try reflexivity. destruct Ha as [Fa Ha].
  change (Fnum f0_1) with (13421773 * 2 ^ 122) in Ha.
  destruct (fabs_facts x) as (Vax & Fax & Eax).
  rewrite fle_Fnum in Hx by (try reflexivity; congruence).
  apply Z.leb_le in Hx. rewrite Eax in Hx. change (Fnum f1_0) with (2 ^ 149) in Hx.
  destruct (fmul_abs_le a x a Va Vx Fa Fx Va Fa) as (Vv & Fv & b & Hb & Eb).
  { rewrite (Z.abs_eq (Fnum a)) by lia. apply Z.mul_le_mono_nonneg_l; lia. }
  destruct (fabs_facts (fmul a x)) as (Vav & Fav & Eav).
  repeat split; try assumption.
  rewrite fle_Fnum by congruence. apply Z.leb_le. rewrite Eav, Eb, Z.abs_mul.
  assert (Z.abs (Z.sgn (Fnum a * Fnum x)) <= 1)
    by (destruct (Fnum a * Fnum x); cbn; lia).
  rewrite (Z.abs_eq b) by lia. nia.
Qed.

(** The rounded product of two [float]s whose exact product is at least one
    exceeds it by at most one part in [2 ^ 24]. *)
Lemma fmul_rel_err (x y : float) :
  valid x = true -> valid y = true -> is_finite x = true -> is_finite y = true ->
  2 ^ 298 <= Z.abs (Fnum x) * Z.abs (Fnum y) ->
  is_finite (fmul x y) = true ->
  Z.abs (Fnum (fmul x y)) * 2 ^ 149 * 2 ^ 24 <=
  Z.abs (Fnum x) * Z.abs (Fnum y) * (2 ^ 24 + 1).
Proof.
  intros Vx Vy Fx Fy H Ffin.
  destruct x as [sx|sx| |sx mx ex]; try discriminate; [cbn in H; lia|].
  destruct y as [sy|sy| |sy my ey]; try discriminate; [cbn [Fnum] in H; lia|].
  pose proof (valid_exponent _ _ _ Vx) as Hex. pose proof (valid_exponent _ _ _ Vy) as Hey.
  rewrite !Fnum_finite_abs in * by lia.
  pose proof (pow2_pos (ex + 149) ltac:(lia)) as Px.
  pose proof (pow2_pos (ey + 149) ltac:(lia)) as Py.
  unfold fmul, SFmul in *.
  change (Z.pos (mx * my)) with (Z.pos mx * Z.pos my) in *.
  remember (Z.pos mx * Z.pos my) as M eqn:EM.
  remember (ex + ey) as e eqn:Ee.
  assert (HM : 0 < M) by lia.
  assert (Esc : Z.pos mx * 2 ^ (ex + 149) * (Z.pos my * 2 ^ (ey + 149)) = M * 2 ^ (e + 298)).
  { rewrite EM, Ee. replace (ex + ey + 298) with ((ex + 149) + (ey + 149)) by lia.
    rewrite (Z.pow_add_r 2 (ex + 149) (ey + 149)) by lia. ring. }
  rewrite Esc in *.
  pose proof (Zdigits2_pos M HM) as HdM.
  (* the product is in the normal range *)
  assert (Hd : 1 <= Zdigits2 M + e).
  { pose proof (Zdigits2_le (2 ^ 298) (M * 2 ^ (e + 298)) ltac:(lia)) as Hd.
    rewrite Zdigits2_mul_pow2 in Hd by lia. change (Zdigits2 (2 ^ 298)) with 299 in Hd. lia. }
  assert (Hr : e <= fexp32 (Zdigits2 M + e)).
  { unfold fexp32. 
    pose proof (Zdigits2_mul_ge (Zpos mx) (Zpos my) ltac:(lia) ltac:(lia)) as Hd2.
    pose proof (Zdigits2_pos (Zpos mx) ltac:(lia)). pose proof (Zdigits2_pos (Zpos my) ltac:(lia)).
    apply valid_finite_iff in Vx. apply valid_finite_iff in Vy.
    destruct Vx as [Cx _]. destruct Vy as [Cy _].
    apply fexp32_canonical in Cx. apply fexp32_canonical in Cy.
    rewrite <- EM in Hd2. lia. }
  destruct (round_stage M e 0 ltac:(lia) ltac:(lia) ltac:(lia) Hr) as (Hk & Hk0 & _).
  destruct (round_aux_value (xorb sx sy) M e loc_Exact ltac:(lia) ltac:(lia) Hr) as [Hval Hinf].
  cbn [loc_code] in *.
  remember (round_shift M e) as k eqn:Ek.
  rewrite rne_coded_exact in * by lia.
  remember (rne M k) as N eqn:EN.
  assert (HN0 : 0 <= N) by (rewrite EN; apply rne_nonneg; lia).
  assert (Hk' : k = Zdigits2 M - 24) by (unfold fexp32 in Hk; lia).
  destruct (Z_lt_le_dec (N * 2 ^ (e + k + 149)) (2 ^ 277)) as [L|L];
    [|rewrite (Hinf L) in Ffin; discriminate].
  destruct (Hval L) as (_ & _ & E).
  rewrite E.
  pose proof (pow2_pos (e + k + 149) ltac:(lia)) as Pk.
  replace (Z.abs (cond_Zopp (xorb sx sy) (N * 2 ^ (e + k + 149))))
    with (N * 2 ^ (e + k + 149)) by (destruct (xorb sx sy); cbn [cond_Zopp]; nia).
  (* half a unit in the last place is at most one part in 2^24 *)
  pose proof (rne_half M k Hk0) as [_ Hh]. rewrite <- EN in Hh.
  pose proof (Zdigits2_bounds M HM) as [Hlo _].
  assert (Hu : 2 ^ k * 2 ^ 23 <= M).
  { rewrite <- Z.pow_add_r by lia. replace (k + 23) with (Zdigits2 M - 1) by lia. exact Hlo. }
  assert (Hrel : N * 2 ^ k * 2 ^ 24 <= M * (2 ^ 24 + 1)) by lia.
  replace (N * 2 ^ (e + k + 149) * 2 ^ 149 * 2 ^ 24)
    with (N * 2 ^ k * 2 ^ 24 * 2 ^ (e + 298)).
  2:{ assert (Ep : 2 ^ (e + k + 149) * 2 ^ 149 = 2 ^ k * 2 ^ (e + 298)).
      { rewrite <- !Z.pow_add_r by lia. f_equal. lia. }
      rewrite <- (Z.mul_assoc N (2 ^ (e + k + 149)) (2 ^ 149)), Ep. ring. }
  replace (M * 2 ^ (e + 298) * (2 ^ 24 + 1)) with (M * (2 ^ 24 + 1) * 2 ^ (e + 298)) by ring.
  apply Z.mul_le_mono_nonneg_r; [apply Z.lt_le_incl, pow2_pos; lia | exact Hrel].
Qed.

(** Between the start of the cycle and its end the phase is at most the
    [float] that follows [two_pi]. *)
Lemma phase_upper (t c p : float) :
  valid t = true -> is_finite t = true ->
  between f0_0 (fpow2 25) c -> between f0_5 f1_5 p ->
  Fnum c <= Fnum t -> Fnum t < Fnum (fadd c p) ->
  Fnum (fdiv (fmul two_pi (fsub t c)) p) <= Fnum two_pi_up.
Proof.
  intros Vt Ft Hc Hp Hct Hte.
  destruct (start_plus_period c p Hc Hp) as (_ & _ & Eadd & _).
  pose proof Hc as (Vc & _). pose proof Hp as (Vp & _).
  apply between_Fnum in Hc; try reflexivity. destruct Hc as [Fc Hc].
  apply between_Fnum in Hp; try reflexivity. destruct Hp as [Fp Hp].
  change (Fnum f0_0) with 0 in Hc. rewrite (Fnum_fpow2 25) in Hc by lia.
  change (Fnum f0_5) with (units (-1)) in Hp.
  change (Fnum f1_5) with (3 * units (-1)) in Hp.
  unfold units in Hc, Hp.
  (* the time is before the exact end of the cycle *)
  assert (Hlt : Fnum t - Fnum c < Fnum p).
  { destruct (Z_lt_le_dec (Fnum t - Fnum c) (Fnum p)) as [L|L]; [assumption|exfalso].
    pose proof (rnd_le_repr (Fnum c + Fnum p) (Fnum t) (repr_Fnum t Vt) ltac:(lia)). lia. }
  (* the difference *)
  assert (Hd : 0 <= rnd (Fnum t - Fnum c) <= Fnum p).
  { split.
    - apply (rnd_ge_repr _ 0); [reflexivity | lia].
    - apply rnd_le_repr; [apply repr_Fnum; assumption | lia]. }
  destruct (fsub_value t c Vt Vc Ft Fc) as (Vd & Fd & Ed); [lia|].
  rewrite <- Ed in Hd. set (d := fsub t c) in *.
  (* the product *)
  destruct valid_two_pi as (V2 & F2 & E2).
  destruct (fmul_abs_le two_pi d (fpow2 4) V2 Vd F2 Fd) as (Vy & Fy & ay & Hay & Ey);
    try reflexivity.
  { rewrite E2, (Fnum_fpow2 4) by lia. unfold units. rewrite !Z.abs_eq by lia.
    apply Z.le_trans with (13176795 * 2 ^ 128 * (3 * 2 ^ (-1 + 149))); [|lia].
    apply Z.mul_le_mono_nonneg_l; lia. }
  set (y := fmul two_pi d) in *.
  assert (Hy0 : 0 <= Fnum y).
  { rewrite Ey, E2. pose proof (Z.sgn_nonneg (13176795 * 2 ^ 128 * Fnum d)) as [S _].
    specialize (S ltac:(lia)). nia. }
  assert (Hyp : Fnum y * 2 ^ 149 <= Fnum p * Fnum two_pi_up).
  { change (Fnum two_pi_up) with (13176796 * 2 ^ 128).
    destruct (Z_le_gt_dec (Fnum two_pi * Fnum d) (2 ^ 298)) as [Small|Big].
    - (* a product of at most one *)
      destruct (fmul_abs_le two_pi d f1_0 V2 Vd F2 Fd) as (_ & _ & a1 & Ha1 & E1);
        try reflexivity.
      { rewrite !Z.abs_eq by (rewrite ?E2; lia). exact Small. }
      fold y in E1. change (Fnum f1_0) with (2 ^ 149) in Ha1.
      assert (Fnum y <= 2 ^ 149).
      { rewrite E1. assert (Z.sgn (Fnum two_pi * Fnum d) <= 1)
          by (destruct (Fnum two_pi * Fnum d); cbn; lia). nia. }
      apply Z.le_trans with (2 ^ 149 * 2 ^ 149); [nia|].
      apply Z.le_trans with (2 ^ (-1 + 149) * (13176796 * 2 ^ 128)); [lia|].
      apply Z.mul_le_mono_nonneg_r; lia.
    - pose proof (fmul_rel_err two_pi d V2 Vd F2 Fd) as Hrel.
      rewrite !Z.abs_eq in Hrel by (rewrite ?E2; lia).
      specialize (Hrel ltac:(lia) Fy). fold y in Hrel.
      rewrite E2 in Hrel.
      assert (Hdp : 13176795 * 2 ^ 128 * Fnum d * (2 ^ 24 + 1)
                    <= Fnum p * (13176796 * 2 ^ 128) * 2 ^ 24).
      { apply Z.le_trans with (13176795 * 2 ^ 128 * Fnum p * (2 ^ 24 + 1)); [|lia].
        apply Z.mul_le_mono_nonneg_r; [lia|].
        apply Z.mul_le_mono_nonneg_l; lia. }
      lia. }
  destruct (fdiv_abs_le y p two_pi_up Vy Vp Fy Fp) as (_ & _ & aq & Haq & Eq);
    try reflexivity.
  { rewrite Z.abs_eq by lia. lia. }
  { rewrite !Z.abs_eq by lia. exact Hyp. }
  rewrite Eq. assert (Z.sgn (Fnum y * Fnum p) <= 1)
    by (destruct (Fnum y * Fnum p); cbn; lia). nia.
Qed.

(** ** Integers as [float]s *)

Lemma rnd_small_int (j : Z) : 0 <= j <= 2 ^ 24 -> rnd (j * 2 ^ 149) = j * 2 ^ 149.
Proof.
  intros Hj. destruct (Z.eq_dec j 0) as [->|N0]; [reflexivity|].
  rewrite rnd_of_pos by lia. unfold rnd_pos.
  assert (Hu : 0 <= ulp_shift (j * 2 ^ 149) <= 150).
  { unfold ulp_shift. rewrite Zdigits2_mul_pow2 by lia.
    pose proof (Zdigits2_le j (2 ^ 24) ltac:(lia)) as Hd.
    change (Zdigits2 (2 ^ 24)) with 25 in Hd. lia. }
  assert (Hm : (j * 2 ^ 149) mod 2 ^ ulp_shift (j * 2 ^ 149) = 0).
  { destruct (Z.eq_dec (ulp_shift (j * 2 ^ 149)) 150) as [E|E].
    - rewrite E. assert (j = 2 ^ 24); [|subst j; reflexivity].
      unfold ulp_shift in E. rewrite Zdigits2_mul_pow2 in E by lia.
      pose proof (Zdigits2_bounds j ltac:(lia)) as [Hlo _].
      replace (Zdigits2 j - 1) with 24 in Hlo by lia. lia.
    - destruct (pow2_divide (ulp_shift (j * 2 ^ 149)) 149 ltac:(lia)) as (c & Ec & _).
      remember (ulp_shift (j * 2 ^ 149)) as u eqn:Eu.
      rewrite Ec, Z.mul_assoc. apply Z.mod_mul.
      pose proof (pow2_pos u ltac:(lia)). lia. }
  rewrite rne_exact by (try assumption; lia).
  pose proof (pow2_pos (ulp_shift (j * 2 ^ 149)) ltac:(lia)) as Hp.
  pose proof (Z.div_mod (j * 2 ^ 149) (2 ^ ulp_shift (j * 2 ^ 149)) ltac:(lia)). lia.
Qed.

Lemma Zfloat_facts (k : Z) :
  0 <= k <= 2 ^ 24 ->
  valid (Zfloat k) = true /\ is_finite (Zfloat k) = true /\
  Fnum (Zfloat k) = k * 2 ^ 149.
Proof.
  intros Hk. destruct (binary_normalize_value k 0 ltac:(lia)) as [H _].
  change (0 + 149) with 149 in H. rewrite rnd_small_int in H by assumption.
  apply H. rewrite Z.abs_eq by lia.
  apply Z.le_lt_trans with (2 ^ 24 * 2 ^ 149); [|reflexivity].
  apply Z.mul_le_mono_nonneg_r; lia.
Qed.

Lemma fadd_Zfloat_one (k : Z) :
  0 <= k < 2 ^ 24 -> fadd (Zfloat k) f1_0 = Zfloat (k + 1).
Proof.
  intros Hk.
  destruct (Zfloat_facts k ltac:(lia)) as (V & F & E).
  destruct (Zfloat_facts (k + 1) ltac:(lia)) as (V1 & F1 & E1).
  assert (Es : Fnum (Zfloat k) + Fnum f1_0 = (k + 1) * 2 ^ 149).
  { rewrite E. change (Fnum f1_0) with (2 ^ 149). ring. }
  destruct (fadd_value (Zfloat k) f1_0 V eq_refl F eq_refl) as (Va & Fa & Ea).
  { rewrite Es, rnd_small_int by lia. rewrite Z.abs_eq by lia.
    apply Z.le_lt_trans with (2 ^ 24 * 2 ^ 149); [|reflexivity].
    apply Z.mul_le_mono_nonneg_r; lia. }
  rewrite Es, rnd_small_int in Ea by lia.
  apply Fnum_inj; try assumption; [congruence | rewrite Ea; lia].
Qed.

Lemma feq_Fnum (x y : float) :
  valid x = true -> valid y = true -> is_finite x = true -> is_finite y = true ->
  feq x y = (Fnum x =? Fnum y).
Proof.
  intros. unfold feq, SFeqb. rewrite SFcompare_Fnum by assumption.
  destruct (Z.compare_spec (Fnum x) (Fnum y)); symmetry;
    [apply Z.eqb_eq | apply Z.eqb_neq | apply Z.eqb_neq]; lia.
Qed.

Lemma time_ok_Fnum (t : float) :
  time_ok t <->
  valid t = true /\ is_finite t = true /\ - units 120 <= Fnum t < units 23.
Proof.
  unfold time_ok. split; intros (V & F & H).
  - rewrite fle_Fnum, flt_Fnum in H by (try assumption; reflexivity).
    rewrite (Fnum_fpow2 23) in H by lia.
    change (Fnum (fopp (fpow2 120))) with (- units 120) in H.
    destruct H as [H1 H2]. apply Z.leb_le in H1. apply Z.ltb_lt in H2. auto.
  - rewrite fle_Fnum, flt_Fnum by (try assumption; reflexivity).
    rewrite (Fnum_fpow2 23) by lia.
    change (Fnum (fopp (fpow2 120))) with (- units 120).
    repeat split; try assumption; [apply Z.leb_le | apply Z.ltb_lt]; lia.
Qed.

Lemma time_lower_ok_Fnum (t : float) :
  time_lower_ok t <->
  valid t = true /\ is_finite t = true /\ - units 120 <= Fnum t.
Proof.
  unfold time_lower_ok. split; intros (V & F & H).
  - rewrite fle_Fnum in H by (try assumption; reflexivity).
    change (Fnum (fopp (fpow2 120))) with (- units 120) in H.
    apply Z.leb_le in H. auto.
  - rewrite fle_Fnum by (try assumption; reflexivity).
    change (Fnum (fopp (fpow2 120))) with (- units 120).
    repeat split; try assumption. apply Z.leb_le. lia.
Qed.

Lemma value_ok_Fnum (v : float) :
  value_ok v <->
  valid v = true /\ is_finite v = true /\ Z.abs (Fnum v) <= units 0.
Proof.
  unfold value_ok. destruct (fabs_facts v) as (Vf & Ff & Ef).
  split; intros (V & F & H); repeat split; try assumption.
  - rewrite fle_Fnum in H by (rewrite ?Vf, ?Ff; try assumption; reflexivity).
    apply Z.leb_le in H. rewrite Ef in H. exact H.
  - rewrite fle_Fnum by (rewrite ?Vf, ?Ff; try assumption; reflexivity).
    apply Z.leb_le. rewrite Ef. exact H.
Qed.

(** The times [i * 0.01f] of the test program are finite [float]s from 0 to
    100. *)
Lemma sample_time_facts (i : Z) :
  0 <= i <= 10000 ->
  valid (sample_time i) = true /\ is_finite (sample_time i) = true /\
  0 <= Fnum (sample_time i) <= 400 * units (-2).
Proof.
  intros Hi. unfold sample_time.
  destruct (Zfloat_facts i ltac:(lia)) as (V & F & E).
  destruct (fmul_abs_le (Zfloat i) f0_01 (S754_finite false 13107200 (-17))
              V eq_refl F eq_refl eq_refl eq_refl) as (Vm & Fm & a & Ha & Ea).
  { rewrite E. change (Fnum f0_01) with (10737418 * 2 ^ 119).
    change (Fnum (S754_finite false 13107200 (-17))) with (13107200 * 2 ^ 132).
    rewrite !Z.abs_eq by lia. lia. }
  repeat split; try assumption.
  - rewrite Ea, E. change (Fnum f0_01) with (10737418 * 2 ^ 119).
    assert (0 <= Z.sgn (i * 2 ^ 149 * (10737418 * 2 ^ 119))) by (apply Z.sgn_nonneg; lia).
    apply Z.mul_nonneg_nonneg; lia.
  - rewrite Ea, E. change (Fnum f0_01) with (10737418 * 2 ^ 119).
    change (Fnum (S754_finite false 13107200 (-17))) with (400 * units (-2)) in Ha.
    destruct (Z.eq_dec i 0) as [->|N]; [cbn; lia|].
    rewrite Z.sgn_pos by lia. lia.
Qed.

(** The phase of a call at [-1.0f] in a cycle that starts at 0: [two_pi]
    times [-1], divided by a period between 0.5 and 1.5, is a negative
    [float], whatever the period. *)
Lemma fdiv_minus_two_pi (p : float) :
  between f0_5 f1_5 p ->
  flt (fdiv (fmul two_pi (fsub t_minus_1 f0_0)) p) f0_0 = true.
Proof.
  intros Hp.
  change (fmul two_pi (fsub t_minus_1 f0_0)) with (S754_finite true 13176795 (-21)).
  destruct (between_positive f0_5 f1_5 p eq_refl eq_refl eq_refl eq_refl Hp)
    as (mp & ep & ->).
  pose proof Hp as (Vp & _).
  apply between_Fnum in Hp; try reflexivity. destruct Hp as (_ & Hlo & Hhi).
  change (Fnum f0_5) with (2 ^ 148) in Hlo.
  change (Fnum f1_5) with (3 * 2 ^ 148) in Hhi.
  cbn [Fnum cond_Zopp] in Hlo, Hhi.
  pose proof (valid_exponent _ _ _ Vp) as Hep.
  pose proof (normal_digits _ _ _ Vp ltac:(lia)) as Dp.
  pose proof (Zdigits2_bounds (Zpos mp) ltac:(lia)) as [Lp Up].
  rewrite Dp in Lp, Up. change (24 - 1) with 23 in Lp.
  assert (Hcase : ep = -24 \/ ep = -23).
  { destruct (Z_le_gt_dec ep (-25)) as [A|A].
    - assert (2 ^ (ep + 149) <= 2 ^ 124) by (apply Z.pow_le_mono_r; lia).
      pose proof (pow2_pos (ep + 149) ltac:(lia)). nia.
    - destruct (Z_le_gt_dec (-22) ep) as [B|B]; [|lia].
      assert (2 ^ 127 <= 2 ^ (ep + 149)) by (apply Z.pow_le_mono_r; lia). nia. }
  unfold fdiv, SFdiv. rewrite div_core_spec. rewrite Dp.
  change (Zdigits2 (Z.pos 13176795)) with 24.
  remember (Z.min (fexp32 (24 + -21 - (24 + ep))) (-21 - ep)) as e' eqn:Ee'.
  assert (Hsh : -21 - ep - e' = 24).
  { destruct Hcase as [-> | ->]; subst e'; reflexivity. }
  rewrite Hsh.
  remember (Z.pos 13176795 * 2 ^ 24 / Z.pos mp) as M eqn:EM.
  assert (HM : 13176795 <= M < 2 ^ 25).
  { subst M. split.
    - apply Z.div_le_lower_bound; lia.
    - apply Z.div_lt_upper_bound; lia. }
  pose proof (Zdigits2_bounds M ltac:(lia)) as [LM UM].
  assert (Hd : 24 <= Zdigits2 M <= 25).
  { split.
    - destruct (Z_le_gt_dec 24 (Zdigits2 M)) as [A|A]; [exact A|].
      pose proof (Zdigits2_pos M ltac:(lia)).
      assert (2 ^ Zdigits2 M <= 2 ^ 23) by (apply Z.pow_le_mono_r; lia). lia.
    - destruct (Z_le_gt_dec (Zdigits2 M) 25) as [A|A]; [exact A|].
      assert (2 ^ 25 <= 2 ^ (Zdigits2 M - 1)) by (apply Z.pow_le_mono_r; lia). lia. }
  assert (He' : -22 <= e' <= -21) by (destruct Hcase as [-> | ->]; subst e'; cbn; lia).
  set (l := new_location (Z.pos mp) (Z.pos 13176795 * 2 ^ 24 mod Z.pos mp)).
  assert (Hr : e' <= fexp32 (Zdigits2 M + e')) by (unfold fexp32; lia).
  assert (Hc : 0 <= loc_code l < 4) by (destruct l as [|[]]; cbn [loc_code]; lia).
  destruct (round_stage M e' (loc_code l) ltac:(lia) ltac:(lia) Hc Hr)
    as (Hk & Hk0 & HN & HN24 & Hnorm).
  destruct (round_aux_value (xorb true false) M e' l ltac:(lia) ltac:(lia) Hr) as [Hval _].
  remember (round_shift M e') as k eqn:Ek.
  remember (rne (4 * M + loc_code l) (k + 2)) as N eqn:EN.
  assert (Hek : -22 <= e' + k <= -20) by (rewrite Hk; unfold fexp32; lia).
  specialize (Hnorm ltac:(lia)).
  assert (Hpw : 0 < 2 ^ (e' + k + 149)) by (apply pow2_pos; lia).
  assert (Hfin : N * 2 ^ (e' + k + 149) < 2 ^ 277).
  { assert (2 ^ (e' + k + 149) <= 2 ^ 129) by (apply Z.pow_le_mono_r; lia).
    apply Z.le_lt_trans with (2 ^ 24 * 2 ^ 129); [|reflexivity].
    apply Z.mul_le_mono_nonneg; lia. }
  destruct (Hval Hfin) as (V & F & E).
  rewrite flt_Fnum by (try assumption; reflexivity).
  apply Z.ltb_lt. rewrite E. change (Fnum f0_0) with 0. cbn [xorb cond_Zopp]. nia.
Qed.

End Rounding.

Import Rounding.

(** * The sampler's properties *)

Section SamplerFacts.

(** The library, as in the model; within this section the sampler's
    operations are those of this library. *)
Variable Rng : Type.
Variable rng_seed : Z -> Rng.
Variable uniform_real : float -> float -> Rng -> float * Rng.
Variable sinf : float -> float.

Local Abbreviation Sampler := (Sampler Rng).
Local Abbreviation m_PeriodDist := (@m_PeriodDist Rng uniform_real).
Local Abbreviation m_AmpDist := (@m_AmpDist Rng uniform_real).
Local Abbreviation draw_Period := (@draw_Period Rng uniform_real).
Local Abbreviation draw_Amplitude := (@draw_Amplitude Rng uniform_real).
Local Abbreviation Sampler_init := (@Sampler_init Rng rng_seed uniform_real).
Local Abbreviation Sampler_new := (@Sampler_new Rng rng_seed uniform_real).
Local Abbreviation theSampler := (@theSampler Rng rng_seed uniform_real).
Local Abbreviation Seed := (@Seed Rng rng_seed uniform_real).
Local Abbreviation next_cycle := (@next_cycle Rng uniform_real).
Local Abbreviation advance := (@advance Rng uniform_real).
Local Abbreviation value_at := (@value_at Rng sinf).
Local Abbreviation SimValue := (@SimValue Rng uniform_real sinf).
Local Abbreviation diverges := (@diverges Rng uniform_real).
Local Abbreviation run := (@run Rng uniform_real sinf).
Local Abbreviation seed_twice := (@seed_twice Rng rng_seed uniform_real sinf).
Local Abbreviation reachable := (@reachable Rng rng_seed uniform_real sinf).
Local Abbreviation reach_init := (@reach_init Rng rng_seed uniform_real sinf).
Local Abbreviation reach_Seed := (@reach_Seed Rng rng_seed uniform_real sinf).
Local Abbreviation reach_SimValue := (@reach_SimValue Rng rng_seed uniform_real sinf).
Local Abbreviation draws_in_range := (@draws_in_range Rng uniform_real).
Local Abbreviation sine_spec := (sine_spec sinf).
Local Abbreviation py_apply := (@py_apply Rng rng_seed uniform_real sinf).
Local Abbreviation py_session := (@py_session Rng rng_seed uniform_real sinf).
Local Abbreviation py_import := (@py_import Rng rng_seed uniform_real sinf).
Local Abbreviation test_1_loop := (@test_1_loop Rng uniform_real sinf).
Local Abbreviation test_1 := (@test_1 Rng uniform_real sinf).
Local Abbreviation test_2 := (@test_2 Rng rng_seed uniform_real sinf).
Local Abbreviation test_3 := (@test_3 Rng rng_seed uniform_real sinf).
Local Abbreviation test_4 := (@test_4 Rng rng_seed uniform_real sinf).
Local Abbreviation test_5_loop := (@test_5_loop Rng uniform_real sinf).
Local Abbreviation test_5 := (@test_5 Rng rng_seed uniform_real sinf).
Local Abbreviation test_main := (@test_main Rng rng_seed uniform_real sinf).

(** ** Seeding and construction *)

Lemma Seed_eq_init (inSeed : Z) (s : Sampler) : Seed inSeed s = Sampler_init inSeed.
Proof.
  unfold Seed, Sampler_init, draw_Amplitude, draw_Period, set_CycleStart, set_Rng.
  cbn [m_Rng m_CycleStart m_Period m_Amplitude].
  destruct (m_PeriodDist (rng_seed inSeed)) as [p g]. cbn [m_Rng m_CycleStart m_Period].
  destruct (m_AmpDist g) as [a g']. reflexivity.
Qed.

Lemma advance_exit (fuel : nat) (inTime : float) (s s' : Sampler) :
  advance fuel inTime s = Some s' -> cycle_elapsed inTime s' = false.
Proof.
  revert s. induction fuel as [|n IH]; intros s; cbn [advance];
    destruct (cycle_elapsed inTime s) eqn:E; try discriminate;
    try (intros [= <-]; exact E).
  apply IH.
Qed.

(** Running the loop with more fuel does not change what it returns. *)
Lemma advance_more_fuel (n m : nat) (inTime : float) (s s' : Sampler) :
  advance n inTime s = Some s' -> (n <= m)%nat -> advance m inTime s = Some s'.
Proof.
  revert m s. induction n as [|n IH]; intros m s; cbn [advance].
  - destruct (cycle_elapsed inTime s) eqn:E; [discriminate|].
    intros H _. destruct m; cbn [advance]; rewrite E; exact H.
  - destruct (cycle_elapsed inTime s) eqn:E.
    + intros H Hm. destruct m as [|m]; [lia|]. cbn [advance]. rewrite E.
      apply IH; [exact H | lia].
    + intros H _. destruct m; cbn [advance]; rewrite E; exact H.
Qed.

Lemma advance_fuel_irrelevant (n m : nat) (inTime : float) (s s1 s2 : Sampler) :
  advance n inTime s = Some s1 -> advance m inTime s = Some s2 -> s1 = s2.
Proof.
  intros H1 H2. destruct (Nat.le_ge_cases n m) as [L|L].
  - rewrite (advance_more_fuel n m inTime s s1 H1 L) in H2. congruence.
  - rewrite (advance_more_fuel m n inTime s s2 H2 L) in H1. congruence.
Qed.

(** Seeding twice with one seed and evaluating at one time gives the
    same value twice; two samplers seeded alike return the same values for
    the same sequence of times, whatever they did before; and the value of a
    call does not depend on how many iterations the loop was allowed. *)
Theorem same_seed_same_values (inSeed : Z) (fuel : nat) :
  (forall (inTime : float) (s : Sampler),
     seed_twice fuel inSeed inTime s =
     match SimValue fuel inTime (Seed inSeed s) with
     | None => None
     | Some (a, _) => Some (a, a)
     end) /\
  (forall (times : list float) (s1 s2 : Sampler),
     run fuel times (Seed inSeed s1) = run fuel times (Seed inSeed s2)) /\
  (forall (fuel' : nat) (inTime a b : float) (s1 s2 s1' s2' : Sampler),
     SimValue fuel inTime (Seed inSeed s1) = Some (a, s1') ->
     SimValue fuel' inTime (Seed inSeed s2) = Some (b, s2') ->
     a = b /\ s1' = s2').
Proof.
  repeat split.
  - intros inTime s. unfold seed_twice.
    destruct (SimValue fuel inTime (Seed inSeed s)) as [[a s1]|] eqn:E; [|reflexivity].
    rewrite (Seed_eq_init inSeed s1), <- (Seed_eq_init inSeed s), E. reflexivity.
  - intros times s1 s2. rewrite !Seed_eq_init. reflexivity.
  - rewrite !Seed_eq_init in *. unfold SimValue in *.
    destruct (advance fuel inTime (Sampler_init inSeed)) as [t1|] eqn:E1; [|discriminate].
    destruct (advance fuel' inTime (Sampler_init inSeed)) as [t2|] eqn:E2; [|discriminate].
    pose proof (advance_fuel_irrelevant _ _ _ _ _ _ E1 E2). congruence.
  - rewrite !Seed_eq_init in *. unfold SimValue in *.
    destruct (advance fuel inTime (Sampler_init inSeed)) as [t1|] eqn:E1; [|discriminate].
    destruct (advance fuel' inTime (Sampler_init inSeed)) as [t2|] eqn:E2; [|discriminate].
    pose proof (advance_fuel_irrelevant _ _ _ _ _ _ E1 E2). congruence.
Qed.

(** C7.  [Seed(inSeed)] leaves the sampler in the state of a freshly
    constructed [Sampler(inSeed)], whatever its state was: the engine is
    reseeded, the cycle start is 0, the period and then the amplitude are
    drawn from the reseeded engine; so every later call returns what it
    returns on the fresh sampler. *)
Theorem Seed_is_construction (inSeed : Z) (s : Sampler) :
  Seed inSeed s = Sampler_init inSeed /\
  m_CycleStart (Seed inSeed s) = f0_0 /\
  m_Period (Seed inSeed s) = fst (m_PeriodDist (rng_seed inSeed)) /\
  m_Amplitude (Seed inSeed s) =
    fst (m_AmpDist (snd (m_PeriodDist (rng_seed inSeed)))) /\
  m_Rng (Seed inSeed s) = snd (m_AmpDist (snd (m_PeriodDist (rng_seed inSeed)))) /\
  (forall (fuel : nat) (inTime : float),
     SimValue fuel inTime (Seed inSeed s) = SimValue fuel inTime (Sampler_init inSeed)) /\
  (forall (fuel : nat) (times : list float),
     run fuel times (Seed inSeed s) = run fuel times (Sampler_init inSeed)).
Proof.
  split; [apply Seed_eq_init|].
  unfold Seed, draw_Amplitude, draw_Period, set_CycleStart, set_Rng.
  cbn [m_Rng m_CycleStart m_Period m_Amplitude].
  destruct (m_PeriodDist (rng_seed inSeed)) as [p g] eqn:Ep.
  cbn [m_Rng m_CycleStart m_Period fst snd].
  destruct (m_AmpDist g) as [a g'] eqn:Ea. cbn [m_Rng m_CycleStart m_Period m_Amplitude fst snd].
  repeat split; intros; f_equal;
    unfold Sampler_init, draw_Amplitude, draw_Period; cbn [m_Rng m_CycleStart m_Period];
    rewrite Ep; cbn [m_Rng m_CycleStart m_Period]; rewrite Ea; reflexivity.
Qed.

(** C8.  A sampler constructed without a seed is the sampler constructed
    with seed 12345, and so is the instance of the Python module: all of them
    return the same values for the same sequence of times. *)
Theorem default_seed_is_12345 (fuel : nat) (times : list float) :
  default_seed = 12345 /\
  Sampler_new None = Sampler_new (Some 12345) /\
  Sampler_new None = Sampler_init 12345 /\
  theSampler = Sampler_new None /\
  run fuel times (Sampler_new None) = run fuel times (Sampler_init 12345) /\
  run fuel times theSampler = run fuel times (Sampler_new None).
Proof. repeat split. Qed.

(** ** Calls within the current cycle *)

(** C9.  A call at a time before the end of the current cycle returns
    without touching the sampler: start, period, amplitude and engine are what
    they were.  Two such calls return the same two values in either order. *)
Theorem within_cycle_pure (fuel : nat) (t1 t2 : float) (s : Sampler) :
  flt t1 (fadd (m_CycleStart s) (m_Period s)) = true ->
  flt t2 (fadd (m_CycleStart s) (m_Period s)) = true ->
  SimValue fuel t1 s = Some (value_at t1 s, s) /\
  run fuel [t1; t2] s = Some [value_at t1 s; value_at t2 s] /\
  run fuel [t2; t1] s = Some [value_at t2 s; value_at t1 s].
Proof.
  intros H1 H2. apply flt_not_fge in H1. apply flt_not_fge in H2.
  assert (E : forall t, cycle_elapsed t s = false -> SimValue fuel t s = Some (value_at t s, s)).
  { intros t Ht. unfold SimValue. destruct fuel; cbn [advance]; rewrite Ht; reflexivity. }
  repeat split.
  - apply E, H1.
  - cbn [run]. rewrite (E t1 H1), (E t2 H2). reflexivity.
  - cbn [run]. rewrite (E t2 H2), (E t1 H1). reflexivity.
Qed.

Section Invariant.

Hypothesis Hdraw : draws_in_range.

Lemma draws_fields (s : Sampler) :
  m_CycleStart (draw_Amplitude (draw_Period s)) = m_CycleStart s /\
  period_ok (m_Period (draw_Amplitude (draw_Period s))) /\
  amplitude_ok (m_Amplitude (draw_Amplitude (draw_Period s))).
Proof.
  unfold draw_Amplitude, draw_Period, m_PeriodDist, m_AmpDist.
  pose proof (Hdraw f0_5 f1_5 (m_Rng s)) as Hp.
  destruct (uniform_real f0_5 f1_5 (m_Rng s)) as [p g1]. cbn [m_Rng].
  pose proof (Hdraw f0_1 f1_0 g1) as Ha.
  destruct (uniform_real f0_1 f1_0 g1) as [a g2].
  cbn in *. repeat split; try apply Hp; try apply Ha; reflexivity.
Qed.

Lemma draws_ok (s : Sampler) :
  start_ok (m_CycleStart s) -> cycle_ok (draw_Amplitude (draw_Period s)).
Proof.
  intros Hc. destruct (draws_fields s) as (E & Hp & Ha).
  unfold cycle_ok. rewrite E. auto.
Qed.

Lemma start_ok_zero : start_ok f0_0.
Proof. repeat split. Qed.

Lemma Sampler_init_ok (inSeed : Z) : cycle_ok (Sampler_init inSeed).
Proof. apply draws_ok, start_ok_zero. Qed.

Lemma Seed_ok (inSeed : Z) (s : Sampler) : cycle_ok (Seed inSeed s).
Proof. apply draws_ok, start_ok_zero. Qed.

Lemma next_cycle_start (s : Sampler) :
  m_CycleStart (next_cycle s) = fadd (m_CycleStart s) (m_Period s).
Proof. unfold next_cycle. destruct (draws_fields (set_CycleStart (fadd (m_CycleStart s) (m_Period s)) s)) as [E _]. exact E. Qed.

Lemma next_cycle_ok (s : Sampler) : cycle_ok s -> cycle_ok (next_cycle s).
Proof.
  intros (Hc & Hp & _). apply draws_ok.
  apply (start_plus_period _ _ Hc Hp).
Qed.

Lemma advance_ok (fuel : nat) (inTime : float) (s s' : Sampler) :
  cycle_ok s -> advance fuel inTime s = Some s' -> cycle_ok s'.
Proof.
  revert s. induction fuel as [|n IH]; intros s Hs; cbn [advance];
    destruct (cycle_elapsed inTime s); try discriminate.
  - intros [= <-]. exact Hs.
  - intros H. apply (IH (next_cycle s)); [apply next_cycle_ok; exact Hs | exact H].
  - intros [= <-]. exact Hs.
Qed.

Lemma reachable_ok (s : Sampler) : reachable s -> cycle_ok s.
Proof.
  induction 1 as [inSeed | inSeed s _ _ | fuel t v s s' _ IH _ H].
  - apply Sampler_init_ok.
  - apply Seed_ok.
  - unfold SimValue in H. destruct (advance fuel t s) as [s1|] eqn:E; [|discriminate].
    injection H as _ <-. exact (advance_ok fuel t s s1 IH E).
Qed.

(** C6.  In every reachable state the period is a [float] in [0.5, 1.5] and
    the amplitude a [float] in [0.1, 1.0]: construction, [Seed] and every
    iteration of the loop of [SimValue] redraw them from distributions with
    these bounds. *)
Theorem period_amplitude_in_range (s : Sampler) :
  reachable s ->
  (fle f0_5 (m_Period s) = true /\ fle (m_Period s) f1_5 = true) /\
  (fle f0_1 (m_Amplitude s) = true /\ fle (m_Amplitude s) f1_0 = true).
Proof.
  intros H. destruct (reachable_ok s H) as (_ & (_ & ? & ?) & (_ & ? & ?)). auto.
Qed.

(** Every finite time of at least [2 ^ 25] is at or past the end of every
    cycle the sampler can be in. *)
Lemma elapsed_past_2_25 (inTime : float) (s : Sampler) :
  cycle_ok s -> valid inTime = true -> is_finite inTime = true ->
  fle (fpow2 25) inTime = true ->
  cycle_elapsed inTime s = true.
Proof.
  intros (Hc & Hp & _) Vt Ft Ht.
  destruct (start_plus_period _ _ Hc Hp) as ((V & _ & Hle) & F & _).
  rewrite fle_Fnum in Ht, Hle by (try assumption; reflexivity).
  apply Z.leb_le in Ht. apply Z.leb_le in Hle.
  unfold cycle_elapsed. rewrite fge_Fnum by assumption. apply Z.leb_le. lia.
Qed.

Lemma diverges_past_2_25 (inTime : float) (s : Sampler) :
  cycle_ok s -> valid inTime = true -> is_finite inTime = true ->
  fle (fpow2 25) inTime = true ->
  diverges inTime s.
Proof.
  intros Hs Vt Ft Ht fuel. revert s Hs.
  induction fuel as [|n IH]; intros s Hs; cbn [advance];
    rewrite (elapsed_past_2_25 inTime s Hs Vt Ft Ht); [reflexivity|].
  apply IH, next_cycle_ok, Hs.
Qed.

(** *** The loop below [2 ^ 23] *)

(** An iteration of the loop at a time below [2 ^ 23] moves the cycle start
    forward by at least 0.25. *)
Lemma next_cycle_progress (inTime : float) (s : Sampler) :
  cycle_ok s -> valid inTime = true -> is_finite inTime = true ->
  Fnum inTime < units 23 ->
  cycle_elapsed inTime s = true ->
  Fnum (m_CycleStart s) + units (-2) <= Fnum (m_CycleStart (next_cycle s)) <= Fnum inTime.
Proof.
  intros (Hc & Hp & _) Vt Ft Ht He.
  destruct (start_plus_period _ _ Hc Hp) as ((V & _) & F & E & _).
  rewrite next_cycle_start.
  unfold cycle_elapsed in He. rewrite fge_Fnum in He by assumption. apply Z.leb_le in He.
  split; [|exact He].
  apply between_Fnum in Hc; try reflexivity. destruct Hc as [_ [Hc0 _]].
  apply between_Fnum in Hp; try reflexivity. destruct Hp as [_ [Hp0 _]].
  change (Fnum f0_0) with 0 in Hc0. change (Fnum f0_5) with (units (-1)) in Hp0.
  rewrite E in *.
  destruct (Z_lt_le_dec (Fnum (m_CycleStart s) + Fnum (m_Period s)) (units 23)) as [L|L].
  - apply rnd_progress; assumption.
  - pose proof (rnd_ge_2_23 _ L). lia.
Qed.

Lemma advance_returns_below_2_23 (inTime : float) (n : nat) (s : Sampler) :
  cycle_ok s -> valid inTime = true -> is_finite inTime = true ->
  Fnum inTime < units 23 ->
  (fuel_for inTime s <= n)%nat ->
  exists s', advance n inTime s = Some s'.
Proof.
  intros Hs Vt Ft Ht. revert s Hs.
  assert (Hu : 0 < units (-2)) by (apply units_pos; lia).
  induction n as [|n IH]; intros s Hs Hn; cbn [advance];
    destruct (cycle_elapsed inTime s) eqn:E; eauto.
  - exfalso. pose proof (next_cycle_progress inTime s Hs Vt Ft Ht E) as [H1 H2].
    unfold fuel_for in Hn.
    assert (0 <= (Fnum inTime - Fnum (m_CycleStart s)) / units (-2))
      by (apply Z.div_pos; lia).
    lia.
  - apply IH; [apply next_cycle_ok, Hs|].
    pose proof (next_cycle_progress inTime s Hs Vt Ft Ht E) as [H1 H2].
    unfold fuel_for in *.
    assert (Hq : (Fnum inTime - Fnum (m_CycleStart (next_cycle s))) / units (-2) + 1
                 <= (Fnum inTime - Fnum (m_CycleStart s)) / units (-2)).
    { replace (Fnum inTime - Fnum (m_CycleStart s))
        with ((Fnum inTime - Fnum (m_CycleStart s) - units (-2)) + 1 * units (-2)) by ring.
      rewrite Z.div_add by lia.
      apply Z.add_le_mono_r. apply Z.div_le_mono; lia. }
    assert (0 <= (Fnum inTime - Fnum (m_CycleStart (next_cycle s))) / units (-2))
      by (apply Z.div_pos; lia).
    lia.
Qed.

(** *** The loop at the end of the current cycle *)

(** Once the cycle start has reached a positive time, further iterations at
    that time leave it there. *)
Lemma advance_stays_at (fuel : nat) (inTime : float) (s s' : Sampler) :
  cycle_ok s -> valid inTime = true -> is_finite inTime = true ->
  0 < Fnum inTime -> m_CycleStart s = inTime ->
  advance fuel inTime s = Some s' -> m_CycleStart s' = inTime.
Proof.
  intros Hs Vt Ft Pt. revert s Hs.
  induction fuel as [|n IH]; intros s Hs Ec; cbn [advance];
    destruct (cycle_elapsed inTime s) eqn:E; try discriminate;
    try (intros [= <-]; exact Ec).
  apply IH; [apply next_cycle_ok, Hs|].
  rewrite next_cycle_start.
  destruct Hs as (Hc & Hp & _).
  destruct (start_plus_period _ _ Hc Hp) as ((V & _) & F & _ & Hle).
  unfold cycle_elapsed in E. rewrite fge_Fnum in E by assumption. apply Z.leb_le in E.
  rewrite Ec in *. apply Fnum_inj; try assumption; lia.
Qed.

(** C4 fails at large times.  From every reachable state, a call at a finite
    time of at least [2 ^ 25] never returns: the cycle start cannot pass
    [2 ^ 25], where adding a period of at most 1.5 is rounded away, so the
    loop condition holds for ever. *)
Theorem SimValue_never_returns_past_2_25 (inTime : float) (s : Sampler) :
  reachable s -> valid inTime = true -> is_finite inTime = true ->
  fle (fpow2 25) inTime = true ->
  forall fuel : nat, SimValue fuel inTime s = None.
Proof.
  intros Hs Vt Ft Ht fuel. unfold SimValue.
  rewrite (diverges_past_2_25 inTime s (reachable_ok s Hs) Vt Ft Ht fuel). reflexivity.
Qed.

(** Below [2 ^ 23] the loop ends, after at most one iteration for each
    quarter between the cycle start and the time. *)
Theorem advance_returns (inTime : float) (s : Sampler) :
  reachable s -> valid inTime = true -> is_finite inTime = true ->
  flt inTime (fpow2 23) = true ->
  exists s', advance (fuel_for inTime s) inTime s = Some s'.
Proof.
  intros Hs Vt Ft Ht.
  rewrite flt_Fnum in Ht by (try assumption; reflexivity). apply Z.ltb_lt in Ht.
  rewrite (Fnum_fpow2 23) in Ht by lia.
  apply advance_returns_below_2_23; try assumption; [apply reachable_ok, Hs | apply Nat.le_refl].
Qed.

(** A call at a finite time below [2 ^ 23] returns: the loop has ended after
    [fuel_for] iterations, and allowing more changes nothing. *)
Theorem SimValue_returns_below_2_23 (inTime : float) (s : Sampler) :
  reachable s -> valid inTime = true -> is_finite inTime = true ->
  flt inTime (fpow2 23) = true ->
  exists (v : float) (s' : Sampler),
    forall fuel : nat,
      (fuel_for inTime s <= fuel)%nat -> SimValue fuel inTime s = Some (v, s').
Proof.
  intros Hs Vt Ft Ht.
  destruct (advance_returns inTime s Hs Vt Ft Ht) as [s' E].
  exists (value_at inTime s'), s'. intros fuel Hf. unfold SimValue.
  rewrite (advance_more_fuel _ fuel _ _ _ E Hf). reflexivity.
Qed.

(** The loop keeps the cycle start at or before the time, if it was. *)
Lemma advance_start_le (fuel : nat) (inTime : float) (s s' : Sampler) :
  cycle_ok s -> valid inTime = true -> is_finite inTime = true ->
  Fnum (m_CycleStart s) <= Fnum inTime ->
  advance fuel inTime s = Some s' ->
  Fnum (m_CycleStart s') <= Fnum inTime.
Proof.
  intros Hs Vt Ft. revert s Hs.
  induction fuel as [|n IH]; intros s Hs Hle; cbn [advance];
    destruct (cycle_elapsed inTime s) eqn:E; try discriminate;
    try (intros [= <-]; exact Hle).
  apply IH; [apply next_cycle_ok, Hs|].
  rewrite next_cycle_start.
  destruct Hs as (Hc & Hp & _).
  destruct (start_plus_period _ _ Hc Hp) as ((V & _) & F & _).
  unfold cycle_elapsed in E. rewrite fge_Fnum in E by assumption.
  apply Z.leb_le in E. exact E.
Qed.

Lemma start_finite (s : Sampler) :
  cycle_ok s ->
  valid (m_CycleStart s) = true /\ is_finite (m_CycleStart s) = true /\
  0 <= Fnum (m_CycleStart s) <= units 25.
Proof.
  intros (Hc & _). pose proof Hc as (V & _).
  apply between_Fnum in Hc; try reflexivity. destruct Hc as [F H].
  change (Fnum f0_0) with 0 in H. rewrite (Fnum_fpow2 25) in H by lia. auto.
Qed.

(** For a finite time that is not before the cycle
    start, the phase computed after the loop is a [float] from 0 to the
    [float] that follows [two_pi]; and the loop does finish when the time is
    below [2 ^ 23]. *)
Theorem phase_in_range (inTime : float) (s : Sampler) :
  reachable s -> valid inTime = true -> is_finite inTime = true ->
  fle (m_CycleStart s) inTime = true ->
  (forall (fuel : nat) (s' : Sampler),
     advance fuel inTime s = Some s' ->
     fle f0_0 (phase inTime s') = true /\
     fle (phase inTime s') two_pi_up = true) /\
  (flt inTime (fpow2 23) = true ->
   exists s', advance (fuel_for inTime s) inTime s = Some s').
Proof.
  intros Hs Vt Ft Hle. pose proof (reachable_ok s Hs) as Ok.
  destruct (start_finite s Ok) as (Vc & Fc & Hc).
  rewrite fle_Fnum in Hle by assumption. apply Z.leb_le in Hle.
  split.
  - intros fuel s' E.
    pose proof (advance_ok fuel inTime s s' Ok E) as Ok'.
    pose proof (advance_start_le fuel inTime s s' Ok Vt Ft Hle E) as Hle'.
    pose proof (advance_exit fuel inTime s s' E) as Hex.
    destruct (start_finite s' Ok') as (Vc' & Fc' & Hc').
    destruct Ok' as (Hc2 & Hp2 & _).
    destruct (start_plus_period _ _ Hc2 Hp2) as ((Ve & _ & He25) & Fe & _).
    unfold cycle_elapsed in Hex. rewrite fge_Fnum in Hex by assumption.
    apply Z.leb_gt in Hex.
    rewrite fle_Fnum in He25 by (try assumption; reflexivity).
    apply Z.leb_le in He25. rewrite (Fnum_fpow2 25) in He25 by lia.
    assert (Ht : Z.abs (Fnum inTime) <= units 120).
    { pose proof (units_le 25 120 ltac:(lia)). lia. }
    destruct (phase_finite inTime _ _ Vt Ft Ht Hc2 Hp2) as (Vq & Fq & Hpos & _).
    pose proof (phase_upper inTime _ _ Vt Ft Hc2 Hp2 Hle' Hex) as Hup.
    unfold phase. split; rewrite fle_Fnum by (try assumption; reflexivity); apply Z.leb_le.
    + change (Fnum f0_0) with 0. apply Hpos, Hle'.
    + exact Hup.
  - intros H23. apply advance_returns; assumption.
Qed.

(** *** The value returned *)

Section Sine.

Hypothesis Hsin : sine_spec.

(** At the start of its cycle the value is [+0]. *)
Lemma value_at_cycle_start (s : Sampler) :
  cycle_ok s -> value_at (m_CycleStart s) s = S754_zero false.
Proof.
  intros (Hc & Hp & Ha).
  assert (Fc : is_finite (m_CycleStart s) = true).
  { destruct Hc as (? & ? & ?). apply (between_finite f0_0 (fpow2 25)); auto. }
  destruct (between_positive f0_5 f1_5 _ eq_refl eq_refl eq_refl eq_refl Hp) as (mp & ep & Ep).
  destruct (between_positive f0_1 f1_0 _ eq_refl eq_refl eq_refl eq_refl Ha) as (ma & ea & Ea).
  destruct Hsin as (Hs0 & _).
  unfold value_at, phase. rewrite (fsub_diag _ Fc), Ep, Ea.
  change (fmul two_pi (S754_zero false)) with (S754_zero false).
  change (fdiv (S754_zero false) (S754_finite false mp ep)) with (S754_zero false).
  rewrite Hs0. reflexivity.
Qed.

(** Whatever the time, within magnitude [2 ^ 120], the value computed in a
    state of the invariant is finite and bounded by the amplitude. *)
Lemma value_at_bounded (inTime : float) (s : Sampler) :
  cycle_ok s -> valid inTime = true -> is_finite inTime = true ->
  Z.abs (Fnum inTime) <= units 120 ->
  valid (value_at inTime s) = true /\
  is_finite (value_at inTime s) = true /\
  fle (fabs (value_at inTime s)) (m_Amplitude s) = true.
Proof.
  intros (Hc & Hp & Ha) Vt Ft Ht.
  destruct (phase_finite inTime _ _ Vt Ft Ht Hc Hp) as (Vq & Fq & _).
  destruct Hsin as (_ & Hs & _).
  destruct (Hs _ Vq Fq) as (Vs & Fs & Bs).
  apply amplitude_times_sine; assumption.
Qed.

(** The end of a cycle is a positive finite [float]. *)
Lemma cycle_end_facts (s : Sampler) :
  cycle_ok s ->
  valid (fadd (m_CycleStart s) (m_Period s)) = true /\
  is_finite (fadd (m_CycleStart s) (m_Period s)) = true /\
  0 < Fnum (fadd (m_CycleStart s) (m_Period s)) <= units 25.
Proof.
  intros (Hc & Hp & _).
  destruct (start_plus_period _ _ Hc Hp) as (Hb & F & E & Hle).
  pose proof Hb as (V & _).
  apply between_Fnum in Hb; try reflexivity. destruct Hb as [_ [_ Hhi]].
  rewrite (Fnum_fpow2 25) in Hhi by lia.
  pose proof Hp as (Vp & _).
  apply between_Fnum in Hp; try reflexivity. destruct Hp as [_ [Hp _]].
  apply between_Fnum in Hc; try reflexivity. destruct Hc as [_ [Hc _]].
  change (Fnum f0_0) with 0 in Hc. change (Fnum f0_5) with (units (-1)) in Hp.
  pose proof (units_pos (-1) ltac:(lia)).
  repeat split; try assumption.
  rewrite E. apply Z.lt_le_trans with (Fnum (m_Period s)); [lia|].
  apply rnd_ge_repr; [apply repr_Fnum; assumption | lia].
Qed.

Lemma last_below_2_25 (x : float) :
  valid x = true -> is_finite x = true ->
  Fnum t_33554430 < Fnum x <= units 25 -> x = fpow2 25.
Proof.
  intros V F [Hlo Hhi].
  assert (E0 : Fnum t_33554430 = 16777215 * 2 ^ 150) by reflexivity.
  rewrite E0 in Hlo. unfold units in Hhi. change (25 + 149) with 174 in Hhi.
  destruct x as [s|s| |s m e]; try discriminate F; cbn [Fnum] in Hlo, Hhi; try lia.
  pose proof (mantissa_bound s m e V) as Hm.
  pose proof (valid_exponent s m e V) as He.
  pose proof V as V'. apply valid_finite_iff in V'. destruct V' as [Hc _].
  apply fexp32_canonical in Hc. destruct Hc as (_ & _ & Hd).
  assert (Hp : 0 < 2 ^ (e + 149)) by (apply pow2_pos; lia).
  assert (Hmp : 0 < Zpos m * 2 ^ (e + 149)) by (apply Z.mul_pos_pos; lia).
  destruct s; cbn [cond_Zopp] in Hlo, Hhi; [lia|].
  assert (E : Zpos m * 2 ^ (e + 149) = 2 ^ 174).
  { destruct (Z_le_gt_dec 2 e) as [Hge|Hlt].
    - specialize (Hd ltac:(lia)).
      pose proof (Zdigits2_bounds (Zpos m) ltac:(lia)) as [Hb _].
      rewrite Hd in Hb. change (24 - 1) with 23 in Hb.
      assert (2 ^ 151 <= 2 ^ (e + 149)) by (apply Z.pow_le_mono_r; lia).
      assert (2 ^ 23 * 2 ^ 151 <= Zpos m * 2 ^ (e + 149))
        by (apply Z.mul_le_mono_nonneg; lia).
      lia.
    - assert (2 ^ (e + 149) <= 2 ^ 150) by (apply Z.pow_le_mono_r; lia).
      assert (Zpos m * 2 ^ (e + 149) <= 16777215 * 2 ^ 150)
        by (apply Z.mul_le_mono_nonneg; lia).
      lia. }
  apply Fnum_inj; [assumption | reflexivity | assumption | reflexivity | | ].
  - cbn [Fnum cond_Zopp]. rewrite E. reflexivity.
  - cbn [Fnum cond_Zopp]. lia.
Qed.

(** Whatever the draws, a call at 33554430.0f that returns leaves a cycle
    that ends at [2 ^ 25] exactly, and the call at that time never returns. *)
Lemma cycle_end_after_33554430 (fuel : nat) (s s' : Sampler) (v : float) :
  reachable s -> SimValue fuel t_33554430 s = Some (v, s') ->
  reachable s' /\
  fadd (m_CycleStart s') (m_Period s') = fpow2 25 /\
  forall fuel' : nat,
    SimValue fuel' (fadd (m_CycleStart s') (m_Period s')) s' = None.
Proof.
  intros R E.
  assert (R' : reachable s')
    by (apply (reach_SimValue fuel t_33554430 v s s' R eq_refl E)).
  pose proof (reachable_ok s' R') as Hok.
  destruct (cycle_end_facts s' Hok) as (Ve & Fe & He).
  unfold SimValue in E.
  destruct (advance fuel t_33554430 s) as [s1|] eqn:Ea; [|discriminate E].
  assert (s1 = s') by congruence. subst s1.
  apply advance_exit in Ea. unfold cycle_elapsed in Ea.
  rewrite fge_Fnum in Ea by (assumption || reflexivity). apply Z.leb_gt in Ea.
  assert (Eend : fadd (m_CycleStart s') (m_Period s') = fpow2 25)
    by (apply last_below_2_25; [assumption | assumption | lia]).
  split; [exact R'|]. split; [exact Eend|].
  intros fuel'. rewrite Eend. unfold SimValue.
  rewrite (diverges_past_2_25 (fpow2 25) s' Hok eq_refl eq_refl eq_refl fuel').
  reflexivity.
Qed.

(** A call at the end of the current cycle.  Whenever it returns, the value
    is [+0] and the new cycle starts at that time; and it returns, after one
    iteration of the loop, when that time is below [2 ^ 23]. *)
Theorem boundary_value_zero (s : Sampler) :
  reachable s ->
  (forall (fuel : nat) (v : float) (s' : Sampler),
     SimValue fuel (fadd (m_CycleStart s) (m_Period s)) s = Some (v, s') ->
     v = S754_zero false /\
     m_CycleStart s' = fadd (m_CycleStart s) (m_Period s)) /\
  (flt (fadd (m_CycleStart s) (m_Period s)) (fpow2 23) = true ->
   SimValue 1 (fadd (m_CycleStart s) (m_Period s)) s =
   Some (S754_zero false, next_cycle s)).
Proof.
  intros Hs. pose proof (reachable_ok s Hs) as Ok.
  destruct (cycle_end_facts s Ok) as (Vt & Ft & Pt).
  set (t := fadd (m_CycleStart s) (m_Period s)) in *.
  assert (El : cycle_elapsed t s = true).
  { unfold cycle_elapsed. fold t. rewrite fge_Fnum by assumption. apply Z.leb_le. lia. }
  assert (Hn : m_CycleStart (next_cycle s) = t) by apply next_cycle_start.
  pose proof (next_cycle_ok s Ok) as Ok1.
  split.
  - intros fuel v s' H. unfold SimValue in H.
    destruct (advance fuel t s) as [s1|] eqn:E; [|discriminate].
    injection H as <- <-.
    destruct fuel as [|n]; cbn [advance] in E; rewrite El in E; [discriminate|].
    pose proof (advance_stays_at n t (next_cycle s) s1 Ok1 Vt Ft (proj1 Pt) Hn E) as Es.
    pose proof (advance_ok n t (next_cycle s) s1 Ok1 E) as Ok'.
    split; [|exact Es]. rewrite <- Es at 1. apply value_at_cycle_start, Ok'.
  - intros H23. rewrite flt_Fnum in H23 by (try assumption; reflexivity).
    apply Z.ltb_lt in H23. rewrite (Fnum_fpow2 23) in H23 by lia.
    assert (El1 : cycle_elapsed t (next_cycle s) = false).
    { destruct (cycle_elapsed t (next_cycle s)) eqn:E1; [exfalso|reflexivity].
      pose proof (next_cycle_progress t (next_cycle s) Ok1 Vt Ft H23 E1) as [H1 H2].
      rewrite Hn in H1. pose proof (units_pos (-2) ltac:(lia)). lia. }
    unfold SimValue. cbn [advance]. rewrite El, El1.
    rewrite <- Hn at 1. rewrite (value_at_cycle_start _ Ok1). reflexivity.
Qed.

(** C3, as the code has it.  From every reachable state, a call at a finite
    time that is at least [- 2 ^ 120] returns, whenever it returns, a finite
    value whose magnitude the amplitude of the cycle bounds, the amplitude
    being at most one; and it does return when the time is below [2 ^ 23]. *)
Theorem SimValue_bounded (inTime : float) (s : Sampler) :
  reachable s -> valid inTime = true -> is_finite inTime = true ->
  fle (fopp (fpow2 120)) inTime = true ->
  (forall (fuel : nat) (v : float) (s' : Sampler),
     SimValue fuel inTime s = Some (v, s') ->
     is_finite v = true /\
     fle (fabs v) (m_Amplitude s') = true /\
     fle (m_Amplitude s') f1_0 = true) /\
  (flt inTime (fpow2 23) = true ->
   exists (v : float) (s' : Sampler),
     SimValue (fuel_for inTime s) inTime s = Some (v, s')).
Proof.
  intros Hs Vt Ft Hlo. pose proof (reachable_ok s Hs) as Ok.
  rewrite fle_Fnum in Hlo by (try assumption; reflexivity). apply Z.leb_le in Hlo.
  change (Fnum (fopp (fpow2 120))) with (- units 120) in Hlo.
  split.
  - intros fuel v s' E. unfold SimValue in E.
    destruct (advance fuel inTime s) as [s1|] eqn:Ea; [|discriminate E].
    assert (s1 = s') by congruence. assert (v = value_at inTime s1) by congruence.
    subst s1 v.
    pose proof (advance_ok _ _ _ _ Ok Ea) as Ok'.
    destruct (Z_lt_ge_dec (Fnum inTime) (units 25)) as [Hlt|Hge].
    + assert (Ht : Z.abs (Fnum inTime) <= units 120).
      { pose proof (units_le 25 120 ltac:(lia)). lia. }
      destruct (value_at_bounded inTime s' Ok' Vt Ft Ht) as (Vv & Fv & Bv).
      repeat split; try assumption. apply Ok'.
    + assert (Hd : fle (fpow2 25) inTime = true).
      { rewrite fle_Fnum by (try assumption; reflexivity).
        rewrite (Fnum_fpow2 25) by lia. apply Z.leb_le. lia. }
      rewrite (diverges_past_2_25 inTime s Ok Vt Ft Hd fuel) in Ea. discriminate Ea.
  - intros Hhi. destruct (advance_returns inTime s Hs Vt Ft Hhi) as [s' E].
    exists (value_at inTime s'), s'. unfold SimValue. rewrite E. reflexivity.
Qed.

(** C10, as the code has it.  A call at a finite time before the cycle start
    returns at once, the loop skipped and the state untouched.  When the time
    is at least [- 2 ^ 120] the phase is a finite [float], at most 0, and the
    amplitude bounds the magnitude of the value. *)
Theorem rewind_returns (inTime : float) (s : Sampler) :
  reachable s -> valid inTime = true -> is_finite inTime = true ->
  flt inTime (m_CycleStart s) = true ->
  (forall fuel : nat, SimValue fuel inTime s = Some (value_at inTime s, s)) /\
  (fle (fopp (fpow2 120)) inTime = true ->
   is_finite (phase inTime s) = true /\
   fle (phase inTime s) f0_0 = true /\
   is_finite (value_at inTime s) = true /\
   fle (fabs (value_at inTime s)) (m_Amplitude s) = true).
Proof.
  intros Hs Vt Ft Hlt. pose proof (reachable_ok s Hs) as Ok.
  destruct (start_finite s Ok) as (Vc & Fc & Hc).
  rewrite flt_Fnum in Hlt by assumption. apply Z.ltb_lt in Hlt.
  pose proof Ok as (Hc2 & Hp2 & _).
  destruct (start_plus_period _ _ Hc2 Hp2) as ((Ve & _) & Fe & _ & Hle).
  assert (El : cycle_elapsed inTime s = false).
  { unfold cycle_elapsed. rewrite fge_Fnum by assumption. apply Z.leb_gt. lia. }
  split.
  - intros fuel. unfold SimValue. destruct fuel; cbn [advance]; rewrite El; reflexivity.
  - intros Hlo.
    rewrite fle_Fnum in Hlo by (try assumption; reflexivity). apply Z.leb_le in Hlo.
    change (Fnum (fopp (fpow2 120))) with (- units 120) in Hlo.
    assert (Ht : Z.abs (Fnum inTime) <= units 120).
    { pose proof (units_le 25 120 ltac:(lia)). lia. }
    destruct (phase_finite inTime _ _ Vt Ft Ht Hc2 Hp2) as (Vq & Fq & _ & Hneg).
    destruct (value_at_bounded inTime s Ok Vt Ft Ht) as (Vv & Fv & Bv).
    repeat split; try assumption.
    unfold phase. rewrite fle_Fnum by (try assumption; reflexivity). apply Z.leb_le.
    change (Fnum f0_0) with 0. apply Hneg. lia.
Qed.

(** On a fresh sampler a call at a negative time so large that its product
    with [two_pi] overflows returns NaN: the phase is an infinity, whose sine
    is NaN. *)
Lemma far_rewind_is_nan (m : positive) (e : Z) (inSeed : Z) (fuel : nat) :
  fmul two_pi (S754_finite true m e) = S754_infinity true ->
  SimValue fuel (S754_finite true m e) (Sampler_init inSeed) =
  Some (S754_nan, Sampler_init inSeed).
Proof.
  intros Hov.
  pose proof (Sampler_init_ok inSeed) as (Hc & Hp & Ha).
  destruct (between_positive f0_5 f1_5 _ eq_refl eq_refl eq_refl eq_refl Hp) as (mp & ep & Ep).
  destruct (between_positive f0_1 f1_0 _ eq_refl eq_refl eq_refl eq_refl Ha) as (ma & ea & Ea).
  assert (Ec : m_CycleStart (Sampler_init inSeed) = f0_0).
  { unfold Sampler_init.
    destruct (draws_fields (mkSampler f0_0 f0_0 f0_0 (rng_seed inSeed))) as [E _]. exact E. }
  destruct Hsin as (_ & _ & Hnan).
  assert (El : cycle_elapsed (S754_finite true m e) (Sampler_init inSeed) = false).
  { unfold cycle_elapsed. rewrite Ec, Ep. reflexivity. }
  unfold SimValue. destruct fuel; cbn [advance]; rewrite El;
    unfold value_at, phase; rewrite Ec, Ep, Ea;
    change (fsub (S754_finite true m e) f0_0) with (S754_finite true m e);
    rewrite Hov;
    change (fdiv (S754_infinity true) (S754_finite false mp ep)) with (S754_infinity true);
    rewrite (Hnan (S754_infinity true) eq_refl); reflexivity.
Qed.

(** *** Successive calls *)

Lemma advance_start_mono (fuel : nat) (inTime : float) (s s' : Sampler) :
  cycle_ok s -> advance fuel inTime s = Some s' ->
  Fnum (m_CycleStart s) <= Fnum (m_CycleStart s').
Proof.
  revert s. induction fuel as [|n IH]; intros s Ok E; cbn [advance] in E;
    destruct (cycle_elapsed inTime s) eqn:El; try discriminate E.
  - assert (s = s') by congruence. subst s'. lia.
  - apply IH in E; [|apply next_cycle_ok, Ok].
    rewrite next_cycle_start in E.
    destruct Ok as (Hc & Hp & _).
    destruct (start_plus_period _ _ Hc Hp) as (_ & _ & _ & Hle). lia.
  - assert (s = s') by congruence. subst s'. lia.
Qed.

(** A call of [SimValue] never moves the cycle start backwards, whatever the
    time it is called at (a time before the cycle start included). *)
Theorem cycle_start_never_decreases
  (fuel : nat) (inTime v : float) (s s' : Sampler) :
  reachable s -> SimValue fuel inTime s = Some (v, s') ->
  fle (m_CycleStart s) (m_CycleStart s') = true.
Proof.
  intros Hs E. pose proof (reachable_ok s Hs) as Ok.
  unfold SimValue in E.
  destruct (advance fuel inTime s) as [s1|] eqn:Ea; [|discriminate E].
  assert (s1 = s') by congruence. subst s1.
  pose proof (advance_ok _ _ _ _ Ok Ea) as Ok'.
  destruct (start_finite s Ok) as (V & F & _).
  destruct (start_finite s' Ok') as (V' & F' & _).
  rewrite fle_Fnum by assumption. apply Z.leb_le.
  apply (advance_start_mono fuel inTime); assumption.
Qed.

(** A call that has returned can be repeated: the same time gives the same
    value again and leaves the sampler as the first call left it. *)
Theorem SimValue_repeatable (fuel fuel' : nat) (inTime v : float) (s s' : Sampler) :
  SimValue fuel inTime s = Some (v, s') ->
  SimValue fuel' inTime s' = Some (v, s').
Proof.
  unfold SimValue. intros E.
  destruct (advance fuel inTime s) as [s1|] eqn:Ea; [|discriminate E].
  assert (s1 = s') by congruence. subst s1.
  assert (v = value_at inTime s') by congruence. subst v.
  apply advance_exit in Ea.
  destruct fuel'; cbn [advance]; rewrite Ea; reflexivity.
Qed.

(** After a call at a finite time that was not before the cycle start, the
    time lies in the current cycle: not before its start, and before its
    end. *)
Theorem current_cycle_contains_time
  (fuel : nat) (inTime v : float) (s s' : Sampler) :
  reachable s -> valid inTime = true -> is_finite inTime = true ->
  fle (m_CycleStart s) inTime = true ->
  SimValue fuel inTime s = Some (v, s') ->
  fle (m_CycleStart s') inTime = true /\
  flt inTime (fadd (m_CycleStart s') (m_Period s')) = true.
Proof.
  intros Hs Vt Ft Hle E. pose proof (reachable_ok s Hs) as Ok.
  unfold SimValue in E.
  destruct (advance fuel inTime s) as [s1|] eqn:Ea; [|discriminate E].
  assert (s1 = s') by congruence. subst s1.
  pose proof (advance_ok _ _ _ _ Ok Ea) as Ok'.
  destruct (start_finite s Ok) as (V & F & _).
  destruct (start_finite s' Ok') as (V' & F' & _).
  destruct (cycle_end_facts s' Ok') as (Ve & Fe & _).
  rewrite fle_Fnum in Hle by assumption. apply Z.leb_le in Hle.
  pose proof (advance_start_le _ _ _ _ Ok Vt Ft Hle Ea) as Hs'.
  apply advance_exit in Ea. unfold cycle_elapsed in Ea.
  rewrite fge_Fnum in Ea by assumption. apply Z.leb_gt in Ea.
  split.
  - rewrite fle_Fnum by assumption. apply Z.leb_le. exact Hs'.
  - rewrite flt_Fnum by assumption. apply Z.ltb_lt. exact Ea.
Qed.

Lemma advance_later (f1 f2 : nat) (t1 t2 : float) (s s1 s2 : Sampler) :
  cycle_ok s ->
  valid t1 = true -> is_finite t1 = true ->
  valid t2 = true -> is_finite t2 = true ->
  Fnum t1 <= Fnum t2 ->
  advance f1 t1 s = Some s1 -> advance f2 t2 s1 = Some s2 ->
  advance (f1 + f2) t2 s = Some s2.
Proof.
  intros Ok V1 F1 V2 F2 Hle. revert s Ok.
  induction f1 as [|n IH]; intros s Ok E1 E2; cbn [advance] in E1;
    destruct (cycle_elapsed t1 s) eqn:El; try discriminate E1.
  - assert (s = s1) by congruence. subst s1. exact E2.
  - assert (El2 : cycle_elapsed t2 s = true).
    { destruct (cycle_end_facts s Ok) as (Ve & Fe & _).
      unfold cycle_elapsed in *. rewrite fge_Fnum in * by assumption.
      apply Z.leb_le in El. apply Z.leb_le. lia. }
    change (S n + f2)%nat with (S (n + f2)). cbn [advance]. rewrite El2.
    apply IH; [apply next_cycle_ok, Ok | exact E1 | exact E2].
  - assert (s = s1) by congruence. subst s1.
    apply (advance_more_fuel f2); [exact E2 | lia].
Qed.

(** Sampling on the way changes nothing: a call at a later time returns the
    same value, and leaves the same state, whether or not the sampler was
    called at an earlier time in between. *)
Theorem earlier_call_changes_nothing
  (f1 f2 : nat) (t1 t2 v1 v2 : float) (s s1 s2 : Sampler) :
  reachable s ->
  valid t1 = true -> is_finite t1 = true ->
  valid t2 = true -> is_finite t2 = true ->
  fle t1 t2 = true ->
  SimValue f1 t1 s = Some (v1, s1) -> SimValue f2 t2 s1 = Some (v2, s2) ->
  SimValue (f1 + f2) t2 s = Some (v2, s2).
Proof.
  intros Hs V1 F1 V2 F2 Hle E1 E2. pose proof (reachable_ok s Hs) as Ok.
  rewrite fle_Fnum in Hle by assumption. apply Z.leb_le in Hle.
  unfold SimValue in *.
  destruct (advance f1 t1 s) as [s1'|] eqn:Ea1; [|discriminate E1].
  assert (s1' = s1) by congruence. subst s1'.
  destruct (advance f2 t2 s1) as [s2'|] eqn:Ea2; [|discriminate E2].
  rewrite (advance_later f1 f2 t1 t2 s s1 s2' Ok V1 F1 V2 F2 Hle Ea1 Ea2).
  exact E2.
Qed.

(** *** Times that are not finite *)

Lemma elapsed_at_infinity (s : Sampler) :
  cycle_ok s ->
  cycle_elapsed S754_nan s = false /\
  cycle_elapsed (S754_infinity true) s = false /\
  cycle_elapsed (S754_infinity false) s = true.
Proof.
  intros Ok. destruct (cycle_end_facts s Ok) as (_ & Fe & _).
  unfold cycle_elapsed.
  destruct (fadd (m_CycleStart s) (m_Period s)) as [b|b| |b m e];
    try discriminate Fe; repeat split; try reflexivity; destruct b; reflexivity.
Qed.

(** [SimValue] at a time that is not finite.  With NaN or minus infinity the
    loop is skipped and the call returns NaN, the state untouched; with plus
    infinity the call never returns. *)
Theorem SimValue_nonfinite_time (fuel : nat) (s : Sampler) :
  reachable s ->
  SimValue fuel S754_nan s = Some (S754_nan, s) /\
  SimValue fuel (S754_infinity true) s = Some (S754_nan, s) /\
  SimValue fuel (S754_infinity false) s = None.
Proof.
  intros Hs. pose proof (reachable_ok s Hs) as Ok.
  destruct (elapsed_at_infinity s Ok) as (En & Em & _).
  pose proof Ok as (Hc & Hp & Ha).
  destruct (between_positive f0_5 f1_5 _ eq_refl eq_refl eq_refl eq_refl Hp) as (mp & ep & Ep).
  destruct (between_positive f0_1 f1_0 _ eq_refl eq_refl eq_refl eq_refl Ha) as (ma & ea & Ea).
  destruct (start_finite s Ok) as (_ & Fc & _).
  destruct Hsin as (_ & _ & Hnan).
  repeat split.
  - unfold SimValue. destruct fuel; cbn [advance]; rewrite En;
      unfold value_at, phase; rewrite Ep, Ea;
      change (fsub S754_nan (m_CycleStart s)) with S754_nan;
      change (fmul two_pi S754_nan) with S754_nan;
      change (fdiv S754_nan (S754_finite false mp ep)) with S754_nan;
      rewrite (Hnan S754_nan eq_refl); reflexivity.
  - assert (Es : fsub (S754_infinity true) (m_CycleStart s) = S754_infinity true).
    { destruct (m_CycleStart s) as [b|b| |b m e]; try discriminate Fc; reflexivity. }
    unfold SimValue. destruct fuel; cbn [advance]; rewrite Em;
      unfold value_at, phase; rewrite Ep, Ea, Es;
      change (fmul two_pi (S754_infinity true)) with (S754_infinity true);
      change (fdiv (S754_infinity true) (S754_finite false mp ep)) with (S754_infinity true);
      rewrite (Hnan (S754_infinity true) eq_refl); reflexivity.
  - unfold SimValue.
    assert (Hd : forall (n : nat) (s0 : Sampler),
              cycle_ok s0 -> advance n (S754_infinity false) s0 = None).
    { induction n as [|n IH]; intros s0 Ok0; cbn [advance];
        destruct (elapsed_at_infinity s0 Ok0) as (_ & _ & ->); [reflexivity|].
      apply IH, next_cycle_ok, Ok0. }
    rewrite (Hd fuel s Ok). reflexivity.
Qed.

(** *** The current cycle is never empty *)

Lemma advance_cases (fuel : nat) (inTime : float) (s s' : Sampler) :
  advance fuel inTime s = Some s' ->
  s' = s \/
  (fge inTime (m_CycleStart s') = true /\ cycle_elapsed inTime s' = false).
Proof.
  revert s. induction fuel as [|n IH]; intros s E; cbn [advance] in E;
    destruct (cycle_elapsed inTime s) eqn:El; try discriminate E.
  - left. congruence.
  - pose proof (advance_exit _ _ _ _ E) as Hex.
    destruct (IH _ E) as [Es|H]; [|right; exact H].
    right. split; [|exact Hex]. rewrite Es, next_cycle_start. exact El.
  - left. congruence.
Qed.

Lemma init_nonempty (inSeed : Z) :
  Fnum (m_CycleStart (Sampler_init inSeed)) <
  Fnum (fadd (m_CycleStart (Sampler_init inSeed)) (m_Period (Sampler_init inSeed))).
Proof.
  destruct (cycle_end_facts _ (Sampler_init_ok inSeed)) as (_ & _ & Hpos & _).
  assert (Ec : m_CycleStart (Sampler_init inSeed) = f0_0).
  { unfold Sampler_init.
    destruct (draws_fields (mkSampler f0_0 f0_0 f0_0 (rng_seed inSeed))) as [E _]. exact E. }
  rewrite Ec at 1. exact Hpos.
Qed.

Lemma reachable_nonempty (s : Sampler) :
  reachable s ->
  Fnum (m_CycleStart s) < Fnum (fadd (m_CycleStart s) (m_Period s)).
Proof.
  intros Hs.
  induction Hs as [inSeed | inSeed s Hs IH | fuel inTime v s s' Hs IH Vt E].
  - apply init_nonempty.
  - rewrite (Seed_eq_init inSeed s). apply init_nonempty.
  - pose proof (reachable_ok s Hs) as Ok. unfold SimValue in E.
    destruct (advance fuel inTime s) as [s1|] eqn:Ea; [|discriminate E].
    assert (s1 = s') by congruence. subst s1.
    pose proof (advance_ok _ _ _ _ Ok Ea) as Ok'.
    destruct (advance_cases _ _ _ _ Ea) as [->|[Hge Hex]]; [exact IH|].
    destruct (start_finite s' Ok') as (V' & F' & _).
    destruct (cycle_end_facts s' Ok') as (Ve & Fe & _).
    destruct (elapsed_at_infinity s' Ok') as (_ & _ & Hinf).
    assert (Ft : is_finite inTime = true).
    { destruct inTime as [b|[|]| |b m e]; try reflexivity.
      - unfold fge in Hge.
        destruct (m_CycleStart s') as [c|c| |c mc ec]; try discriminate F';
          destruct c; discriminate Hge.
      - congruence.
      - unfold fge in Hge.
        destruct (m_CycleStart s') as [c|c| |c mc ec]; try discriminate F';
          discriminate Hge. }
    unfold cycle_elapsed in Hex.
    rewrite fge_Fnum in Hge, Hex by assumption.
    apply Z.leb_le in Hge. apply Z.leb_gt in Hex. lia.
Qed.

(** In every reachable state the current cycle is not empty: the cycle end
    [m_CycleStart + m_Period], as the loop condition computes it in binary32,
    lies strictly after the cycle start. *)
Theorem current_cycle_not_empty (s : Sampler) :
  reachable s ->
  flt (m_CycleStart s) (fadd (m_CycleStart s) (m_Period s)) = true.
Proof.
  intros Hs. pose proof (reachable_ok s Hs) as Ok.
  destruct (start_finite s Ok) as (V & F & _).
  destruct (cycle_end_facts s Ok) as (Ve & Fe & _).
  rewrite flt_Fnum by assumption. apply Z.ltb_lt.
  exact (reachable_nonempty s Hs).
Qed.

(** In every reachable state the cycle start is a finite [float], at least 0
    and strictly below [2 ^ 25] = 33554432: it is never negative, never NaN or
    an infinity, and no call that returns carries it to [2 ^ 25]. *)
Theorem cycle_start_in_range (s : Sampler) :
  reachable s ->
  is_finite (m_CycleStart s) = true /\
  fle f0_0 (m_CycleStart s) = true /\
  flt (m_CycleStart s) (fpow2 25) = true.
Proof.
  intros Hs. pose proof (reachable_ok s Hs) as Ok.
  destruct (start_finite s Ok) as (V & F & Hlo & _).
  destruct (cycle_end_facts s Ok) as (_ & _ & _ & Hhi).
  pose proof (reachable_nonempty s Hs) as Hlt.
  split; [exact F|]. split.
  - rewrite fle_Fnum by (try assumption; reflexivity). apply Z.leb_le. exact Hlo.
  - rewrite flt_Fnum by (try assumption; reflexivity). apply Z.ltb_lt.
    rewrite (Fnum_fpow2 25) by lia. lia.
Qed.

(** In every reachable state a call at the start of the current cycle returns
    [+0] at once and changes nothing. *)
Theorem SimValue_at_cycle_start (fuel : nat) (s : Sampler) :
  reachable s ->
  SimValue fuel (m_CycleStart s) s = Some (S754_zero false, s).
Proof.
  intros Hs. pose proof (reachable_ok s Hs) as Ok.
  destruct (start_finite s Ok) as (V & F & _).
  destruct (cycle_end_facts s Ok) as (Ve & Fe & _).
  pose proof (reachable_nonempty s Hs) as Hlt.
  assert (El : cycle_elapsed (m_CycleStart s) s = false).
  { unfold cycle_elapsed. rewrite fge_Fnum by assumption. apply Z.leb_gt. exact Hlt. }
  unfold SimValue. destruct fuel; cbn [advance]; rewrite El;
    rewrite (value_at_cycle_start s Ok); reflexivity.
Qed.

(** *** Calls that return a value within [-1, 1] *)

Lemma fuel_for_bound (k : Z) (inTime : float) (s : Sampler) :
  cycle_ok s -> 0 <= k -> Fnum inTime <= k * units (-2) ->
  (fuel_for inTime s <= Z.to_nat (k + 1))%nat.
Proof.
  intros Ok Hk Ht. destruct (start_finite s Ok) as (_ & _ & Hc & _).
  pose proof (units_pos (-2) ltac:(lia)) as Hu.
  unfold fuel_for.
  assert ((Fnum inTime - Fnum (m_CycleStart s)) / units (-2) <= k).
  { apply Z.div_le_upper_bound; [exact Hu|]. nia. }
  lia.
Qed.

Lemma call_returns_bounded (fuel : nat) (inTime : float) (s : Sampler) :
  reachable s -> time_ok inTime -> (fuel_for inTime s <= fuel)%nat ->
  exists (v : float) (s' : Sampler),
    SimValue fuel inTime s = Some (v, s') /\ reachable s' /\ value_ok v.
Proof.
  intros Hs Ht0 HF. apply time_ok_Fnum in Ht0. destruct Ht0 as (Vt & Ft & Hlo & Hhi).
  pose proof (reachable_ok s Hs) as Ok.
  destruct (advance_returns_below_2_23 inTime fuel s Ok Vt Ft Hhi HF) as [s' E].
  pose proof (advance_ok _ _ _ _ Ok E) as Ok'.
  assert (Ht : Z.abs (Fnum inTime) <= units 120).
  { pose proof (units_le 23 120 ltac:(lia)). lia. }
  destruct (value_at_bounded inTime s' Ok' Vt Ft Ht) as (Vv & Fv & Bv).
  assert (Es : SimValue fuel inTime s = Some (value_at inTime s', s'))
    by (unfold SimValue; rewrite E; reflexivity).
  exists (value_at inTime s'), s'. split; [exact Es|]. split.
  - exact (reach_SimValue fuel inTime _ s s' Hs Vt Es).
  - apply value_ok_Fnum. repeat split; try assumption.
    destruct Ok' as (_ & _ & Ha).
    apply between_Fnum in Ha; try reflexivity. destruct Ha as (Fa & _ & Hle).
    destruct (fabs_facts (value_at inTime s')) as (Vf & Ff & Ef).
    assert (Va : valid (m_Amplitude s') = true) by apply (advance_ok _ _ _ _ Ok E).
    rewrite fle_Fnum in Bv by (rewrite ?Vf, ?Ff; assumption). apply Z.leb_le in Bv.
    rewrite Ef in Bv. change (Fnum f1_0) with (units 0) in Hle. lia.
Qed.

Lemma sample_time_ok (i : Z) : 0 <= i <= 10000 -> time_ok (sample_time i).
Proof.
  intros Hi. destruct (sample_time_facts i Hi) as (V & F & Hlo & Hhi).
  pose proof (units_pos 120 ltac:(lia)).
  apply time_ok_Fnum. repeat split; try assumption; [lia|].
  apply Z.le_lt_trans with (400 * units (-2)); [exact Hhi | reflexivity].
Qed.

Lemma sample_fuel (fuel : nat) (i : Z) (s : Sampler) :
  reachable s -> 0 <= i <= 10000 -> (401 <= fuel)%nat ->
  (fuel_for (sample_time i) s <= fuel)%nat.
Proof.
  intros Hs Hi Hf. destruct (sample_time_facts i Hi) as (_ & _ & _ & Hhi).
  pose proof (fuel_for_bound 400 (sample_time i) s (reachable_ok s Hs) ltac:(lia) Hhi).
  lia.
Qed.

(** *** The test program *)

Lemma fmax_ok (m v : float) : max_ok m -> value_ok v -> max_ok (fmax m v).
Proof. intros Hm Hv. unfold fmax. destruct (flt m v); [right; exact Hv | exact Hm]. Qed.

Lemma fmin_ok (m v : float) : min_ok m -> value_ok v -> min_ok (fmin m v).
Proof. intros Hm Hv. unfold fmin. destruct (flt v m); [right; exact Hv | exact Hm]. Qed.

(** The bounds check of test 1 finds nothing beyond [1.05] in magnitude. *)
Lemma bounds_check_passes (maxValue minValue : float) :
  max_ok maxValue -> min_ok minValue ->
  fgt maxValue (fadd f1_0 kTolerance) || flt minValue (fsub (fopp f1_0) kTolerance)
  = false.
Proof.
  intros Hmax Hmin.
  assert (Eu : fadd f1_0 kTolerance = S754_finite false 8808038 (-23)) by reflexivity.
  assert (El : fsub (fopp f1_0) kTolerance = S754_finite true 8808038 (-23)) by reflexivity.
  rewrite Eu, El. apply orb_false_iff. split.
  - destruct Hmax as [->|Hv]; [reflexivity|].
    apply value_ok_Fnum in Hv. destruct Hv as (V & F & B).
    unfold fgt. change (SFltb ?a ?b) with (flt a b).
    rewrite flt_Fnum by (try assumption; reflexivity). apply Z.ltb_ge.
    change (Fnum (S754_finite false 8808038 (-23))) with (8808038 * 2 ^ 126).
    unfold units in B. change (0 + 149) with 149 in B. lia.
  - destruct Hmin as [->|Hv]; [reflexivity|].
    apply value_ok_Fnum in Hv. destruct Hv as (V & F & B).
    rewrite flt_Fnum by (try assumption; reflexivity). apply Z.ltb_ge.
    change (Fnum (S754_finite true 8808038 (-23))) with (- (8808038 * 2 ^ 126)).
    unfold units in B. change (0 + 149) with 149 in B. lia.
Qed.

Lemma test_1_loop_finite (fuel n : nat) (i : Z) (s : Sampler) (maxValue minValue : float) :
  (401 <= fuel)%nat -> reachable s -> 0 <= i -> i + Z.of_nat n <= 10001 ->
  max_ok maxValue -> min_ok minValue ->
  exists (maxValue' minValue' : float) (s' : Sampler),
    test_1_loop fuel n i s maxValue minValue = Some (true, maxValue', minValue', s') /\
    reachable s' /\ max_ok maxValue' /\ min_ok minValue'.
Proof.
  intros Hf. revert i s maxValue minValue.
  induction n as [|n IH]; intros i s maxValue minValue Hs Hi Hn Hmax Hmin.
  - exists maxValue, minValue, s. cbn [test_1_loop]. auto.
  - destruct (call_returns_bounded fuel (sample_time i) s Hs
                (sample_time_ok i ltac:(lia)) (sample_fuel fuel i s Hs ltac:(lia) Hf))
      as (v & s' & E & Hs' & Hv).
    cbn [test_1_loop]. rewrite E.
    pose proof Hv as (_ & Fv & _). rewrite Fv.
    apply IH; [exact Hs' | lia | lia | apply fmax_ok; assumption | apply fmin_ok; assumption].
Qed.

(** Test 1 cannot fail: from every reachable state each of its 1001 calls
    returns a finite value, the maximum and the minimum stay within the
    tolerance, and [success] comes out as it went in. *)
Theorem test_1_cannot_fail (fuel : nat) (success : bool) (s : Sampler) :
  reachable s -> (401 <= fuel)%nat ->
  exists s' : Sampler, test_1 fuel success s = Some (success, s') /\ reachable s'.
Proof.
  intros Hs Hf.
  destruct (test_1_loop_finite fuel (Z.to_nat 1001) 0 s (fopp infinity) infinity
              Hf Hs ltac:(lia) ltac:(lia) (or_introl eq_refl) (or_introl eq_refl))
    as (maxValue & minValue & s' & E & Hs' & Hmax & Hmin).
  exists s'. split; [|exact Hs'].
  unfold test_1. rewrite E. cbv beta iota zeta.
  rewrite (bounds_check_passes _ _ Hmax Hmin). reflexivity.
Qed.

Lemma literal_call (fuel : nat) (inTime : float) (s : Sampler) :
  reachable s -> (401 <= fuel)%nat ->
  time_ok inTime -> Fnum inTime <= 400 * units (-2) ->
  exists (v : float) (s' : Sampler),
    SimValue fuel inTime s = Some (v, s') /\ reachable s' /\ value_ok v.
Proof.
  intros Hs Hf Ht Hb. apply call_returns_bounded; try assumption.
  pose proof (fuel_for_bound 400 inTime s (reachable_ok s Hs) ltac:(lia) Hb). lia.
Qed.

(** Test 2 cannot fail, whatever state the sampler is in: both calls return
    the same finite value, which [!=] does not tell apart. *)
Lemma test_2_runs (fuel : nat) (success : bool) (s : Sampler) :
  (401 <= fuel)%nat ->
  exists s' : Sampler, test_2 fuel success s = Some (success, s') /\ reachable s'.
Proof.
  intros Hf.
  destruct (literal_call fuel f0_5 (Sampler_init 123) (reach_init 123) Hf)
    as (v & s' & E & Hs' & Hv).
  { repeat split; reflexivity. }
  { apply Z.leb_le. reflexivity. }
  exists s'. split; [|exact Hs'].
  unfold test_2. rewrite (Seed_eq_init 123 s), E. cbv beta iota zeta.
  rewrite (Seed_eq_init 123 s'), E. cbv beta iota zeta.
  destruct Hv as (Vv & Fv & _).
  unfold fne. change (SFeqb v v) with (feq v v).
  rewrite feq_Fnum, Z.eqb_refl by assumption. reflexivity.
Qed.

Lemma test_3_returns (fuel : nat) (success : bool) :
  (401 <= fuel)%nat ->
  exists (pass : bool) (s' : Sampler),
    reachable s' /\ forall s : Sampler, test_3 fuel success s = Some (pass, s').
Proof.
  intros Hf.
  destruct (literal_call fuel f1_0 (Sampler_init 123) (reach_init 123) Hf)
    as (vC & s1 & E1 & _ & _).
  { repeat split; reflexivity. }
  { apply Z.leb_le. reflexivity. }
  destruct (literal_call fuel f1_0 (Sampler_init 456) (reach_init 456) Hf)
    as (vD & s2 & E2 & Hs2 & _).
  { repeat split; reflexivity. }
  { apply Z.leb_le. reflexivity. }
  exists (if feq vC vD then false else success), s2. split; [exact Hs2|].
  intros s. unfold test_3. rewrite (Seed_eq_init 123 s), E1. cbv beta iota zeta.
  rewrite (Seed_eq_init 456 s1), E2. reflexivity.
Qed.

Lemma test_4_returns (fuel : nat) (success : bool) :
  (401 <= fuel)%nat ->
  exists (pass : bool) (s' : Sampler),
    reachable s' /\ forall s : Sampler, test_4 fuel success s = Some (pass, s').
Proof.
  intros Hf.
  destruct (literal_call fuel f4_999 (Sampler_init 999) (reach_init 999) Hf)
    as (vB & s1 & E1 & Hs1 & _).
  { repeat split; reflexivity. }
  { apply Z.leb_le. reflexivity. }
  destruct (literal_call fuel f5_001 s1 Hs1 Hf) as (vA & s2 & E2 & Hs2 & _).
  { repeat split; reflexivity. }
  { apply Z.leb_le. reflexivity. }
  exists (if fgt (fabs (fsub vB vA)) f1_0 then false else success), s2.
  split; [exact Hs2|].
  intros s. unfold test_4. rewrite (Seed_eq_init 999 s), E1. cbv beta iota zeta.
  rewrite E2. reflexivity.
Qed.

Lemma test_5_loop_finite (fuel n : nat) (i : Z) (s : Sampler) :
  (401 <= fuel)%nat -> reachable s -> 0 <= i -> i + Z.of_nat n <= 10001 ->
  exists s' : Sampler, test_5_loop fuel n i s = Some (true, s') /\ reachable s'.
Proof.
  intros Hf. revert i s.
  induction n as [|n IH]; intros i s Hs Hi Hn.
  - exists s. cbn [test_5_loop]. auto.
  - destruct (call_returns_bounded fuel (sample_time i) s Hs
                (sample_time_ok i ltac:(lia)) (sample_fuel fuel i s Hs ltac:(lia) Hf))
      as (v & s' & E & Hs' & Hv).
    cbn [test_5_loop]. rewrite E.
    pose proof Hv as (_ & Fv & _). rewrite Fv.
    apply IH; [exact Hs' | lia | lia].
Qed.

(** Test 5 cannot fail, whatever state the sampler is in: after [Seed(2025)]
    each of the 10000 calls returns a finite value. *)
Theorem test_5_cannot_fail (fuel : nat) (success : bool) (s : Sampler) :
  (401 <= fuel)%nat ->
  exists s' : Sampler, test_5 fuel success s = Some (success, s') /\ reachable s'.
Proof.
  intros Hf.
  destruct (test_5_loop_finite fuel (Z.to_nat 10000) 0 (Sampler_init 2025)
              Hf (reach_init 2025) ltac:(lia) ltac:(lia)) as (s' & E & Hs').
  exists s'. split; [|exact Hs'].
  unfold test_5. rewrite (Seed_eq_init 2025 s), E. reflexivity.
Qed.

(** [main] returns, and its exit code is the verdict of tests 3 and 4 alone:
    0 when both pass, 1 otherwise. *)
Theorem test_main_verdict (fuel : nat) :
  (401 <= fuel)%nat ->
  exists (pass3 pass4 : bool) (s3 s4 : Sampler),
    (forall s : Sampler, test_3 fuel true s = Some (pass3, s3)) /\
    (forall s : Sampler, test_4 fuel pass3 s = Some (pass4, s4)) /\
    test_main fuel = Some (if pass4 then 0 else 1).
Proof.
  intros Hf.
  destruct (test_1_loop_finite fuel (Z.to_nat 1001) 0 (Sampler_new None)
              (fopp infinity) infinity Hf (reach_init default_seed)
              ltac:(lia) ltac:(lia) (or_introl eq_refl) (or_introl eq_refl))
    as (maxValue & minValue & s1 & E1 & _ & Hmax & Hmin).
  destruct (test_2_runs fuel true s1 Hf) as (s2 & E2 & _).
  destruct (test_3_returns fuel true Hf) as (pass3 & s3 & _ & E3).
  destruct (test_4_returns fuel pass3 Hf) as (pass4 & s4 & _ & E4).
  destruct (test_5_loop_finite fuel (Z.to_nat 10000) 0 (Sampler_init 2025)
              Hf (reach_init 2025) ltac:(lia) ltac:(lia)) as (s5 & E5 & _).
  exists pass3, pass4, s3, s4. split; [exact E3|]. split; [exact E4|].
  unfold test_main, test_1. rewrite E1. cbv beta iota zeta.
  rewrite (bounds_check_passes _ _ Hmax Hmin).
  rewrite E2. cbv beta iota zeta. rewrite (E3 s2). cbv beta iota zeta.
  rewrite (E4 s3). cbv beta iota zeta.
  unfold test_5. rewrite (Seed_eq_init 2025 s4), E5. reflexivity.
Qed.

(** *** Reseeding *)

(** The program [Seed(inSeed); a = SimValue(inTime); Seed(inSeed);
    b = SimValue(inTime)] at a finite time from [- 2 ^ 120] to below
    [2 ^ 23], whatever state the sampler is in: both calls return, [a] and
    [b] are one finite value within [-1, 1], and the comparison [a != b] of
    C++ is false. *)
Theorem reseed_compares_equal (fuel : nat) (inSeed : Z) (inTime : float) (s : Sampler) :
  time_ok inTime -> (fuel_for inTime (Sampler_init inSeed) <= fuel)%nat ->
  exists a : float,
    seed_twice fuel inSeed inTime s = Some (a, a) /\ value_ok a /\ fne a a = false.
Proof.
  intros Ht Hf.
  destruct (call_returns_bounded fuel inTime (Sampler_init inSeed) (reach_init inSeed) Ht Hf)
    as (a & s' & E & _ & Ha).
  exists a. split; [|split; [exact Ha|]].
  - unfold seed_twice. rewrite (Seed_eq_init inSeed s), E. cbv beta iota zeta.
    rewrite (Seed_eq_init inSeed s'), E. reflexivity.
  - destruct Ha as (Va & Fa & _).
    unfold fne. change (SFeqb a a) with (feq a a).
    rewrite feq_Fnum, Z.eqb_refl by assumption. reflexivity.
Qed.

(** *** The Python module *)

Lemma py_session_app (fuel : nat) (pre post : list py_call) (s : Sampler) :
  py_session fuel (pre ++ post) s =
  match py_session fuel pre s with
  | None => None
  | Some (rs, s') =>
      match py_session fuel post s' with
      | None => None
      | Some (rs', s'') => Some (rs ++ rs', s'')
      end
  end.
Proof.
  revert s. induction pre as [|c pre IH]; intros s; cbn [app py_session].
  - destruct (py_session fuel post s) as [[rs' s'']|]; reflexivity.
  - destruct (py_apply fuel c s) as [[r s1]|]; [|reflexivity].
    rewrite IH. destruct (py_session fuel pre s1) as [[rs s']|]; [|reflexivity].
    destruct (py_session fuel post s') as [[rs' s'']|]; reflexivity.
Qed.

Lemma py_session_length (fuel : nat) (calls : list py_call) (s s' : Sampler)
  (rs : list (option float)) :
  py_session fuel calls s = Some (rs, s') -> length rs = length calls.
Proof.
  revert s rs. induction calls as [|c calls IH]; intros s rs E; cbn [py_session] in E.
  - assert (rs = []) by congruence. subst rs. reflexivity.
  - destruct (py_apply fuel c s) as [[r s1]|]; [|discriminate E].
    destruct (py_session fuel calls s1) as [[rs1 s2]|] eqn:E1; [|discriminate E].
    assert (rs = r :: rs1) by congruence. assert (s2 = s') by congruence.
    subst rs s2. cbn [length]. f_equal. exact (IH s1 rs1 E1).
Qed.

(** [seed] forgets the past of the module: in a session, what the calls after
    a [seed(inSeed)] return, and the sampler they leave, are those of the same
    calls on a freshly constructed [Sampler(inSeed)], whatever was called
    before. *)
Theorem py_seed_forgets_history
  (fuel : nat) (pre post : list py_call) (inSeed : Z) (s s' : Sampler)
  (rs : list (option float)) :
  py_session fuel (pre ++ py_seed inSeed :: post) s = Some (rs, s') ->
  exists rs_pre rs_post : list (option float),
    rs = rs_pre ++ None :: rs_post /\ length rs_pre = length pre /\
    py_session fuel post (Sampler_init inSeed) = Some (rs_post, s').
Proof.
  intros E. rewrite py_session_app in E.
  destruct (py_session fuel pre s) as [[rs_pre s1]|] eqn:E1; [|discriminate E].
  cbn [py_session py_apply] in E. rewrite (Seed_eq_init inSeed s1) in E.
  destruct (py_session fuel post (Sampler_init inSeed)) as [[rs_post s2]|] eqn:E2;
    [|discriminate E].
  exists rs_pre, rs_post. repeat split.
  - congruence.
  - exact (py_session_length _ _ _ _ _ E1).
  - congruence.
Qed.

Lemma py_session_bounded (fuel : nat) (calls : list py_call) (s : Sampler) :
  (Z.to_nat (2 ^ 25 + 1) <= fuel)%nat -> reachable s -> Forall py_call_ok calls ->
  exists (rs : list (option float)) (s' : Sampler),
    py_session fuel calls s = Some (rs, s') /\ reachable s' /\ Forall py_result_ok rs.
Proof.
  intros Hf Hs Hc. revert s Hs.
  induction Hc as [|c calls Hc _ IH]; intros s Hs.
  - exists [], s. cbn [py_session]. auto.
  - destruct c as [inSeed|t]; cbn [py_session py_apply].
    + destruct (IH (Seed inSeed s) (reach_Seed inSeed s Hs)) as (rs & s' & E & Hs' & Hr).
      exists (None :: rs), s'. rewrite E. repeat split; try assumption.
      constructor; [exact I | exact Hr].
    + cbn [py_call_ok] in Hc.
      assert (Hfuel : (fuel_for t s <= fuel)%nat).
      { pose proof Hc as Hc'. apply time_ok_Fnum in Hc'. destruct Hc' as (_ & _ & _ & Hhi).
        assert (Hb : Fnum t <= 2 ^ 25 * units (-2))
          by (change (2 ^ 25 * units (-2)) with (units 23); lia).
        pose proof (fuel_for_bound (2 ^ 25) t s (reachable_ok s Hs) ltac:(lia) Hb). lia. }
      destruct (call_returns_bounded fuel t s Hs Hc Hfuel) as (v & s1 & E1 & Hs1 & Hv).
      rewrite E1.
      destruct (IH s1 Hs1) as (rs & s' & E & Hs' & Hr).
      exists (Some v :: rs), s'. rewrite E. repeat split; try assumption.
      constructor; [exact Hv | exact Hr].
Qed.

(** Every session on the imported module whose [sim_value] calls are at finite
    times from [- 2 ^ 120] to below [2 ^ 23] runs to its end, and each value
    it returns to Python is finite and within [-1, 1]. *)
Theorem py_outputs_bounded (fuel : nat) (calls : list py_call) :
  (Z.to_nat (2 ^ 25 + 1) <= fuel)%nat -> Forall py_call_ok calls ->
  exists (rs : list (option float)) (s' : Sampler),
    py_import fuel calls = Some (rs, s') /\
    length rs = length calls /\ Forall py_result_ok rs.
Proof.
  intros Hf Hc.
  destruct (py_session_bounded fuel calls theSampler Hf (reach_init 12345) Hc)
    as (rs & s' & E & _ & Hr).
  exists rs, s'. split; [exact E|]. split; [|exact Hr].
  exact (py_session_length _ _ _ _ _ E).
Qed.

(** *** Equal seeds, equal values *)

Lemma returned_value_ok (fuel : nat) (inTime v : float) (s s' : Sampler) :
  cycle_ok s -> time_lower_ok inTime -> SimValue fuel inTime s = Some (v, s') ->
  value_ok v /\ cycle_ok s'.
Proof.
  intros Ok Ht E. apply time_lower_ok_Fnum in Ht. destruct Ht as (Vt & Ft & Hlo).
  unfold SimValue in E.
  destruct (advance fuel inTime s) as [s1|] eqn:Ea; [|discriminate E].
  assert (s1 = s') by congruence. assert (v = value_at inTime s1) by congruence.
  subst s1 v.
  pose proof (advance_ok _ _ _ _ Ok Ea) as Ok'. split; [|exact Ok'].
  destruct (Z_lt_ge_dec (Fnum inTime) (units 25)) as [Hlt|Hge].
  - assert (Ht : Z.abs (Fnum inTime) <= units 120).
    { pose proof (units_le 25 120 ltac:(lia)). lia. }
    destruct (value_at_bounded inTime s' Ok' Vt Ft Ht) as (Vv & Fv & Bv).
    apply value_ok_Fnum. repeat split; try assumption.
    destruct Ok' as (_ & _ & Ha). pose proof Ha as (Va & _).
    apply between_Fnum in Ha; try reflexivity. destruct Ha as (Fa & _ & Hle).
    destruct (fabs_facts (value_at inTime s')) as (Vf & Ff & Ef).
    rewrite fle_Fnum in Bv by (rewrite ?Vf, ?Ff; assumption). apply Z.leb_le in Bv.
    rewrite Ef in Bv. change (Fnum f1_0) with (units 0) in Hle. lia.
  - assert (Hd : fle (fpow2 25) inTime = true).
    { rewrite fle_Fnum by (try assumption; reflexivity).
      rewrite (Fnum_fpow2 25) by lia. apply Z.leb_le. lia. }
    rewrite (diverges_past_2_25 inTime s Ok Vt Ft Hd fuel) in Ea. discriminate Ea.
Qed.

Lemma value_ok_feq (v : float) : value_ok v -> feq v v = true.
Proof. intros (V & F & _). rewrite feq_Fnum by assumption. apply Z.eqb_refl. Qed.

Lemma run_values_ok (fuel : nat) (times vs : list float) (s : Sampler) :
  cycle_ok s -> Forall time_lower_ok times -> run fuel times s = Some vs ->
  Forall value_ok vs.
Proof.
  intros Ok Ht. revert s vs Ok.
  induction Ht as [|t times Ht _ IH]; intros s vs Ok E; cbn [run] in E.
  - assert (vs = []) by congruence. subst vs. constructor.
  - destruct (SimValue fuel t s) as [[v s']|] eqn:Ev; [|discriminate E].
    destruct (run fuel times s') as [vs'|] eqn:Er; [|discriminate E].
    assert (vs = v :: vs') by congruence. subst vs.
    destruct (returned_value_ok fuel t v s s' Ok Ht Ev) as (Hv & Ok').
    constructor; [exact Hv | exact (IH s' vs' Ok' Er)].
Qed.

Lemma run_returns (fuel : nat) (times : list float) (s : Sampler) :
  (Z.to_nat (2 ^ 25 + 1) <= fuel)%nat -> reachable s -> Forall time_ok times ->
  exists vs : list float, run fuel times s = Some vs.
Proof.
  intros Hf Hs Ht. revert s Hs.
  induction Ht as [|t times Ht _ IH]; intros s Hs; cbn [run].
  - exists []. reflexivity.
  - assert (Hfuel : (fuel_for t s <= fuel)%nat).
    { pose proof Ht as Ht'. apply time_ok_Fnum in Ht'. destruct Ht' as (_ & _ & _ & Hhi).
      assert (Hb : Fnum t <= 2 ^ 25 * units (-2))
        by (change (2 ^ 25 * units (-2)) with (units 23); lia).
      pose proof (fuel_for_bound (2 ^ 25) t s (reachable_ok s Hs) ltac:(lia) Hb). lia. }
    destruct (call_returns_bounded fuel t s Hs Ht Hfuel) as (v & s' & E & Hs' & _).
    rewrite E. destruct (IH s' Hs') as [vs Er]. rewrite Er.
    exists (v :: vs). reflexivity.
Qed.

(** C2, as the code has it.  Take one seed, and times that are finite and at
    least [- 2 ^ 120].  Whenever [Seed(s); a = SimValue(t); Seed(s);
    b = SimValue(t)] yields [a] and [b], they are one value and [a == b] holds;
    it does yield them when [t] is below [2 ^ 23].  Two samplers seeded alike
    return the same values for the same sequence of times: whenever one run
    returns its values the other returns the same ones, each equal to itself
    under [==]; and the runs do return when the times are below [2 ^ 23]. *)
Theorem same_seed_equal_values (inSeed : Z) (fuel : nat) :
  (forall (inTime a b : float) (s : Sampler),
     time_lower_ok inTime ->
     seed_twice fuel inSeed inTime s = Some (a, b) ->
     a = b /\ feq a b = true) /\
  (forall (inTime : float) (s : Sampler),
     time_ok inTime -> (fuel_for inTime (Sampler_init inSeed) <= fuel)%nat ->
     exists a : float, seed_twice fuel inSeed inTime s = Some (a, a)) /\
  (forall (times vs : list float) (s1 s2 : Sampler),
     Forall time_lower_ok times ->
     run fuel times (Seed inSeed s1) = Some vs ->
     run fuel times (Seed inSeed s2) = Some vs /\
     Forall (fun v : float => feq v v = true) vs) /\
  (forall (times : list float) (s1 s2 : Sampler),
     Forall time_ok times -> (Z.to_nat (2 ^ 25 + 1) <= fuel)%nat ->
     exists vs : list float,
       run fuel times (Seed inSeed s1) = Some vs /\
       run fuel times (Seed inSeed s2) = Some vs).
Proof.
  split; [|split; [|split]].
  - intros inTime a b s Ht E. unfold seed_twice in E.
    rewrite (Seed_eq_init inSeed s) in E.
    destruct (SimValue fuel inTime (Sampler_init inSeed)) as [[a' s1]|] eqn:Ea;
      [|discriminate E].
    rewrite (Seed_eq_init inSeed s1), Ea in E.
    assert (a' = a) by congruence. assert (a' = b) by congruence. subst a' b.
    split; [reflexivity|].
    destruct (returned_value_ok fuel inTime a _ s1 (Sampler_init_ok inSeed) Ht Ea)
      as (Hv & _).
    exact (value_ok_feq a Hv).
  - intros inTime s Ht Hf.
    destruct (call_returns_bounded fuel inTime (Sampler_init inSeed)
                (reach_init inSeed) Ht Hf) as (a & s' & E & _ & _).
    exists a. unfold seed_twice.
    rewrite (Seed_eq_init inSeed s), E. cbv beta iota zeta.
    rewrite (Seed_eq_init inSeed s'), E. reflexivity.
  - intros times vs s1 s2 Ht E. rewrite (Seed_eq_init inSeed s1) in E.
    rewrite (Seed_eq_init inSeed s2). split; [exact E|].
    pose proof (run_values_ok fuel times vs _ (Sampler_init_ok inSeed) Ht E) as Hv.
    exact (Forall_impl _ value_ok_feq Hv).
  - intros times s1 s2 Ht Hf.
    destruct (run_returns fuel times (Sampler_init inSeed) Hf (reach_init inSeed) Ht)
      as [vs E].
    exists vs. rewrite (Seed_eq_init inSeed s1), (Seed_eq_init inSeed s2). auto.
Qed.

(** *** The phase before the cycle start *)

(** C5 fails on a freshly constructed sampler, whatever its seed and whatever
    the numbers drawn: at [-1.0f] the loop is skipped and the phase computed
    is negative, outside the range [0, 2 pi) that the comment in the source
    promises. *)
Theorem fresh_rewind_phase_negative (inSeed : Z) (fuel : nat) :
  advance fuel t_minus_1 (Sampler_init inSeed) = Some (Sampler_init inSeed) /\
  flt (phase t_minus_1 (Sampler_init inSeed)) f0_0 = true /\
  fle f0_0 (phase t_minus_1 (Sampler_init inSeed)) = false.
Proof.
  pose proof (Sampler_init_ok inSeed) as Ok.
  destruct (cycle_end_facts _ Ok) as (Ve & Fe & Hpos & _).
  assert (Ec : m_CycleStart (Sampler_init inSeed) = f0_0).
  { unfold Sampler_init.
    destruct (draws_fields (mkSampler f0_0 f0_0 f0_0 (rng_seed inSeed))) as [E _]. exact E. }
  assert (El : cycle_elapsed t_minus_1 (Sampler_init inSeed) = false).
  { unfold cycle_elapsed. rewrite fge_Fnum by (try assumption; reflexivity).
    apply Z.leb_gt. change (Fnum t_minus_1) with (- 2 ^ 149). lia. }
  assert (Hneg : flt (phase t_minus_1 (Sampler_init inSeed)) f0_0 = true).
  { unfold phase. rewrite Ec. apply fdiv_minus_two_pi. apply Ok. }
  split; [|split; [exact Hneg|]].
  - destruct fuel; cbn [advance]; rewrite El; reflexivity.
  - apply flt_not_fge in Hneg. exact Hneg.
Qed.

End Sine.

End Invariant.

End SamplerFacts.

Lemma scripted_draws_in_range : draws_in_range Scripted.uniform_real.
Proof.
  intros a b g Va Vb Fa Fb Hab. unfold Scripted.uniform_real. cbn [fst].
  destruct (valid (Scripted.script (fst g) (snd g))
            && fle a (Scripted.script (fst g) (snd g))
            && fle (Scripted.script (fst g) (snd g)) b) eqn:E.
  - apply andb_true_iff in E. destruct E as [E E3].
    apply andb_true_iff in E. destruct E as [E1 E2]. repeat split; assumption.
  - repeat split; try assumption.
    rewrite fle_Fnum by assumption. apply Z.leb_refl.
Qed.

Lemma scripted_sine_spec : sine_spec Scripted.sinf.
Proof.
  repeat split.
  - destruct x as [s|s| |s m e]; try discriminate; cbn [Scripted.sinf]; [assumption|].
    destruct (fle (fabs (S754_finite s m e)) f1_0); [assumption | reflexivity].
  - destruct x as [s|s| |s m e]; try discriminate; cbn [Scripted.sinf]; [reflexivity|].
    destruct (fle (fabs (S754_finite s m e)) f1_0); reflexivity.
  - destruct x as [s|s| |s m e]; try discriminate; cbn [Scripted.sinf]; [reflexivity|].
    destruct (fle (fabs (S754_finite s m e)) f1_0) eqn:E; [exact E | reflexivity].
  - intros x Hx. destruct x; try discriminate; reflexivity.
Qed.

Lemma scripted_fresh_reachable :
  reachable Scripted.rng_seed Scripted.uniform_real Scripted.sinf Scripted.fresh.
Proof. apply reach_init. Qed.

(** ** Worked examples *)

(** C6 on the scripted engine: the fresh sampler. *)
Lemma period_amplitude_in_range_witness :
  (fle f0_5 (m_Period Scripted.fresh) = true /\
   fle (m_Period Scripted.fresh) f1_5 = true) /\
  (fle f0_1 (m_Amplitude Scripted.fresh) = true /\
   fle (m_Amplitude Scripted.fresh) f1_0 = true).
Proof.
  exact (period_amplitude_in_range Scripted.Rng Scripted.rng_seed Scripted.uniform_real
           Scripted.sinf scripted_draws_in_range Scripted.fresh scripted_fresh_reachable).
Defined.

(** C9 on the scripted engine: the times 0.25 and 0.5 in the first cycle,
    which ends at 0.62. *)
Lemma within_cycle_pure_witness :
  SimValue Scripted.uniform_real Scripted.sinf 0 t_0_25 Scripted.fresh =
    Some (value_at Scripted.sinf t_0_25 Scripted.fresh, Scripted.fresh) /\
  run Scripted.uniform_real Scripted.sinf 0 [t_0_25; f0_5] Scripted.fresh =
    Some [value_at Scripted.sinf t_0_25 Scripted.fresh;
          value_at Scripted.sinf f0_5 Scripted.fresh] /\
  run Scripted.uniform_real Scripted.sinf 0 [f0_5; t_0_25] Scripted.fresh =
    Some [value_at Scripted.sinf f0_5 Scripted.fresh;
          value_at Scripted.sinf t_0_25 Scripted.fresh].
Proof.
  exact (within_cycle_pure Scripted.Rng Scripted.uniform_real Scripted.sinf 0
           t_0_25 f0_5 Scripted.fresh eq_refl eq_refl).
Defined.

(** C4 on the scripted engine: [theSampler.SimValue(1e8f)] has not returned
    after a thousand iterations (nor after any other number). *)
Lemma SimValue_never_returns_witness :
  SimValue Scripted.uniform_real Scripted.sinf 1000 t_1e8 Scripted.fresh = None.
Proof.
  exact (SimValue_never_returns_past_2_25 Scripted.Rng Scripted.rng_seed
           Scripted.uniform_real Scripted.sinf scripted_draws_in_range
           t_1e8 Scripted.fresh scripted_fresh_reachable eq_refl eq_refl eq_refl
           1000%nat).
Defined.

(** C3 on the scripted engine: [theSampler.SimValue(0.75f)]. *)
Lemma SimValue_bounded_witness :
  exists (v : float) (s' : Sampler Scripted.Rng),
    SimValue Scripted.uniform_real Scripted.sinf
      (fuel_for t_0_75 Scripted.fresh) t_0_75 Scripted.fresh = Some (v, s') /\
    is_finite v = true /\
    fle (fabs v) (m_Amplitude s') = true /\
    fle (m_Amplitude s') f1_0 = true.
Proof.
  destruct (SimValue_bounded Scripted.Rng Scripted.rng_seed Scripted.uniform_real
              Scripted.sinf scripted_draws_in_range scripted_sine_spec
              t_0_75 Scripted.fresh scripted_fresh_reachable eq_refl eq_refl eq_refl)
    as [Hb Hr].
  destruct (Hr eq_refl) as (v & s' & E).
  exists v, s'. split; [exact E | exact (Hb _ _ _ E)].
Defined.

(** C3 as stated fails: on a fresh sampler the call at [-1e38f], a finite
    time, returns NaN. *)
Lemma far_rewind_not_finite :
  ~ (forall (inSeed : Z) (inTime : float),
       valid inTime = true -> is_finite inTime = true ->
       exists (fuel : nat) (v : float) (s' : Sampler Scripted.Rng),
         SimValue Scripted.uniform_real Scripted.sinf fuel inTime
           (Sampler_init Scripted.rng_seed Scripted.uniform_real inSeed) = Some (v, s') /\
         is_finite v = true /\
         fle (fabs v) (m_Amplitude s') = true /\
         fle (m_Amplitude s') f1_0 = true).
Proof.
  intros H. destruct (H 12345 t_minus_1e38 eq_refl eq_refl) as (fuel & v & s' & E & Fv & _).
  unfold t_minus_1e38 in E.
  rewrite (far_rewind_is_nan Scripted.Rng Scripted.rng_seed Scripted.uniform_real
             Scripted.sinf scripted_draws_in_range scripted_sine_spec
             9860761 103 12345 fuel eq_refl) in E.
  injection E as <- _. discriminate.
Qed.

(** C10 on the scripted engine: [theSampler.SimValue(-1.0f)]. *)
Lemma rewind_returns_witness :
  (forall fuel : nat,
     SimValue Scripted.uniform_real Scripted.sinf fuel t_minus_1 Scripted.fresh =
     Some (value_at Scripted.sinf t_minus_1 Scripted.fresh, Scripted.fresh)) /\
  (is_finite (phase t_minus_1 Scripted.fresh) = true /\
   fle (phase t_minus_1 Scripted.fresh) f0_0 = true /\
   is_finite (value_at Scripted.sinf t_minus_1 Scripted.fresh) = true /\
   fle (fabs (value_at Scripted.sinf t_minus_1 Scripted.fresh))
       (m_Amplitude Scripted.fresh) = true).
Proof.
  destruct (rewind_returns Scripted.Rng Scripted.rng_seed Scripted.uniform_real
              Scripted.sinf scripted_draws_in_range scripted_sine_spec
              t_minus_1 Scripted.fresh scripted_fresh_reachable eq_refl eq_refl eq_refl)
    as [Hr Hb].
  exact (conj Hr (Hb eq_refl)).
Defined.

(** C10 as stated fails: on a fresh sampler the call at [-FLT_MAX], a time
    before the cycle start, returns NaN, which no amplitude bounds. *)
Lemma rewind_not_bounded :
  ~ (forall (inSeed : Z) (inTime : float),
       valid inTime = true -> is_finite inTime = true ->
       flt inTime (m_CycleStart
                     (Sampler_init Scripted.rng_seed Scripted.uniform_real inSeed)) = true ->
       exists v : float,
         SimValue Scripted.uniform_real Scripted.sinf 0 inTime
           (Sampler_init Scripted.rng_seed Scripted.uniform_real inSeed) =
         Some (v, Sampler_init Scripted.rng_seed Scripted.uniform_real inSeed) /\
         fle (fabs v)
             (m_Amplitude (Sampler_init Scripted.rng_seed Scripted.uniform_real inSeed))
         = true).
Proof.
  intros H. destruct (H 12345 t_lowest eq_refl eq_refl eq_refl) as (v & E & Bv).
  unfold t_lowest in E.
  rewrite (far_rewind_is_nan Scripted.Rng Scripted.rng_seed Scripted.uniform_real
             Scripted.sinf scripted_draws_in_range scripted_sine_spec
             16777215 104 12345 0 eq_refl) in E.
  injection E as <-. discriminate.
Qed.

(** The phase of [theSampler.SimValue(0.75f)] on the scripted engine. *)
Lemma phase_in_range_witness :
  exists s' : Sampler Scripted.Rng,
    advance Scripted.uniform_real (fuel_for t_0_75 Scripted.fresh)
      t_0_75 Scripted.fresh = Some s' /\
    fle f0_0 (phase t_0_75 s') = true /\
    fle (phase t_0_75 s') two_pi_up = true.
Proof.
  destruct (phase_in_range Scripted.Rng Scripted.rng_seed Scripted.uniform_real
              Scripted.sinf scripted_draws_in_range
              t_0_75 Scripted.fresh scripted_fresh_reachable eq_refl eq_refl eq_refl)
    as [Hb Hr].
  destruct (Hr eq_refl) as (s' & E).
  exists s'. split; [exact E | exact (Hb _ _ E)].
Defined.

(** No statement that puts the phase in [0, 2 pi) at every finite time holds:
    on a fresh sampler the loop is skipped at [-1.0f] and the phase is
    negative. *)
Lemma phase_negative_before_start :
  ~ (forall (inSeed : Z) (inTime : float) (fuel : nat) (s' : Sampler Scripted.Rng),
       valid inTime = true -> is_finite inTime = true ->
       advance Scripted.uniform_real fuel inTime
         (Sampler_init Scripted.rng_seed Scripted.uniform_real inSeed) = Some s' ->
       fle f0_0 (phase inTime s') = true /\ flt (phase inTime s') two_pi = true).
Proof.
  intros H.
  destruct (H 12345 t_minus_1 0%nat Scripted.fresh eq_refl eq_refl eq_refl) as [H0 _].
  vm_compute in H0. discriminate.
Qed.

(** The upper end of the range of C5 is reached: with the periods 0.62033051
    and 1.29321122 the call at 1.91354167 leaves the phase at the [float]
    that follows [two_pi]. *)
Lemma phase_reaches_two_pi_up :
  exists s' : Sampler Scripted.Rng,
    advance Scripted.uniform_real 1 (S754_finite false 16051951 (-23)) Scripted.fresh
      = Some s' /\
    phase (S754_finite false 16051951 (-23)) s' = two_pi_up /\
    flt two_pi two_pi_up = true.
Proof. eexists. repeat split. Qed.

(** The boundary of the first cycle on the scripted engine. *)
Lemma boundary_value_zero_witness :
  SimValue Scripted.uniform_real Scripted.sinf 1
    (fadd (m_CycleStart Scripted.fresh) (m_Period Scripted.fresh)) Scripted.fresh =
  Some (S754_zero false, next_cycle Scripted.uniform_real Scripted.fresh).
Proof.
  exact (proj2 (boundary_value_zero Scripted.Rng Scripted.rng_seed Scripted.uniform_real
                  Scripted.sinf scripted_draws_in_range scripted_sine_spec
                  Scripted.fresh scripted_fresh_reachable) eq_refl).
Defined.

(** On the scripted engine [theSampler.SimValue(0.75f)] returns. *)
Lemma SimValue_returns_witness :
  exists (v : float) (s' : Sampler Scripted.Rng),
    forall fuel : nat,
      (fuel_for t_0_75 Scripted.fresh <= fuel)%nat ->
      SimValue Scripted.uniform_real Scripted.sinf fuel t_0_75 Scripted.fresh =
      Some (v, s').
Proof.
  exact (SimValue_returns_below_2_23 Scripted.Rng Scripted.rng_seed
           Scripted.uniform_real Scripted.sinf scripted_draws_in_range
           t_0_75 Scripted.fresh scripted_fresh_reachable eq_refl eq_refl eq_refl).
Defined.

(** ** A reachable cycle end at which the call never returns *)

Lemma steady_next (k : Z) (n : nat) :
  0 <= k < 2 ^ 24 ->
  next_cycle Scripted.uniform_real (steady k n) = steady (k + 1) (S (S n)).
Proof.
  intros Hk. unfold next_cycle, steady. cbn. rewrite (fadd_Zfloat_one k Hk). reflexivity.
Qed.

Lemma steady_elapsed (K k : Z) (n : nat) :
  0 <= k < 2 ^ 24 -> 0 <= K <= 2 ^ 24 ->
  cycle_elapsed (Zfloat K) (steady k n) = (k + 1 <=? K).
Proof.
  intros Hk HK. unfold cycle_elapsed, steady. cbn [m_CycleStart m_Period].
  rewrite (fadd_Zfloat_one k Hk).
  destruct (Zfloat_facts K HK) as (V & F & E).
  destruct (Zfloat_facts (k + 1) ltac:(lia)) as (V1 & F1 & E1).
  rewrite fge_Fnum, E, E1 by assumption.
  destruct (Z.leb_spec (k + 1) K); [apply Z.leb_le | apply Z.leb_gt]; nia.
Qed.

(** The loop of [SimValue(K)] on the steady sampler: one iteration for each
    unit of time. *)
Lemma steady_advance (K : Z) (j : nat) (k : Z) (n : nat) :
  0 <= k -> k + Z.of_nat j = K -> K < 2 ^ 24 ->
  advance Scripted.uniform_real j (Zfloat K) (steady k n) =
  Some (steady K (2 * j + n)).
Proof.
  revert k n. induction j as [|j IH]; intros k n Hk E HK.
  - assert (k = K) by lia. subst k. cbn [advance].
    rewrite steady_elapsed by lia.
    replace (K + 1 <=? K) with false by (symmetry; apply Z.leb_gt; lia). reflexivity.
  - cbn [advance]. rewrite steady_elapsed by lia.
    replace (k + 1 <=? K) with true by (symmetry; apply Z.leb_le; lia).
    rewrite steady_next by lia. rewrite (IH (k + 1) (S (S n))) by lia.
    do 2 f_equal. lia.
Qed.

(** At [2 ^ 24] a period of 1.0 is rounded away. *)
Lemma steady_stuck (fuel n : nat) :
  advance Scripted.uniform_real fuel (fpow2 24) (steady (2 ^ 24) n) = None.
Proof.
  revert n. induction fuel as [|fuel IH]; intros n; [reflexivity|].
  cbn [advance].
  change (cycle_elapsed (fpow2 24) (steady (2 ^ 24) n)) with true. cbv iota.
  change (next_cycle Scripted.uniform_real (steady (2 ^ 24) n))
    with (steady (2 ^ 24) (S (S n))).
  apply IH.
Qed.

(** C1 fails on a reachable state.  With the steady script,
    [SimValue(16777215.0f)] returns and leaves a cycle that starts at
    16777215 with period 1.0; the call at its end, 16777216 = [2 ^ 24], never
    returns. *)
Theorem boundary_call_never_returns :
  exists (v : float) (s : Sampler Scripted.Rng),
    SimValue Scripted.uniform_real Scripted.sinf (Z.to_nat 16777215)
      (Zfloat 16777215) (Sampler_init Scripted.rng_seed Scripted.uniform_real 1)
    = Some (v, s) /\
    reachable Scripted.rng_seed Scripted.uniform_real Scripted.sinf s /\
    fadd (m_CycleStart s) (m_Period s) = fpow2 24 /\
    forall fuel : nat,
      SimValue Scripted.uniform_real Scripted.sinf fuel
        (fadd (m_CycleStart s) (m_Period s)) s = None.
Proof.
  pose proof (steady_advance 16777215 (Z.to_nat 16777215) 0 2 ltac:(lia)
                ltac:(rewrite Z2Nat.id; lia) ltac:(lia)) as E.
  change (steady 0 2) with (Sampler_init Scripted.rng_seed Scripted.uniform_real 1) in E.
  set (s := steady 16777215 (2 * Z.to_nat 16777215 + 2)) in *.
  assert (Es : SimValue Scripted.uniform_real Scripted.sinf (Z.to_nat 16777215)
                 (Zfloat 16777215) (Sampler_init Scripted.rng_seed Scripted.uniform_real 1)
               = Some (value_at Scripted.sinf (Zfloat 16777215) s, s)).
  { unfold SimValue. rewrite E. reflexivity. }
  assert (Eend : fadd (m_CycleStart s) (m_Period s) = fpow2 24).
  { unfold s, steady. cbn [m_CycleStart m_Period]. rewrite fadd_Zfloat_one by lia. reflexivity. }
  exists (value_at Scripted.sinf (Zfloat 16777215) s), s.
  split; [exact Es|]. split; [|split; [exact Eend|]].
  - eapply reach_SimValue; [apply reach_init | | exact Es].
    apply (Zfloat_facts 16777215). lia.
  - intros fuel. rewrite Eend. unfold SimValue.
    destruct fuel as [|fuel]; cbn [advance].
    + change (cycle_elapsed (fpow2 24) s) with (fge (fpow2 24) (fadd (m_CycleStart s) (m_Period s))).
      rewrite Eend. reflexivity.
    + change (cycle_elapsed (fpow2 24) s) with (fge (fpow2 24) (fadd (m_CycleStart s) (m_Period s))).
      rewrite Eend. change (fge (fpow2 24) (fpow2 24)) with true. cbv iota.
      unfold s. rewrite steady_next by lia.
      change (16777215 + 1) with (2 ^ 24). rewrite steady_stuck. reflexivity.
Qed.

(** ** Worked examples: successive calls, the Python module, the test program *)

(** On the scripted engine the fresh sampler starts its cycle at 0. *)
Lemma cycle_start_in_range_witness :
  is_finite (m_CycleStart Scripted.fresh) = true /\
  fle f0_0 (m_CycleStart Scripted.fresh) = true /\
  flt (m_CycleStart Scripted.fresh) (fpow2 25) = true.
Proof.
  exact (cycle_start_in_range Scripted.Rng Scripted.rng_seed Scripted.uniform_real
           Scripted.sinf scripted_draws_in_range Scripted.fresh scripted_fresh_reachable).
Defined.

(** [theSampler.SimValue(0.75f)] moves the cycle start from 0 to 0.62. *)
Lemma cycle_start_never_decreases_witness :
  fle (m_CycleStart Scripted.fresh)
      (m_CycleStart (next_cycle Scripted.uniform_real Scripted.fresh)) = true.
Proof.
  exact (cycle_start_never_decreases Scripted.Rng Scripted.rng_seed Scripted.uniform_real
           Scripted.sinf scripted_draws_in_range 1 t_0_75
           (value_at Scripted.sinf t_0_75 (next_cycle Scripted.uniform_real Scripted.fresh))
           Scripted.fresh (next_cycle Scripted.uniform_real Scripted.fresh)
           scripted_fresh_reachable eq_refl).
Defined.

(** [theSampler.SimValue(0.75f)], called a second time. *)
Lemma SimValue_repeatable_witness :
  SimValue Scripted.uniform_real Scripted.sinf 0 t_0_75
    (next_cycle Scripted.uniform_real Scripted.fresh) =
  Some (value_at Scripted.sinf t_0_75 (next_cycle Scripted.uniform_real Scripted.fresh),
        next_cycle Scripted.uniform_real Scripted.fresh).
Proof.
  exact (SimValue_repeatable Scripted.Rng Scripted.uniform_real Scripted.sinf 1 0 t_0_75
           (value_at Scripted.sinf t_0_75 (next_cycle Scripted.uniform_real Scripted.fresh))
           Scripted.fresh (next_cycle Scripted.uniform_real Scripted.fresh) eq_refl).
Defined.

(** After [theSampler.SimValue(0.75f)] the cycle runs from 0.62 to 1.91. *)
Lemma current_cycle_contains_time_witness :
  fle (m_CycleStart (next_cycle Scripted.uniform_real Scripted.fresh)) t_0_75 = true /\
  flt t_0_75
      (fadd (m_CycleStart (next_cycle Scripted.uniform_real Scripted.fresh))
            (m_Period (next_cycle Scripted.uniform_real Scripted.fresh))) = true.
Proof.
  exact (current_cycle_contains_time Scripted.Rng Scripted.rng_seed Scripted.uniform_real
           Scripted.sinf scripted_draws_in_range 1 t_0_75
           (value_at Scripted.sinf t_0_75 (next_cycle Scripted.uniform_real Scripted.fresh))
           Scripted.fresh (next_cycle Scripted.uniform_real Scripted.fresh)
           scripted_fresh_reachable eq_refl eq_refl eq_refl eq_refl).
Defined.

(** [SimValue(0.75f)] after [SimValue(0.25f)] is [SimValue(0.75f)]. *)
Lemma earlier_call_changes_nothing_witness :
  SimValue Scripted.uniform_real Scripted.sinf (0 + 1) t_0_75 Scripted.fresh =
  Some (value_at Scripted.sinf t_0_75 (next_cycle Scripted.uniform_real Scripted.fresh),
        next_cycle Scripted.uniform_real Scripted.fresh).
Proof.
  exact (earlier_call_changes_nothing Scripted.Rng Scripted.rng_seed Scripted.uniform_real
           Scripted.sinf scripted_draws_in_range 0 1 t_0_25 t_0_75
           (value_at Scripted.sinf t_0_25 Scripted.fresh)
           (value_at Scripted.sinf t_0_75 (next_cycle Scripted.uniform_real Scripted.fresh))
           Scripted.fresh Scripted.fresh (next_cycle Scripted.uniform_real Scripted.fresh)
           scripted_fresh_reachable eq_refl eq_refl eq_refl eq_refl eq_refl eq_refl eq_refl).
Defined.

(** [theSampler.SimValue] at NaN and at the two infinities. *)
Lemma SimValue_nonfinite_time_witness :
  SimValue Scripted.uniform_real Scripted.sinf 7 S754_nan Scripted.fresh =
    Some (S754_nan, Scripted.fresh) /\
  SimValue Scripted.uniform_real Scripted.sinf 7 (S754_infinity true) Scripted.fresh =
    Some (S754_nan, Scripted.fresh) /\
  SimValue Scripted.uniform_real Scripted.sinf 7 (S754_infinity false) Scripted.fresh = None.
Proof.
  exact (SimValue_nonfinite_time Scripted.Rng Scripted.rng_seed Scripted.uniform_real
           Scripted.sinf scripted_draws_in_range scripted_sine_spec 7
           Scripted.fresh scripted_fresh_reachable).
Defined.

(** Test 2 of the test program, on the scripted engine. *)
Lemma reseed_compares_equal_witness :
  exists a : float,
    seed_twice Scripted.Rng Scripted.rng_seed Scripted.uniform_real Scripted.sinf
      (fuel_for f0_5 (Sampler_init Scripted.rng_seed Scripted.uniform_real 123))
      123 f0_5 Scripted.fresh = Some (a, a) /\
    value_ok a /\ fne a a = false.
Proof.
  exact (reseed_compares_equal Scripted.Rng Scripted.rng_seed Scripted.uniform_real
           Scripted.sinf scripted_draws_in_range scripted_sine_spec
           (fuel_for f0_5 (Sampler_init Scripted.rng_seed Scripted.uniform_real 123))
           123 f0_5 Scripted.fresh
           (conj eq_refl (conj eq_refl (conj eq_refl eq_refl)))
           (le_n _)).
Defined.

(** Test 1 on the scripted engine. *)
Lemma test_1_cannot_fail_witness :
  exists s' : Sampler Scripted.Rng,
    test_1 Scripted.uniform_real Scripted.sinf 401 true Scripted.fresh = Some (true, s') /\
    reachable Scripted.rng_seed Scripted.uniform_real Scripted.sinf s'.
Proof.
  exact (test_1_cannot_fail Scripted.Rng Scripted.rng_seed Scripted.uniform_real
           Scripted.sinf scripted_draws_in_range scripted_sine_spec
           401 true Scripted.fresh scripted_fresh_reachable (le_n 401)).
Defined.

(** Test 5 on the scripted engine. *)
Lemma test_5_cannot_fail_witness :
  exists s' : Sampler Scripted.Rng,
    test_5 Scripted.rng_seed Scripted.uniform_real Scripted.sinf 401 true Scripted.fresh
    = Some (true, s') /\
    reachable Scripted.rng_seed Scripted.uniform_real Scripted.sinf s'.
Proof.
  exact (test_5_cannot_fail Scripted.Rng Scripted.rng_seed Scripted.uniform_real
           Scripted.sinf scripted_draws_in_range scripted_sine_spec
           401 true Scripted.fresh (le_n 401)).
Defined.

(** [main] on the scripted engine. *)
Lemma test_main_verdict_witness :
  exists (pass3 pass4 : bool) (s3 s4 : Sampler Scripted.Rng),
    (forall s : Sampler Scripted.Rng,
       test_3 Scripted.rng_seed Scripted.uniform_real Scripted.sinf 401 true s
       = Some (pass3, s3)) /\
    (forall s : Sampler Scripted.Rng,
       test_4 Scripted.rng_seed Scripted.uniform_real Scripted.sinf 401 pass3 s
       = Some (pass4, s4)) /\
    test_main Scripted.rng_seed Scripted.uniform_real Scripted.sinf 401 =
    Some (if pass4 then 0 else 1).
Proof.
  exact (test_main_verdict Scripted.Rng Scripted.rng_seed Scripted.uniform_real
           Scripted.sinf scripted_draws_in_range scripted_sine_spec 401 (le_n 401)).
Defined.

(** A session on the scripted engine: [sim_value(0.25)], [seed(7)],
    [sim_value(0.25)]. *)
Lemma py_seed_forgets_history_witness :
  exists rs_pre rs_post : list (option float),
    [Some (value_at Scripted.sinf t_0_25 Scripted.fresh); None;
     Some (value_at Scripted.sinf t_0_25
             (Sampler_init Scripted.rng_seed Scripted.uniform_real 7))]
    = rs_pre ++ None :: rs_post /\
    length rs_pre = length [py_sim_value t_0_25] /\
    py_session Scripted.rng_seed Scripted.uniform_real Scripted.sinf 0
      [py_sim_value t_0_25]
      (Sampler_init Scripted.rng_seed Scripted.uniform_real 7)
    = Some (rs_post, Sampler_init Scripted.rng_seed Scripted.uniform_real 7).
Proof.
  exact (py_seed_forgets_history Scripted.Rng Scripted.rng_seed Scripted.uniform_real
           Scripted.sinf 0 [py_sim_value t_0_25] [py_sim_value t_0_25] 7
           Scripted.fresh (Sampler_init Scripted.rng_seed Scripted.uniform_real 7)
           [Some (value_at Scripted.sinf t_0_25 Scripted.fresh); None;
            Some (value_at Scripted.sinf t_0_25
                    (Sampler_init Scripted.rng_seed Scripted.uniform_real 7))]
           eq_refl).
Defined.

(** A session on the scripted engine: [sim_value(0.25)], [seed(7)],
    [sim_value(0.75)]. *)
Lemma py_outputs_bounded_witness :
  exists (rs : list (option float)) (s' : Sampler Scripted.Rng),
    py_import Scripted.rng_seed Scripted.uniform_real Scripted.sinf
      (Z.to_nat (2 ^ 25 + 1))
      [py_sim_value t_0_25; py_seed 7; py_sim_value t_0_75] = Some (rs, s') /\
    length rs = length [py_sim_value t_0_25; py_seed 7; py_sim_value t_0_75] /\
    Forall py_result_ok rs.
Proof.
  apply (py_outputs_bounded Scripted.Rng Scripted.rng_seed Scripted.uniform_real
           Scripted.sinf scripted_draws_in_range scripted_sine_spec).
  - apply le_n.
  - repeat constructor.
Defined.

(** On the scripted engine the first cycle runs from 0 to 0.62. *)
Lemma current_cycle_not_empty_witness :
  flt (m_CycleStart Scripted.fresh)
      (fadd (m_CycleStart Scripted.fresh) (m_Period Scripted.fresh)) = true.
Proof.
  exact (current_cycle_not_empty Scripted.Rng Scripted.rng_seed Scripted.uniform_real
           Scripted.sinf scripted_draws_in_range Scripted.fresh scripted_fresh_reachable).
Defined.

(** [theSampler.SimValue(0.0f)] on the scripted engine. *)
Lemma SimValue_at_cycle_start_witness :
  SimValue Scripted.uniform_real Scripted.sinf 3 (m_CycleStart Scripted.fresh)
    Scripted.fresh = Some (S754_zero false, Scripted.fresh).
Proof.
  exact (SimValue_at_cycle_start Scripted.Rng Scripted.rng_seed Scripted.uniform_real
           Scripted.sinf scripted_draws_in_range scripted_sine_spec 3
           Scripted.fresh scripted_fresh_reachable).
Defined.

(** ** Worked examples: equal seeds, and the phase before the cycle start *)

(** C2 on the scripted engine: [Seed(123); a = SimValue(0.5f); Seed(123);
    b = SimValue(0.5f)]. *)
Lemma same_seed_equal_values_witness :
  exists a : float,
    seed_twice Scripted.Rng Scripted.rng_seed Scripted.uniform_real Scripted.sinf
      (fuel_for f0_5 (Sampler_init Scripted.rng_seed Scripted.uniform_real 123))
      123 f0_5 Scripted.fresh = Some (a, a) /\
    feq a a = true.
Proof.
  destruct (same_seed_equal_values Scripted.Rng Scripted.rng_seed Scripted.uniform_real
              Scripted.sinf scripted_draws_in_range scripted_sine_spec 123
              (fuel_for f0_5 (Sampler_init Scripted.rng_seed Scripted.uniform_real 123)))
    as (Heq & Hret & _).
  destruct (Hret f0_5 Scripted.fresh
              (conj eq_refl (conj eq_refl (conj eq_refl eq_refl))) (le_n _)) as [a E].
  exists a. split; [exact E|].
  exact (proj2 (Heq f0_5 a a Scripted.fresh (conj eq_refl (conj eq_refl eq_refl)) E)).
Defined.

(** C2 as stated fails: at the finite time [-1e38f] both calls return NaN, and
    [NaN == NaN] is false. *)
Lemma reseed_nan_not_equal :
  ~ (forall (inSeed : Z) (inTime : float),
       valid inTime = true -> is_finite inTime = true ->
       exists (fuel : nat) (a b : float),
         seed_twice Scripted.Rng Scripted.rng_seed Scripted.uniform_real Scripted.sinf
           fuel inSeed inTime Scripted.fresh = Some (a, b) /\
         feq a b = true).
Proof.
  intros H. destruct (H 12345 t_minus_1e38 eq_refl eq_refl) as (fuel & a & b & E & Heq).
  unfold seed_twice, t_minus_1e38 in E.
  rewrite (Seed_eq_init Scripted.Rng Scripted.rng_seed Scripted.uniform_real 12345) in E.
  rewrite (far_rewind_is_nan Scripted.Rng Scripted.rng_seed Scripted.uniform_real
             Scripted.sinf scripted_draws_in_range scripted_sine_spec
             9860761 103 12345 fuel eq_refl) in E.
  rewrite (Seed_eq_init Scripted.Rng Scripted.rng_seed Scripted.uniform_real 12345) in E.
  rewrite (far_rewind_is_nan Scripted.Rng Scripted.rng_seed Scripted.uniform_real
             Scripted.sinf scripted_draws_in_range scripted_sine_spec
             9860761 103 12345 fuel eq_refl) in E.
  assert (a = S754_nan) by congruence. assert (b = S754_nan) by congruence.
  subst a b. discriminate Heq.
Qed.

(** C5 on the scripted engine: [theSampler.SimValue(-1.0f)]. *)
Lemma fresh_rewind_phase_negative_witness :
  advance Scripted.uniform_real 0 t_minus_1 Scripted.fresh = Some Scripted.fresh /\
  flt (phase t_minus_1 Scripted.fresh) f0_0 = true /\
  fle f0_0 (phase t_minus_1 Scripted.fresh) = false.
Proof.
  exact (fresh_rewind_phase_negative Scripted.Rng Scripted.rng_seed Scripted.uniform_real
           scripted_draws_in_range 12345 0).
Defined.
